(** * geologic_periods: assigning students to options

    A shallow embedding of the two solvers of the repository:

    - [AlgorithmUtilities] and [AssignStudents]: the older brute-force
      script (classes [Matching], [MatchingsIterator], [ScoreCalculator]
      and the top-level driver loop);
    - [AssignStudentsNew]: the newer staged, recursive engine (classes
      [Student], [Matching] and the functions
      [recursive_assignment_algorithm], [assignment_algorithm_base_case],
      [find_more_unhappy_students], [score_assignment]).

    Python objects are modelled as follows.  A [dict] is a finite map
    together with the insertion order of its keys; a [set] of names is a
    [gset string] (equality of sets is extensional, iteration goes over
    [elements]); an [int] is a [Z], a length or a loop counter a [nat];
    a tuple of ints is a [list Z].  A raised exception is a value of
    [exn]; the code has no [try] around any of the modelled calls (the
    one in [calculate_score] is local to [list.index]), so an exception
    ends the run. *)

From stdpp Require Import gmap strings list fin_maps fin_sets sorting.
From Stdlib Require Import ZArith Lia.

Open Scope string_scope.
Open Scope list_scope.

(** ** Python values shared by the scripts *)

Module Py.

(** The exception classes the modelled code can raise. *)
Inductive exn :=
  | AssertionError | KeyError | IndexError | AttributeError
  | TypeError | ValueError.

#[global] Instance exn_eq_dec : EqDecision exn.
Proof. solve_decision. Defined.

(** The result of evaluating an expression: a value or a raised exception. *)
Inductive result (A : Type) :=
  | Return (a : A)
  | Raise (e : exn).
Arguments Return {A} a.
Arguments Raise {A} e.


#[global] Instance result_eq_dec {A : Type} `{!EqDecision A}
  : EqDecision (result A).
Proof. solve_decision. Defined.

#[global] Instance result_ret : MRet result := λ A a, Return a.
#[global] Instance result_bind : MBind result := λ A B f r,
  match r with Return a => f a | Raise e => Raise e end.

Definition assert (b : bool) : result unit :=
  if b then Return tt else Raise AssertionError.

(** Loops whose body may raise or touch the shared state, for any monad. *)
Section loops.
Context {M : Type → Type} `{!MBind M, !MRet M}.

(** [for x in l: acc = f acc x] *)
Fixpoint foldM {A B : Type} (f : B → A → M B) (acc : B) (l : list A) : M B :=
  match l with
  | [] => mret acc
  | x :: l' => acc' ← f acc x; foldM f acc' l'
  end.

(** [for x in l: f x] *)
Fixpoint forM_ {A : Type} (f : A → M unit) (l : list A) : M unit :=
  match l with
  | [] => mret tt
  | x :: l' => f x;; forM_ f l'
  end.

(** [[f x for x in l]] *)
Fixpoint forM {A B : Type} (f : A → M B) (l : list A) : M (list B) :=
  match l with
  | [] => mret []
  | x :: l' => y ← f x; ys ← forM f l'; mret (y :: ys)
  end.

(** [[x for x in l if f x]] *)
Fixpoint filterM {A : Type} (f : A → M bool) (l : list A) : M (list A) :=
  match l with
  | [] => mret []
  | x :: l' =>
      b ← f x; ys ← filterM f l';
      mret (if b : bool then x :: ys else ys)
  end.
End loops.

(** [l[i]] for a non-negative index. *)
Definition index {A : Type} (l : list A) (i : nat) : result A :=
  match l !! i with
  | Some x => Return x
  | None => Raise IndexError
  end.

(** Insertion into a list of keyed items that is sorted by [before]:
    the new item goes in front of the first item it may precede. *)
Fixpoint insert_keyed {A : Type} (before : Z → Z → bool) (kx : Z * A)
    (l : list (Z * A)) : list (Z * A) :=
  match l with
  | [] => [kx]
  | ky :: l' =>
      if before kx.1 ky.1 then kx :: l else ky :: insert_keyed before kx l'
  end.

(** [l.sort(key=key, reverse=reverse)]: the keys of all items are taken
    first, and the sort is stable in both directions. *)
Definition sort_by_key {A : Type} (key : A → result Z) (reverse : bool)
    (l : list A) : result (list A) :=
  ks ← forM key l;
  let before := if reverse then Z.geb else Z.leb in
  Return (snd <$> foldr (insert_keyed before) [] (zip ks l)).

(** A Python [dict] with string keys: the keys in insertion order and
    the stored values. *)
Record dict (V : Type) := Dict {
  keys : list string;
  store : gmap string V
}.
Arguments Dict {V} keys store.
Arguments keys {V} d.
Arguments store {V} d.

#[global] Instance dict_eq_dec {V : Type} `{!EqDecision V} : EqDecision (dict V).
Proof. solve_decision. Defined.

Definition dict_empty {V : Type} : dict V := Dict [] ∅.

(** [d[k]] *)
Definition dict_get {V : Type} (k : string) (d : dict V) : result V :=
  match store d !! k with
  | Some v => Return v
  | None => Raise KeyError
  end.

(** [k in d] *)
Definition dict_has {V : Type} (k : string) (d : dict V) : bool :=
  bool_decide (is_Some (store d !! k)).

(** [d[k] = v]: a new key goes to the end, an existing key keeps its place. *)
Definition dict_set {V : Type} (k : string) (v : V) (d : dict V) : dict V :=
  Dict (if dict_has k d then keys d else keys d ++ [k]) (<[k := v]> (store d)).

(** [len(d)] *)
Definition dict_len {V : Type} (d : dict V) : nat := length (keys d).

(** [d.items()] *)
Definition dict_items {V : Type} (d : dict V) : list (string * V) :=
  omap (λ k, (k,.) <$> store d !! k) (keys d).

(** [{k: v for k in ks}], built by successive assignment. *)
Definition dict_from_keys {V : Type} (ks : list string) (v : V) : dict V :=
  fold_left (λ d k, dict_set k v d) ks dict_empty.

(** The dict built by [d[fk x] = fv x] for the items [x] of a list, in
    order. *)
Definition dict_of {A V : Type} (fk : A → string) (fv : A → V) (l : list A)
    : dict V :=
  fold_left (λ d x, dict_set (fk x) (fv x) d) l dict_empty.

(** The keys are exactly the stored ones, each once. *)
Definition dict_wf {V : Type} (d : dict V) : Prop :=
  NoDup (keys d) ∧ ∀ k, k ∈ keys d ↔ is_Some (store d !! k).

(** Comparison of two tuples of ints with [>]: the first differing
    component decides, and a proper prefix is smaller. *)
Fixpoint tuple_gt (a b : list Z) : bool :=
  match a, b with
  | [], _ => false
  | _ :: _, [] => true
  | x :: a', y :: b' =>
      if bool_decide (x = y) then tuple_gt a' b' else bool_decide (y < x)%Z
  end.

(** [a >= b] on tuples. *)
Definition tuple_ge (a b : list Z) : bool := negb (tuple_gt b a).

(** [score[i] += 1] on a list; out of range raises [IndexError]. *)
Definition list_incr (i : nat) (score : list Z) : result (list Z) :=
  match score !! i with
  | Some x => Return (<[i := (x + 1)%Z]> score)
  | None => Raise IndexError
  end.

(** [itertools.combinations(pool, r)], in the order itertools yields. *)
Fixpoint combinations {A : Type} (pool : list A) (r : nat) : list (list A) :=
  match r with
  | 0 => [[]]
  | S r' =>
      match pool with
      | [] => []
      | x :: pool' =>
          (cons x <$> combinations pool' r') ++ combinations pool' (S r')
      end
  end.

(** [itertools.product] applied to the unpacked list of pools, the
    rightmost pool advancing fastest. *)
Fixpoint product {A : Type} (pools : list (list A)) : list (list A) :=
  match pools with
  | [] => [[]]
  | p :: pools' => x ← p; cons x <$> product pools'
  end.

(** [itertools.permutations(pool)]: every ordering of the pool, by
    position. *)
Fixpoint pick_each {A : Type} (l : list A) : list (A * list A) :=
  match l with
  | [] => []
  | x :: l' => (x, l') :: ((λ p, (p.1, x :: p.2)) <$> pick_each l')
  end.

Fixpoint permutations_fuel {A : Type} (n : nat) (l : list A) : list (list A) :=
  match n with
  | 0 => [[]]
  | S n' =>
      match l with
      | [] => [[]]
      | _ => p ← pick_each l; cons p.1 <$> permutations_fuel n' p.2
      end
  end.

Definition permutations {A : Type} (l : list A) : list (list A) :=
  permutations_fuel (length l) l.

End Py.
Import Py.

(** ** AlgorithmUtilities.py: the data structures of the older script *)

Module AlgorithmUtilities.

(** class [Matching]: the options' student sets and the students' options. *)
Record Matching := {
  by_option : dict (gset string);
  by_student : dict (option string)
}.

(** [Matching.__init__(self, options, students)] *)
Definition Matching_init (options students : list string) : Matching :=
  {| by_option := dict_from_keys options ∅;
     by_student := dict_from_keys students None |}.

(** The test at the head of [add_pair] and [delete_pair] that tells the
    option from the student; the result is [(option, student)]. *)
Definition orient (m : Matching) (u v : string) : result (string * string) :=
  if dict_has u (by_option m) && dict_has v (by_student m) then Return (u, v)
  else if dict_has v (by_option m) && dict_has u (by_student m) then Return (v, u)
  else Raise KeyError.

(** [Matching.add_pair(self, u, v)] *)
Definition add_pair (u v : string) (m : Matching) : result Matching :=
  '(option, student) ← orient m u v;
  cur ← dict_get student (by_student m);
  match cur with
  | None =>
      members ← dict_get option (by_option m);
      Return {| by_option := dict_set option (members ∪ {[student]}) (by_option m);
                by_student := dict_set student (Some option) (by_student m) |}
  | Some _ => Raise ValueError
  end.

(** [Matching.delete_pair(self, u, v)]; [set.remove] raises [KeyError]
    on a missing element. *)
Definition delete_pair (u v : string) (m : Matching) : result Matching :=
  '(option, student) ← orient m u v;
  cur ← dict_get student (by_student m);
  if bool_decide (cur = Some option) then
    members ← dict_get option (by_option m);
    if bool_decide (student ∈ members) then
      Return {| by_option := dict_set option (members ∖ {[student]}) (by_option m);
                by_student := dict_set student None (by_student m) |}
    else Raise KeyError
  else Raise ValueError.

(** [Matching.obeys_max_per_option(self, max_per_option, option)] with an
    option given. *)
Definition obeys_max_per_option (max_per_option : Z) (option : string)
    (m : Matching) : result bool :=
  members ← dict_get option (by_option m);
  Return (bool_decide (Z.of_nat (size members) ≤ max_per_option)%Z).

(** [Matching.as_tuples(self)] *)
Definition as_tuples (m : Matching) : gset (string * option string) :=
  list_to_set (dict_items (by_student m)).

(** What [Matching.lookup] returns: a student's option (or [None]), or
    a copy of an option's set of students. *)
Inductive looked_up :=
  | OfStudent (assigned : option string)
  | OfOption (members : gset string).

(** [Matching.lookup(self, u)] *)
Definition lookup (u : string) (m : Matching) : result looked_up :=
  match store (by_student m) !! u with
  | Some assigned => Return (OfStudent assigned)
  | None =>
      match store (by_option m) !! u with
      | Some members => Return (OfOption members)
      | None => Raise KeyError
      end
  end.

(** [Matching.underfilled(self, limit=1)]: a set comprehension over the
    items of [by_option]. *)
Definition underfilled (limit : Z) (m : Matching) : gset string :=
  list_to_set
    (fst <$> filter (λ xy, (Z.of_nat (size xy.2) < limit)%Z)
                    (dict_items (by_option m))).

(** The default argument of [underfilled]. *)
Definition underfilled_default_limit : Z := 1.

(** class [ScoreCalculator]: the students' picks, their priority marks
    and the common length of the pick lists. *)
Record ScoreCalculator := {
  sc_n_choices : nat;
  sc_choices : dict (list string);
  sc_high_priority : dict bool
}.

(** [set(d.keys())] *)
Definition key_set {V : Type} (d : dict V) : gset string := list_to_set (keys d).

(** [ScoreCalculator.__init__(self, choices, high_priority)] *)
Definition ScoreCalculator_init (choices : dict (list string))
    (high_priority : dict bool) : result ScoreCalculator :=
  if bool_decide (key_set choices ≠ key_set high_priority) then Raise TypeError
  else
    let lengths : gset nat :=
      list_to_set ((λ kv, length kv.2) <$> dict_items choices) in
    match elements lengths with
    | [n] => Return {| sc_n_choices := n;
                       sc_choices := choices;
                       sc_high_priority := high_priority |}
    | _ => Raise TypeError
    end.

(** [picks.index(assigned)] inside [try ... except ValueError: rank = None] *)
Fixpoint index_of (assigned : string) (picks : list string) : option nat :=
  match picks with
  | [] => None
  | p :: picks' =>
      if bool_decide (p = assigned) then Some 0
      else S <$> index_of assigned picks'
  end.

(** The body of the loop of [calculate_score] for one student. *)
Definition score_one (sc : ScoreCalculator) (m : Matching)
    (score : list Z) (item : string * list string) : result (list Z) :=
  let '(name, picks) := item in
  assigned ← lookup name m;
  hp ← dict_get name (sc_high_priority sc);
  match assigned with
  | OfStudent None => Raise ValueError
  | _ =>
      let rank :=
        match assigned with
        | OfStudent (Some o) => index_of o picks
        | _ => None
        end in
      match rank with
      | Some rank =>
          score ← list_incr (1 + rank) score;
          if hp : bool then list_incr (1 + sc_n_choices sc + rank) score
          else Return score
      | None =>
          match score with
          | s0 :: rest => Return ((s0 - 1)%Z :: rest)
          | [] => Raise IndexError
          end
      end
  end.

(** [ScoreCalculator.calculate_score(self, match)] *)
Definition calculate_score (sc : ScoreCalculator) (m : Matching)
    : result (list Z) :=
  let score :=
    Z.of_nat (dict_len (sc_choices sc)) :: replicate (sc_n_choices sc * 2) 0%Z in
  foldM (score_one sc m) score (dict_items (sc_choices sc)).

(** class [MatchingsIterator]: the options, the students' picks, and
    the two attributes [all_permitted_matchings] sets while it runs. *)
Record MatchingsIterator := {
  mi_options : gset string;
  mi_choices : dict (list string);
  mi_match : Matching;
  mi_unhappy : gset string
}.

(** [sorted(names)] on strings. *)
Fixpoint insert_name (x : string) (l : list string) : list string :=
  match l with
  | [] => [x]
  | y :: l' => if String.leb x y then x :: l else y :: insert_name x l'
  end.

Definition sorted (names : list string) : list string :=
  foldr insert_name [] names.

(** [for n, e in zip(perm, self.match.underfilled()): f(n, e)], with [f]
    one of [add_pair] and [delete_pair]; the set is built once, before
    the first pair is handled. *)
Definition for_zip_underfilled (f : string → string → Matching → result Matching)
    (perm : list string) (m : Matching) : result Matching :=
  foldM (λ m ne, f ne.1 ne.2 m) m
        (zip perm (elements (underfilled underfilled_default_limit m))).

Section generator.
(** The body of the [for match in ...] loop that consumes the
    generator, run at every [yield] on the matching as it then is. *)
Context {Acc : Type} (consume : Matching → Acc → result Acc).
Context (choices : dict (list string)) (unhappy : gset string).

(** The branch [index == len(self.choices)] of [_iter_recurse]. *)
Definition iter_leaf (st : Matching * Acc) : result (Matching * Acc) :=
  foldM (λ st perm,
           m ← for_zip_underfilled add_pair perm st.1;
           acc ← consume m st.2;
           m ← for_zip_underfilled delete_pair perm m;
           Return (m, acc))
        st (permutations (elements unhappy)).

(** [MatchingsIterator._iter_recurse(self, index)], by the names that
    remain from [index] on in [sorted(self.choices.keys())]. *)
Fixpoint iter_recurse (remaining : list string) (st : Matching * Acc)
    : result (Matching * Acc) :=
  match remaining with
  | [] => iter_leaf st
  | name :: remaining' =>
      if bool_decide (name ∈ unhappy) then iter_recurse remaining' st
      else
        picks ← dict_get name choices;
        foldM (λ st pick,
                 m ← add_pair name pick st.1;
                 fits ← obeys_max_per_option 2 pick m;
                 st ← (if fits : bool then iter_recurse remaining' (m, st.2)
                       else Return (m, st.2));
                 m ← delete_pair name pick st.1;
                 Return (m, st.2))
              st picks
  end.
End generator.

(** [MatchingsIterator.all_permitted_matchings(self, n_unhappy)], driving
    the loop body [consume]; the keys of [by_option] come from a set. *)
Definition all_permitted_matchings {Acc : Type}
    (consume : Matching → Acc → result Acc)
    (options : gset string) (choices : dict (list string))
    (n_unhappy : nat) (acc : Acc) : result Acc :=
  let m := Matching_init (elements options) (keys choices) in
  st ← foldM (λ st unhappy,
                iter_recurse consume choices (list_to_set unhappy)
                             (sorted (keys choices)) st)
             (m, acc) (combinations (keys choices) n_unhappy);
  Return st.2.

(** [Matching.obeys_max_per_option(self, max_per_option)] with no option
    given: the loop over the values returns [False] at the first set
    that is too large. *)
Definition obeys_max_per_option_all (max_per_option : Z) (m : Matching) : bool :=
  forallb (λ xy, negb (bool_decide (max_per_option < Z.of_nat (size xy.2))%Z))
          (dict_items (by_option m)).

(** [Matching.obeys_min_per_option(self, min_per_option, option)] with an
    option given. *)
Definition obeys_min_per_option (min_per_option : Z) (option : string)
    (m : Matching) : result bool :=
  members ← dict_get option (by_option m);
  Return (bool_decide (min_per_option ≤ Z.of_nat (size members))%Z).

(** [Matching.obeys_min_per_option(self, min_per_option)] with no option
    given. *)
Definition obeys_min_per_option_all (min_per_option : Z) (m : Matching) : bool :=
  forallb (λ xy, negb (bool_decide (Z.of_nat (size xy.2) < min_per_option)%Z))
          (dict_items (by_option m)).

(** [Matching.clear(self)]: every student is set to [None] and every
    option's set is emptied, key by key. *)
Definition clear (m : Matching) : Matching :=
  {| by_option := fold_left (λ d option, dict_set option ∅ d)
                            (keys (by_option m)) (by_option m);
     by_student := fold_left (λ d student, dict_set student None d)
                             (keys (by_student m)) (by_student m) |}.

(** [Matching.empty_options(self)] *)
Definition empty_options (m : Matching) : gset string :=
  list_to_set
    (fst <$> filter (λ xy, size xy.2 = 0) (dict_items (by_option m))).

End AlgorithmUtilities.

(** ** AssignStudents.py: the driver of the older script *)

Module AssignStudents.
Import AlgorithmUtilities.

(** The tally [all_choices] of the statistics section: how often each
    option occurs in the students' choice lists. *)
Definition all_choices (options : list string) (choices : dict (list string))
    : result (dict Z) :=
  foldM (foldM (λ tally my_choice,
                  n ← dict_get my_choice tally;
                  Return (dict_set my_choice (n + 1)%Z tally)))
        (dict_from_keys options 0%Z) (snd <$> dict_items choices).

(** The loop of the statistics section as it is written, filling
    [first_choices] and [all_choices] together; [choice_list[0]] raises
    [IndexError] on an empty list.  The result is the two tallies. *)
Definition tallies (options : list string) (choices : dict (list string))
    : result (dict Z * dict Z) :=
  foldM (λ '(first_choices, all_choices) choice_list,
           first ← match choice_list with
                   | [] => Raise IndexError
                   | c :: _ => Return c
                   end;
           n ← dict_get first first_choices;
           let first_choices := dict_set first (n + 1)%Z first_choices in
           all_choices ← foldM (λ tally my_choice,
                                  n ← dict_get my_choice tally;
                                  Return (dict_set my_choice (n + 1)%Z tally))
                               all_choices choice_list;
           Return (first_choices, all_choices))
        (dict_from_keys options 0%Z, dict_from_keys options 0%Z)
        (snd <$> dict_items choices).

(** [n_unhappy_students = 1  # calculate minimum limit] *)
Definition n_unhappy_students_initial (options : list string)
    (choices : dict (list string)) : nat := 1.

(** [best_matches] and [best_score]; both [None] until a matching has
    been scored. *)
Definition best := option (gset (gset (string * option string)) * list Z).

(** The body of [for match in match_iter.all_permitted_matchings(...)]. *)
Definition consider (scorer : ScoreCalculator) (m : Matching) (b : best)
    : result best :=
  score ← calculate_score scorer m;
  match b with
  | None => Return (Some ({[ as_tuples m ]}, score))
  | Some (best_matches, best_score) =>
      if tuple_gt score best_score then Return (Some ({[ as_tuples m ]}, score))
      else if bool_decide (score = best_score)
           then Return (Some (best_matches ∪ {[ as_tuples m ]}, best_score))
           else Return b
  end.

(** The [while True] loop, cut off after [fuel] rounds: the result is
    the value of [n_unhappy_students] at the [break] with the best
    matchings and their score, or [None] when the rounds ran out. *)
Fixpoint search_loop (fuel : nat) (scorer : ScoreCalculator)
    (options : list string) (choices : dict (list string))
    (n_unhappy_students : nat)
    : result (option (nat * gset (gset (string * option string)) * list Z)) :=
  match fuel with
  | 0 => Return None
  | S fuel' =>
      b ← all_permitted_matchings (consider scorer) (list_to_set options)
                                  choices n_unhappy_students None;
      match b with
      | None => search_loop fuel' scorer options choices (S n_unhappy_students)
      | Some (best_matches, best_score) =>
          Return (Some (n_unhappy_students, best_matches, best_score))
      end
  end.

(** The script from the set-up of the algorithm on. *)
Definition main (fuel : nat) (options : list string)
    (choices : dict (list string)) (high_priority : dict bool)
    : result (option (nat * gset (gset (string * option string)) * list Z)) :=
  scorer ← ScoreCalculator_init choices high_priority;
  search_loop fuel scorer options choices
              (n_unhappy_students_initial options choices).

End AssignStudents.

(** ** AssignStudentsNew.py: the staged engine *)

Module AssignStudentsNew.

(** class [Student] *)
Record Student := {
  name : string;
  high_priority : bool;
  choices : list string
}.

Definition get_name (st : Student) : string := name st.

(** [Student.get_choice(self, rank)] is [self.choices[rank - 1]]; for
    [rank = 0] the index is [-1], the last choice. *)
Definition get_choice (st : Student) (rank : nat) : result string :=
  let found :=
    match rank with
    | 0 => last (choices st)
    | S i => choices st !! i
    end in
  match found with
  | Some c => Return c
  | None => Raise IndexError
  end.

Definition is_high_priority (st : Student) : bool := high_priority st.

(** class [Matching] *)
Record Matching := {
  by_student : dict (option string);
  by_option : dict (gset string);
  student_locked : dict bool
}.

#[global] Instance Matching_eq_dec : EqDecision Matching.
Proof. solve_decision. Defined.

(** [Matching.__init__(self, students, options)] *)
Definition Matching_init (students : list Student) (options : list string)
    : result Matching :=
  let bs := fold_left (λ d st, dict_set (get_name st) None d) students dict_empty in
  assert (bool_decide (dict_len bs = length students));;
  let bo := fold_left (λ d o, dict_set o (∅ : gset string) d) options dict_empty in
  assert (bool_decide (dict_len bo = length options));;
  let sl := fold_left (λ d s, dict_set s false d) (keys bs) dict_empty in
  Return {| by_student := bs; by_option := bo; student_locked := sl |}.

(** [Matching.get_match(self, student)] *)
Definition get_match (m : Matching) (student : string) : result (option string) :=
  dict_get student (by_student m).

(** [Matching.is_locked(self, student)] *)
Definition is_locked (m : Matching) (student : string) : result bool :=
  dict_get student (student_locked m).

(** [Matching.is_matched(self, student)] *)
Definition is_matched (m : Matching) (student : string) : result bool :=
  v ← dict_get student (by_student m);
  Return (bool_decide (v ≠ None)).

(** [Matching.assign(self, student, option)] *)
Definition assign (student option : string) (m : Matching) : result Matching :=
  matched ← is_matched m student;
  assert (negb matched);;
  locked ← is_locked m student;
  assert (negb locked);;
  members ← dict_get option (by_option m);
  Return {| by_student := dict_set student (Some option) (by_student m);
            by_option := dict_set option (members ∪ {[student]}) (by_option m);
            student_locked := student_locked m |}.

(** [Matching.erase(self, student)]; [set.remove] raises [KeyError] on a
    missing element. *)
Definition erase (student : string) (m : Matching) : result Matching :=
  matched ← is_matched m student;
  assert matched;;
  locked ← is_locked m student;
  assert (negb locked);;
  cur ← dict_get student (by_student m);
  match cur with
  | Some option =>
      members ← dict_get option (by_option m);
      if bool_decide (student ∈ members) then
        Return {| by_student := dict_set student None (by_student m);
                  by_option := dict_set option (members ∖ {[student]}) (by_option m);
                  student_locked := student_locked m |}
      else Raise KeyError
  | None => Raise AssertionError
  end.

(** [Matching.lock(self, student)] *)
Definition lock (student : string) (m : Matching) : result Matching :=
  locked ← is_locked m student;
  assert (negb locked);;
  Return {| by_student := by_student m;
            by_option := by_option m;
            student_locked := dict_set student true (student_locked m) |}.

(** [Matching.unlock(self, student)] *)
Definition unlock (student : string) (m : Matching) : result Matching :=
  locked ← is_locked m student;
  assert locked;;
  Return {| by_student := by_student m;
            by_option := by_option m;
            student_locked := dict_set student false (student_locked m) |}.

(** [Matching.get_n_unmatched(self)] *)
Definition get_n_unmatched (m : Matching) : result nat :=
  foldM (λ total student,
           matched ← is_matched m student;
           Return (if matched : bool then total else S total))
        0 (keys (by_student m)).

(** [Matching.list_unmatched_students(self)] *)
Definition list_unmatched_students (m : Matching) : result (list string) :=
  filterM (λ student, matched ← is_matched m student; Return (negb matched))
          (keys (by_student m)).

(** [Matching.reduce_to_pairs(self)]: the assertion makes the second
    component of every pair an option. *)
Definition reduce_to_pairs (m : Matching) : result (list (string * string)) :=
  forM (λ student,
          matched ← is_matched m student;
          assert matched;;
          v ← dict_get student (by_student m);
          match v with
          | Some option => Return (student, option)
          | None => Raise AssertionError
          end)
       (keys (by_student m)).

(** [Matching.list_overfilled_options(self, threshold)] *)
Definition list_overfilled_options (threshold : Z) (m : Matching)
    : result (list string) :=
  filterM (λ option,
             members ← dict_get option (by_option m);
             Return (bool_decide (threshold < Z.of_nat (size members))%Z))
          (keys (by_option m)).

(** [Matching.make_trim_iterable(self, option, threshold)]; the set is
    iterated in the order of [elements]. *)
Definition make_trim_iterable (option : string) (threshold : Z) (m : Matching)
    : result (list (list string)) :=
  members ← dict_get option (by_option m);
  let n_assigned := Z.of_nat (size members) in
  assert (bool_decide (threshold < n_assigned)%Z);;
  removable ← filterM (λ student, locked ← is_locked m student;
                                   Return (negb locked))
                      (elements members);
  Return (combinations removable (Z.to_nat (n_assigned - threshold))).

(** [Matching.list_underfilled_options(self, threshold)] *)
Definition list_underfilled_options (threshold : Z) (m : Matching)
    : result (list string) :=
  foldM (λ underfilled option,
           members ← dict_get option (by_option m);
           let n := Z.of_nat (size members) in
           Return (if bool_decide (n < threshold)%Z
                   then underfilled ++ replicate (Z.to_nat (threshold - n)) option
                   else underfilled))
        [] (keys (by_option m)).

(** [Matching.list_empty_spots(self, low_threshold, high_threshold)] *)
Definition list_empty_spots (low_threshold high_threshold : Z) (m : Matching)
    : result (list string) :=
  foldM (λ empty_spots option,
           members ← dict_get option (by_option m);
           let n := Z.of_nat (size members) in
           Return (if bool_decide (low_threshold ≤ n)%Z && bool_decide (n < high_threshold)%Z
                   then empty_spots ++ replicate (Z.to_nat (high_threshold - n)) option
                   else empty_spots))
        [] (keys (by_option m)).

(** [Matching.list_students_for_option(self, option)] *)
Definition list_students_for_option (m : Matching) (option : string)
    : result (list string) :=
  members ← dict_get option (by_option m);
  Return (elements members).

(** [match.list_students_by_option(option)], as [find_more_unhappy_students]
    writes it: the class defines no attribute of that name (its method is
    [list_students_for_option]), so evaluating the attribute raises
    [AttributeError] before any call is made. *)
Definition list_students_by_option (m : Matching) (option : string)
    : result (list string) :=
  Raise AttributeError.

(** The loop over the ranks in [score_assignment], for one student. *)
Fixpoint score_ranks (n_choices : nat) (st : Student) (assigned : option string)
    (ranks : list nat) (score : list Z) : result (list Z) :=
  match ranks with
  | [] => Return score
  | i :: ranks' =>
      c ← get_choice st i;
      if bool_decide (Some c = assigned) then
        score ← list_incr 0 score;
        score ← list_incr i score;
        if is_high_priority st then list_incr (n_choices + i) score
        else Return score
      else score_ranks n_choices st assigned ranks' score
  end.

(** [score_assignment(match, students, options, n_choices, min_per_option,
    max_per_option)] *)
Definition score_assignment (m : Matching) (students : list Student)
    (n_choices : nat) : result (list Z) :=
  foldM (λ score st,
           assigned ← get_match m (get_name st);
           score_ranks n_choices st assigned (seq 1 n_choices) score)
        (0%Z :: replicate (2 * n_choices) 0%Z) students.

(** *** The run-time state of the engine

    Every frame of the recursion works on the one [Matching] object it
    was handed, and [random.shuffle] draws from the generator of the
    [random] module.  [w_visited] and [w_scored] are history variables
    of the model: the state of the matching after each successful call
    of [assign], [erase], [lock] or [unlock], and the result of each
    base case that returned, both oldest first. *)
Record World := {
  w_match : Matching;
  w_random : list nat;
  w_visited : list Matching;
  w_scored : list (list (string * string) * list Z)
}.

Definition M (A : Type) : Type := World → result A * World.

#[global] Instance M_ret : MRet M := λ A a w, (Return a, w).
#[global] Instance M_bind : MBind M := λ A B f c w,
  match c w with
  | (Return a, w') => f a w'
  | (Raise e, w') => (Raise e, w')
  end.

(** An expression that reads the matching. *)
Definition query {A : Type} (f : Matching → result A) : M A :=
  λ w, (f (w_match w), w).

(** The world after the matching was mutated into [m']. *)
Definition moved (w : World) (m' : Matching) : World :=
  {| w_match := m'; w_random := w_random w;
     w_visited := w_visited w ++ [m']; w_scored := w_scored w |}.

(** A call of one of the four mutating methods. *)
Definition mutate (f : Matching → result Matching) : M unit :=
  λ w, match f (w_match w) with
       | Return m' => (Return tt, moved w m')
       | Raise e => (Raise e, w)
       end.

(** An expression that touches neither. *)
Definition lift {A : Type} (r : result A) : M A := λ w, (r, w).

Definition raise {A : Type} (e : exn) : M A := lift (Raise e).

(** The next draw of the generator, reduced to [range(n)]; an exhausted
    stream keeps giving 0. *)
Definition randbelow (n : nat) : M nat :=
  λ w, match w_random w with
       | [] => (Return 0, w)
       | r :: rs =>
           (Return (r `mod` n), {| w_match := w_match w; w_random := rs;
                                  w_visited := w_visited w;
                                  w_scored := w_scored w |})
       end.

Definition record_scored (pairs : list (string * string)) (score : list Z)
    : M unit :=
  λ w, (Return tt, {| w_match := w_match w; w_random := w_random w;
                      w_visited := w_visited w;
                      w_scored := w_scored w ++ [(pairs, score)] |}).

(** [random.shuffle(l)]: the result is built front to back, each item
    drawn uniformly from those that remain. *)
Fixpoint shuffle_draws {A : Type} (fuel : nat) (l : list A) : M (list A) :=
  match fuel with
  | 0 => mret l
  | S fuel' =>
      j ← randbelow (length l);
      match l !! j with
      | Some x => rest ← shuffle_draws fuel' (delete j l); mret (x :: rest)
      | None => mret l
      end
  end.

Definition shuffle {A : Type} (l : list A) : M (list A) :=
  shuffle_draws (length l) l.

(** [Matching.assign_pairs(self, student_option_pairs)] *)
Definition assign_pairs (pairs : list (string * string)) : M unit :=
  forM_ (λ so, mutate (assign so.1 so.2)) pairs.

(** [Matching.erase_many(self, students)] *)
Definition erase_many (students : list string) : M unit :=
  forM_ (λ student, mutate (erase student)) students.

(** [Matching.unlock_many(self, students)] *)
Definition unlock_many (students : list string) : M unit :=
  forM_ (λ student, mutate (unlock student)) students.

(** [Matching.erase_all(self)] *)
Definition erase_all : M unit :=
  ks ← query (λ m, Return (keys (by_student m)));
  forM_ (λ student,
           matched ← query (λ m, is_matched m student);
           if matched : bool then mutate (erase student) else mret tt) ks.

(** [Matching.lock_all_matched(self)] *)
Definition lock_all_matched : M (list string) :=
  ks ← query (λ m, Return (keys (by_student m)));
  foldM (λ were_locked student,
           matched ← query (λ m, is_matched m student);
           if matched : bool then
             locked ← query (λ m, is_locked m student);
             if locked : bool then mret were_locked
             else mutate (lock student);; mret (were_locked ++ [student])
           else mret were_locked)
        [] ks.

(** The second component of a saved pair.  The pair is read with
    [get_match] just before [erase] is called on the same student, and
    [erase] raises on an unmatched student, so the component is never
    [None] when the pair is used. *)
Definition saved_option (v : option string) : M string :=
  match v with
  | Some option => mret option
  | None => raise AssertionError
  end.

Section engine.
Context (students : list Student) (options : list string) (n_choices : nat).
Context (min_per_option max_per_option : Z).

(** The inner loop of [find_more_unhappy_students] that sets
    [happiness[name]]. *)
Fixpoint happiness_ranks (st : Student) (assigned : option string)
    (ranks : list nat) : result Z :=
  match ranks with
  | [] => Return 0%Z
  | i :: ranks' =>
      c ← get_choice st i;
      if bool_decide (Some c = assigned)
      then Return (Z.of_nat n_choices - Z.of_nat i + 1)%Z
      else happiness_ranks st assigned ranks'
  end.

(** The first loop of [find_more_unhappy_students]: the dicts
    [happiness] and [priority]. *)
Definition happiness_and_priority (m : Matching)
    : result (dict Z * dict Z) :=
  foldM (λ hp st,
           assigned ← get_match m (get_name st);
           h ← happiness_ranks st assigned (seq 1 n_choices);
           Return (dict_set (get_name st) h hp.1,
                   dict_set (get_name st)
                            (if is_high_priority st then 1%Z else 0%Z) hp.2))
        (dict_empty, dict_empty) students.

(** [find_more_unhappy_students], with the method it calls on the
    matching to list an option's students left open. *)
Definition find_more_unhappy_students_with
    (list_students : Matching → string → result (list string))
    : M (list string) :=
  '(happiness, priority) ← query happiness_and_priority;
  tiers ← foldM (λ tiers option,
                   option_students ← query (λ m, list_students m option);
                   option_students ← shuffle option_students;
                   option_students ←
                     lift (sort_by_key (λ x, dict_get x happiness) false
                                       option_students);
                   option_students ←
                     lift (sort_by_key (λ x, dict_get x priority) true
                                       option_students);
                   mret (fold_left
                           (λ tiers ix, dict_set ix.2 (Z.of_nat ix.1 + 1)%Z tiers)
                           (imap pair option_students) tiers))
                dict_empty options;
  queue ← lift (filterM (λ student, h ← dict_get student happiness;
                                      Return (bool_decide (0 < h)%Z))
                        (keys happiness));
  queue ← shuffle queue;
  queue ← lift (sort_by_key (λ x, dict_get x happiness) true queue);
  queue ← lift (sort_by_key (λ x, dict_get x tiers) true queue);
  mret queue.

(** [find_more_unhappy_students(match, students, options, n_choices,
    min_per_option, max_per_option)] as the source has it. *)
Definition find_more_unhappy_students : M (list string) :=
  find_more_unhappy_students_with list_students_by_option.

(** The first loop of the eviction branch of the base case: unlock and
    erase the first [count] students of the queue, keeping their
    pairs. *)
Definition evict (unhappy_queue : list string) (count : nat)
    : M (list (string * string)) :=
  foldM (λ evicted i,
           student ← lift (index unhappy_queue i);
           mutate (unlock student);;
           v ← query (λ m, get_match m student);
           mutate (erase student);;
           option ← saved_option v;
           mret (evicted ++ [(student, option)]))
        [] (seq 0 count).

(** [assignment_algorithm_base_case(match, students, options, n_choices,
    min_per_option, max_per_option)] *)
Definition assignment_algorithm_base_case
    : M (option (list (string * string)) * option (list Z)) :=
  n_unhappy ← query get_n_unmatched;
  underfilled ← query (list_underfilled_options min_per_option);
  evicted ←
    (if bool_decide (n_unhappy < length underfilled) then
       unhappy_queue ← find_more_unhappy_students;
       evict unhappy_queue (length underfilled - n_unhappy)
     else mret []);
  unhappy ← query list_unmatched_students;
  unhappy ← shuffle unhappy;
  forM_ (λ io, student ← lift (index unhappy io.1);
               mutate (assign student io.2))
        (imap pair underfilled);;
  (if bool_decide (length underfilled < length unhappy) then
     empty_spots ← query (list_empty_spots min_per_option max_per_option);
     empty_spots ← shuffle empty_spots;
     forM_ (λ i, let j := i - length underfilled in
                 student ← lift (index unhappy i);
                 option ← lift (index empty_spots j);
                 mutate (assign student option))
           (seq (length underfilled) (length unhappy - length underfilled))
   else mret tt);;
  score ← query (λ m, score_assignment m students n_choices);
  pairs ← query reduce_to_pairs;
  erase_many unhappy;;
  (if bool_decide (n_unhappy < length underfilled) then
     forM_ (λ so, mutate (assign so.1 so.2);; mutate (lock so.1)) evicted
   else mret tt);;
  record_scored pairs score;;
  mret (Some pairs, Some score).

(** The first loop of a stage: every unmatched student gets the
    choice of this stage. *)
Definition stage_entry (stage : nat) : M (list string) :=
  foldM (λ assigned_students st,
           matched ← query (λ m, is_matched m (get_name st));
           if matched : bool then mret assigned_students
           else
             choice ← lift (get_choice st stage);
             mutate (assign (get_name st) choice);;
             mret (assigned_students ++ [get_name st]))
        [] students.

(** The removal of one trim: the pairs of its students are saved and
    erased, group by group. *)
Definition remove_trim (trim : list (list string))
    : M (list (string * string)) :=
  foldM (foldM (λ saved_pairs student,
                  v ← query (λ m, get_match m student);
                  mutate (erase student);;
                  option ← saved_option v;
                  mret (saved_pairs ++ [(student, option)])))
        [] trim.

(** [best_score is None or new_score > best_score]: a tuple compared
    with [None] raises [TypeError]. *)
Definition is_better (best_score new_score : option (list Z)) : result bool :=
  match best_score, new_score with
  | None, _ => Return true
  | Some best, Some new => Return (tuple_gt new best)
  | Some _, None => Raise TypeError
  end.

(** The body of the loop over the trims, with the recursive call to
    the next stage as [next_stage]. *)
Definition try_trim
    (next_stage : M (option (list (string * string)) * option (list Z)))
    (best : option (list (string * string)) * option (list Z))
    (trim : list (list string))
    : M (option (list (string * string)) * option (list Z)) :=
  saved_pairs ← remove_trim trim;
  locked_students ← lock_all_matched;
  new ← next_stage;
  unlock_many locked_students;;
  better ← lift (is_better best.2 new.2);
  let best := if better : bool then new else best in
  assign_pairs saved_pairs;;
  mret best.

(** The stages still to run, [remaining = n_choices + 1 - stage] of
    them; none left is the base case.  With no overfilled option the
    source builds the single empty trim with
    [it.repeat(tuple(), n=1)]; [repeat] takes [object] and [times]
    and rejects the keyword [n] with a [TypeError]. *)
Fixpoint stages (remaining stage : nat)
    : M (option (list (string * string)) * option (list Z)) :=
  match remaining with
  | 0 => assignment_algorithm_base_case
  | S remaining' =>
      assigned_students ← stage_entry stage;
      overfilled ← query (list_overfilled_options max_per_option);
      trim_iterables ←
        forM (λ option, query (make_trim_iterable option max_per_option))
             overfilled;
      trim_product ←
        (if bool_decide (0 < length trim_iterables)
         then mret (product trim_iterables)
         else raise TypeError);
      best ← foldM (try_trim (stages remaining' (S stage)))
                   (None, None) trim_product;
      erase_many assigned_students;;
      mret best
  end.

(** [recursive_assignment_algorithm(match, students, options, n_choices,
    min_per_option, max_per_option, stage)] *)
Definition recursive_assignment_algorithm (stage : nat)
    : M (option (list (string * string)) * option (list Z)) :=
  stages (S n_choices - stage) stage.

End engine.

(** The state in which [main] calls the engine: a fresh matching, a
    generator that will make the given draws, and empty histories. *)
Definition initial_world (m : Matching) (draws : list nat) : World :=
  {| w_match := m; w_random := draws; w_visited := []; w_scored := [] |}.

(** [min_per_option] and [max_per_option] as [main] computes them:
    [math.floor] and [math.ceil] of the float [n_students / n_options],
    which for the lengths of lists are the floor and the ceiling of the
    exact quotient. *)
Definition main_bounds (n_students n_options : nat) : Z * Z :=
  ((Z.of_nat n_students / Z.of_nat n_options)%Z,
   (- (- Z.of_nat n_students / Z.of_nat n_options))%Z).

(** [main()] from the point where the options and the students have
    been read.  The division raises [ZeroDivisionError] with no option,
    which is the result [None] here; [assign_pairs(None)] raises
    [TypeError].  The result is the matching that is printed and the
    score printed with it. *)
Definition main (students : list Student) (options : list string)
    (n_choices : nat) (draws : list nat)
    : option (result (Matching * option (list Z))) :=
  let n_options := length options in
  let n_students := length students in
  if bool_decide (n_options = 0) then None
  else
    let '(min_per_option, max_per_option) := main_bounds n_students n_options in
    Some (assert (bool_decide (min_per_option * Z.of_nat n_options
                               ≤ Z.of_nat n_students)%Z);;
          assert (bool_decide (Z.of_nat n_students
                               ≤ max_per_option * Z.of_nat n_options)%Z);;
          m ← Matching_init students options;
          let run : M (option (list Z)) :=
            best ← recursive_assignment_algorithm students options n_choices
                     min_per_option max_per_option 1;
            erase_all;;
            best_pairings ← match best.1 with
                            | Some pairs => mret pairs
                            | None => raise TypeError
                            end;
            assign_pairs best_pairings;;
            mret best.2 in
          let '(r, w) := run (initial_world m draws) in
          best_score ← r;
          Return (w_match w, best_score)).

End AssignStudentsNew.

(** ** Predicates the properties are stated with *)

Module Spec.

(** [by_student[s] == o] iff [s] is in [by_option[o]]. *)
Definition agree (bs : dict (option string)) (bo : dict (gset string)) : Prop :=
  ∀ s o, store bs !! s = Some (Some o) ↔
         ∃ members, store bo !! o = Some members ∧ s ∈ members.

(** No student is in the sets of two options. *)
Definition one_option_each (bo : dict (gset string)) : Prop :=
  ∀ s o1 o2 members1 members2,
    store bo !! o1 = Some members1 → s ∈ members1 →
    store bo !! o2 = Some members2 → s ∈ members2 → o1 = o2.

(** The invariant of the assignment state, for the two classes. *)
Definition old_invariant (m : AlgorithmUtilities.Matching) : Prop :=
  one_option_each (AlgorithmUtilities.by_option m) ∧
  agree (AlgorithmUtilities.by_student m) (AlgorithmUtilities.by_option m).

Definition new_invariant (m : AssignStudentsNew.Matching) : Prop :=
  one_option_each (AssignStudentsNew.by_option m) ∧
  agree (AssignStudentsNew.by_student m) (AssignStudentsNew.by_option m).

(** How often an option occurs in a list of options. *)
Definition occurrences (option : string) (l : list string) : nat :=
  length (filter (option =.) l).

(** The number of students an option holds, and how many it lacks to
    reach a threshold. *)
Definition occupancy (bo : dict (gset string)) (option : string) : nat :=
  match store bo !! option with
  | Some members => size members
  | None => 0
  end.

Definition deficit (threshold : Z) (bo : dict (gset string)) (option : string)
    : nat :=
  Z.to_nat (threshold - Z.of_nat (occupancy bo option)).

(** The list a loop over the options builds when it appends each
    option [g] of its occupancy times. *)
Definition repeated (bo : dict (gset string)) (g : nat → nat)
    (ks : list string) : list string :=
  ks ≫= λ o, replicate (g (occupancy bo o)) o.

(** The headroom [list_empty_spots] counts for an option that holds [n]
    students. *)
Definition headroom (low high : Z) (n : nat) : nat :=
  if bool_decide (low ≤ Z.of_nat n)%Z then Z.to_nat (high - Z.of_nat n) else 0.

(** The claim on the older script's [underfilled]: its result, read as
    a multiset, repeats each option by its deficit. *)
Definition old_underfilled_repeats_deficit : Prop :=
  ∀ (limit : Z) (m : AlgorithmUtilities.Matching) (option : string),
    dict_wf (AlgorithmUtilities.by_option m) →
    option ∈ keys (AlgorithmUtilities.by_option m) →
    occurrences option (elements (AlgorithmUtilities.underfilled limit m)) =
    deficit limit (AlgorithmUtilities.by_option m) option.

(** *** The reference score

    The score as the specification words it: a student matched to the
    choice of rank [i] counts in [happy_count], in [count_choice_i] and,
    when flagged, in [hp_count_choice_i]; any other student counts
    nowhere. *)

(** The rank, from 1, of the first pick that is the option. *)
Fixpoint position (o : string) (picks : list string) : option nat :=
  match picks with
  | [] => None
  | p :: picks' => if decide (p = o) then Some 1 else S <$> position o picks'
  end.

Section reference.
Import AssignStudentsNew.
Context (n_choices : nat) (assigned : string → option string).

Definition rank_of (st : Student) : option nat :=
  o ← assigned (name st); position o (choices st).

Definition happy_count (students : list Student) : nat :=
  length (filter (λ st, is_Some (rank_of st)) students).

Definition count_choice (students : list Student) (i : nat) : nat :=
  length (filter (λ st, rank_of st = Some i) students).

Definition hp_count_choice (students : list Student) (i : nat) : nat :=
  length (filter (λ st, rank_of st = Some i ∧ high_priority st = true)
                 students).

Definition reference_score (students : list Student) : list Z :=
  Z.of_nat (happy_count students)
  :: ((λ i, Z.of_nat (count_choice students i)) <$> seq 1 n_choices)
  ++ ((λ i, Z.of_nat (hp_count_choice students i)) <$> seq 1 n_choices).
End reference.

(** The dicts [choices] and [high_priority] the older script reads for
    the same students, row by row. *)
Definition choices_dict (students : list AssignStudentsNew.Student)
    : dict (list string) :=
  dict_of AssignStudentsNew.name AssignStudentsNew.choices students.

Definition high_priority_dict (students : list AssignStudentsNew.Student)
    : dict bool :=
  dict_of AssignStudentsNew.name AssignStudentsNew.high_priority students.

(** The claim on [score_assignment]: scoring raises as soon as one of
    the students is unassigned. *)
Definition new_scorer_rejects_incomplete : Prop :=
  ∀ (m : AssignStudentsNew.Matching)
    (students : list AssignStudentsNew.Student) (n_choices : nat),
    (∃ st, st ∈ students ∧
           store (AssignStudentsNew.by_student m) !! AssignStudentsNew.name st
             = Some None) →
    ∃ e, AssignStudentsNew.score_assignment m students n_choices = Raise e.

(** Every locked student is matched. *)
Definition locked_are_matched (m : AssignStudentsNew.Matching) : Prop :=
  ∀ s, store (AssignStudentsNew.student_locked m) !! s = Some true →
       ∃ o, store (AssignStudentsNew.by_student m) !! s = Some (Some o).

(** The dicts of [m'] have the keys of those of [m], the same options
    and students are stored, and [m'] is consistent if [m] is: what no
    method of the class changes. *)
Definition shape_kept (m m' : AssignStudentsNew.Matching) : Prop :=
  keys (AssignStudentsNew.by_student m') = keys (AssignStudentsNew.by_student m) ∧
  keys (AssignStudentsNew.by_option m') = keys (AssignStudentsNew.by_option m) ∧
  keys (AssignStudentsNew.student_locked m')
    = keys (AssignStudentsNew.student_locked m) ∧
  (∀ o, is_Some (store (AssignStudentsNew.by_option m') !! o) ↔
        is_Some (store (AssignStudentsNew.by_option m) !! o)) ∧
  (∀ s, is_Some (store (AssignStudentsNew.by_student m') !! s) ↔
        is_Some (store (AssignStudentsNew.by_student m) !! s)) ∧
  (agree (AssignStudentsNew.by_student m) (AssignStudentsNew.by_option m) →
   agree (AssignStudentsNew.by_student m') (AssignStudentsNew.by_option m')).

(** A pair list names every student once, in the order of the keys, and
    fills every option within the bounds. *)
Definition complete_and_feasible (student_names options : list string)
    (min_per_option max_per_option : Z) (pairs : list (string * string))
    : Prop :=
  pairs.*1 = student_names ∧
  ∀ o, o ∈ options →
       (min_per_option ≤ Z.of_nat (occurrences o pairs.*2) ≤ max_per_option)%Z.

(** What the search relies on when a stage is entered: the matching is
    consistent, its dicts are well formed, and no option holds more
    than the maximum (which is not below the minimum). *)
Definition within_maximum (min_per_option max_per_option : Z)
    (m : AssignStudentsNew.Matching) : Prop :=
  agree (AssignStudentsNew.by_student m) (AssignStudentsNew.by_option m) ∧
  dict_wf (AssignStudentsNew.by_student m) ∧
  dict_wf (AssignStudentsNew.by_option m) ∧
  ∀ o, o ∈ keys (AssignStudentsNew.by_option m) →
       (min_per_option ≤ max_per_option)%Z ∧
       (Z.of_nat (occupancy (AssignStudentsNew.by_option m) o)
        ≤ max_per_option)%Z.

(** The number of options that no choice list names. *)
Definition zero_vote_options (options : list string)
    (choices : dict (list string)) : nat :=
  length (filter (λ o, Forall (λ picks, o ∉ picks.2) (dict_items choices))
                 options).

(** *** What the search returns

    [added] are the results of the base cases a call ran, [r] is what
    the call returned: nothing when no base case ran, and else one of
    those results whose score no other exceeds. *)
Definition best_among (added : list (list (string * string) * list Z))
    (r : option (list (string * string)) * option (list Z)) : Prop :=
  match r.2 with
  | None => r.1 = None ∧ added = []
  | Some s =>
      ∃ p, r.1 = Some p ∧ (p, s) ∈ added ∧
           ∀ c, c ∈ added → tuple_ge s c.2 = true
  end.

(** *** Predicates on runs

    [c] keeps [J], whether it returns or raises. *)
Definition keeps {A : Type} (J : AssignStudentsNew.World → Prop)
    (c : AssignStudentsNew.M A) : Prop :=
  ∀ w, J w → J (c w).2.

(** [J] does not look at the generator. *)
Definition blind_to_random (J : AssignStudentsNew.World → Prop) : Prop :=
  ∀ w rs, J w → J {| AssignStudentsNew.w_match := AssignStudentsNew.w_match w;
                     AssignStudentsNew.w_random := rs;
                     AssignStudentsNew.w_visited := AssignStudentsNew.w_visited w;
                     AssignStudentsNew.w_scored := AssignStudentsNew.w_scored w |}.

(** The results scored so far. *)
Definition scored_is (sc : list (list (string * string) * list Z))
    (w : AssignStudentsNew.World) : Prop :=
  AssignStudentsNew.w_scored w = sc.

(** The matching and every state it went through keep locked students
    matched. *)
Definition locks_sound (w : AssignStudentsNew.World) : Prop :=
  locked_are_matched (AssignStudentsNew.w_match w) ∧
  Forall locked_are_matched (AssignStudentsNew.w_visited w).

(** The shape is kept along every run. *)
Definition shape_from (m0 : AssignStudentsNew.Matching)
    (w : AssignStudentsNew.World) : Prop :=
  shape_kept m0 (AssignStudentsNew.w_match w).

(** *** The score, student by student

    The counts of the ranks 1 to [K], as they lie in a score. *)
Definition counts (f : nat → nat) (K : nat) : list Z :=
  (λ i, Z.of_nat (f i)) <$> seq 1 K.

(** The three increments a student of rank [i] causes. *)
Definition bump (K : nat) (hp : bool) (i : nat) (score : list Z)
    : result (list Z) :=
  score ← list_incr 0 score;
  score ← list_incr i score;
  if hp then list_incr (K + i) score else Return score.

(** The score of the older scorer after the students [l] out of [N]:
    the first component counts down from [N]. *)
Definition old_score_after (sc : AlgorithmUtilities.ScoreCalculator)
    (assigned : string → option string) (N : nat)
    (l : list AssignStudentsNew.Student) : list Z :=
  (Z.of_nat N - Z.of_nat (length l)
   + Z.of_nat (happy_count assigned l))%Z
  :: counts (count_choice assigned l) (AlgorithmUtilities.sc_n_choices sc)
  ++ counts (hp_count_choice assigned l) (AlgorithmUtilities.sc_n_choices sc).

End Spec.

(** ** Small inputs the properties are run on *)

Module Examples.
Import AssignStudentsNew.

Definition ann : Student :=
  {| name := "ann"; high_priority := false; choices := ["X"] |}.
Definition bob : Student :=
  {| name := "bob"; high_priority := true; choices := ["X"] |}.
Definition cy : Student :=
  {| name := "cy"; high_priority := true; choices := ["Y"] |}.

(** The matching [Matching([ann, bob], ["X", "Y"])]. *)
Definition fresh_match : Matching :=
  {| by_student := dict_of name (λ _, None) [ann; bob];
     by_option := dict_of id (λ _, ∅) ["X"; "Y"];
     student_locked := dict_of id (λ _, false) ["ann"; "bob"] |}.

(** [fresh_match] after [assign("ann", "X")] and [assign("bob", "X")]. *)
Definition crowded_match : Matching :=
  {| by_student := dict_of name (λ _, Some "X") [ann; bob];
     by_option := dict_of id (λ o, if decide (o = "X")
                                   then {[ "ann"; "bob" ]} else ∅) ["X"; "Y"];
     student_locked := dict_of id (λ _, false) ["ann"; "bob"] |}.

(** [fresh_match] after [assign("ann", "X")] alone. *)
Definition half_match : Matching :=
  {| by_student := dict_of name (λ st, if decide (name st = "ann")
                                       then Some "X" else None) [ann; bob];
     by_option := dict_of id (λ o, if decide (o = "X")
                                   then {[ "ann" ]} else ∅) ["X"; "Y"];
     student_locked := dict_of id (λ _, false) ["ann"; "bob"] |}.

(** The older script's matching of the same students and options, and
    that matching after [add_pair("ann", "X")] and
    [add_pair("bob", "X")]. *)
Definition old_fresh_match : AlgorithmUtilities.Matching :=
  AlgorithmUtilities.Matching_init ["X"; "Y"] ["ann"; "bob"].

Definition old_crowded_match : AlgorithmUtilities.Matching :=
  {| AlgorithmUtilities.by_option :=
       dict_of id (λ o, if decide (o = "X")
                        then {[ "ann"; "bob" ]} else ∅) ["X"; "Y"];
     AlgorithmUtilities.by_student :=
       dict_of id (λ _, Some "X") ["ann"; "bob"] |}.

(** The [ScoreCalculator] of ann and bob. *)
Definition ann_bob_scorer : AlgorithmUtilities.ScoreCalculator :=
  {| AlgorithmUtilities.sc_n_choices := 1;
     AlgorithmUtilities.sc_choices := Spec.choices_dict [ann; bob];
     AlgorithmUtilities.sc_high_priority := Spec.high_priority_dict [ann; bob] |}.

(** [half_match] after [lock("ann")]. *)
Definition locked_match : Matching :=
  {| by_student := by_student half_match;
     by_option := by_option half_match;
     student_locked := dict_of id (λ s, bool_decide (s = "ann")) ["ann"; "bob"] |}.

(** [fresh_match] after [assign("ann", "Y")] and [assign("bob", "X")]. *)
Definition settled_match : Matching :=
  {| by_student := dict_of name (λ st, if decide (name st = "ann")
                                       then Some "Y" else Some "X") [ann; bob];
     by_option := dict_of id (λ o, if decide (o = "X")
                                   then {[ "bob" ]} else {[ "ann" ]}) ["X"; "Y"];
     student_locked := dict_of id (λ _, false) ["ann"; "bob"] |}.

(** [old_fresh_match] after [add_pair("ann", "X")]. *)
Definition old_half_match : AlgorithmUtilities.Matching :=
  {| AlgorithmUtilities.by_option :=
       dict_of id (λ o, if decide (o = "X") then {[ "ann" ]} else ∅) ["X"; "Y"];
     AlgorithmUtilities.by_student :=
       dict_of id (λ s, if decide (s = "ann") then Some "X" else None)
               ["ann"; "bob"] |}.

End Examples.

(** * Properties *)

Import Spec.
Open Scope nat_scope.
#[local] Set Warnings "-clear-no-such-hyp".

(** ** Dictionaries *)

Section dict_facts.
Context {V : Type}.
Implicit Types (d : dict V) (k : string) (v : V).

Lemma dict_get_Return k d v :
  dict_get k d = Return v ↔ store d !! k = Some v.
Proof.
  unfold dict_get. destruct (store d !! k); split; intros; simplify_eq; done.
Qed.

Lemma dict_has_true k d : dict_has k d = true ↔ is_Some (store d !! k).
Proof. unfold dict_has. by rewrite bool_decide_eq_true. Qed.

Lemma dict_set_present k v d :
  is_Some (store d !! k) →
  dict_set k v d = Dict (keys d) (<[k := v]> (store d)).
Proof.
  intros H. unfold dict_set. by rewrite (proj2 (dict_has_true k d) H).
Qed.

Lemma keys_dict_set_present k v d :
  is_Some (store d !! k) → keys (dict_set k v d) = keys d.
Proof. intros H. by rewrite dict_set_present. Qed.

Lemma store_dict_set k v d : store (dict_set k v d) = <[k := v]> (store d).
Proof. done. Qed.

Lemma dict_set_id k v d : store d !! k = Some v → dict_set k v d = d.
Proof.
  intros H. rewrite dict_set_present by eauto.
  rewrite insert_id by done. by destruct d.
Qed.

Lemma dict_set_set k v v' d :
  dict_set k v (dict_set k v' d) = dict_set k v d.
Proof.
  unfold dict_set at 1. rewrite (proj2 (dict_has_true k (dict_set k v' d))).
  2:{ rewrite store_dict_set, lookup_insert_eq. eauto. }
  unfold dict_set. cbn [keys store]. by rewrite insert_insert_eq.
Qed.

Lemma dict_wf_empty : dict_wf (@dict_empty V).
Proof.
  split; [constructor|]. intros k. cbn. rewrite lookup_empty.
  split; [by intros ?%elem_of_nil | by intros [? ?]].
Qed.

Lemma dict_wf_set k v d : dict_wf d → dict_wf (dict_set k v d).
Proof.
  intros [Hnd Hk]. unfold dict_set, dict_wf.
  destruct (dict_has k d) eqn:E; cbn [keys store].
  - apply dict_has_true in E. split; [done|]. intros k'.
    rewrite Hk. destruct (decide (k = k')) as [->|Hne].
    + rewrite lookup_insert_eq. split; eauto.
    + by rewrite lookup_insert_ne.
  - assert (¬ is_Some (store d !! k)) as Hn.
    { intros H%dict_has_true. congruence. }
    split.
    + apply NoDup_app. split; [done|]. split; [|apply NoDup_singleton].
      intros x Hx ->%list_elem_of_singleton. apply Hn, Hk, Hx.
    + intros k'. rewrite elem_of_app, list_elem_of_singleton, Hk.
      destruct (decide (k = k')) as [->|Hne].
      * rewrite lookup_insert_eq. split; eauto.
      * rewrite lookup_insert_ne by done. split; [intros [?|?]; [done|congruence]|].
        intros H. by left.
Qed.

Lemma dict_wf_fold_set {A : Type} (f : A → string) (g : A → V) (l : list A) d :
  dict_wf d → dict_wf (fold_left (λ d x, dict_set (f x) (g x) d) l d).
Proof.
  revert d. induction l as [|x l IH]; intros d Hd; cbn; [done|].
  apply IH, dict_wf_set, Hd.
Qed.

Lemma dict_wf_from_keys (ks : list string) v : dict_wf (dict_from_keys ks v).
Proof.
  unfold dict_from_keys.
  apply (dict_wf_fold_set (λ k, k) (λ _, v)), dict_wf_empty.
Qed.

(** Every value a dict built by [d[f x] = v for x in l] holds is [v],
    as long as those of the start are. *)
Lemma store_fold_set_const {A : Type} (f : A → string) v (l : list A) d k v' :
  (∀ k v', store d !! k = Some v' → v' = v) →
  store (fold_left (λ d x, dict_set (f x) v d) l d) !! k = Some v' → v' = v.
Proof.
  revert d. induction l as [|x l IH]; intros d Hd; cbn; [apply Hd|].
  apply IH. intros k0 v0. rewrite store_dict_set.
  destruct (decide (f x = k0)) as [->|Hne].
  - rewrite lookup_insert_eq. congruence.
  - rewrite lookup_insert_ne by done. apply Hd.
Qed.

Lemma keys_fold_set_const {A : Type} (f : A → string) v (l : list A) d k :
  dict_wf d →
  k ∈ keys (fold_left (λ d x, dict_set (f x) v d) l d) ↔
  k ∈ keys d ∨ k ∈ f <$> l.
Proof.
  revert d. induction l as [|x l IH]; intros d Hd; csimpl.
  - rewrite elem_of_nil. tauto.
  - rewrite IH, elem_of_cons by apply dict_wf_set, Hd. unfold dict_set.
    destruct (dict_has (f x) d) eqn:E; cbn [keys].
    + apply dict_has_true, Hd in E. split; [tauto|].
      intros [?|[->|?]]; tauto.
    + rewrite elem_of_app, list_elem_of_singleton. tauto.
Qed.
End dict_facts.

(** ** The invariant of the assignment state *)

Section invariant.
Implicit Types (bs : dict (option string)) (bo : dict (gset string)).

Lemma agree_one_option bs bo : agree bs bo → one_option_each bo.
Proof.
  intros H s o1 o2 S1 S2 H1 Hs1 H2 Hs2.
  assert (store bs !! s = Some (Some o1)) as E1 by (apply H; eauto).
  assert (store bs !! s = Some (Some o2)) as E2 by (apply H; eauto).
  congruence.
Qed.

Lemma agree_add bs bo s o members :
  agree bs bo →
  store bs !! s = Some None →
  store bo !! o = Some members →
  agree (dict_set s (Some o) bs) (dict_set o (members ∪ {[s]}) bo).
Proof.
  intros H Hs Ho s' o'. unfold agree in H. rewrite !store_dict_set.
  destruct (decide (s' = s)) as [->|Hns].
  - rewrite lookup_insert_eq. destruct (decide (o' = o)) as [->|Hno].
    + rewrite lookup_insert_eq. split; [|done].
      intros _. eexists. split; [done|]. set_solver.
    + rewrite lookup_insert_ne by done. split; [congruence|].
      intros Hm. apply H in Hm. congruence.
  - rewrite lookup_insert_ne by done. rewrite H.
    destruct (decide (o' = o)) as [->|Hno].
    + rewrite lookup_insert_eq. split.
      * intros (S' & HS' & Hin). simplify_eq. eexists. split; [done|]. set_solver.
      * intros (S' & HS' & Hin). simplify_eq. eexists. split; [done|]. set_solver.
    + by rewrite lookup_insert_ne.
Qed.

Lemma agree_remove bs bo s o members :
  agree bs bo →
  store bs !! s = Some (Some o) →
  store bo !! o = Some members →
  agree (dict_set s None bs) (dict_set o (members ∖ {[s]}) bo).
Proof.
  intros H Hs Ho s' o'. unfold agree in H. rewrite !store_dict_set.
  destruct (decide (s' = s)) as [->|Hns].
  - rewrite lookup_insert_eq. split; [done|].
    intros (S' & HS' & Hin). destruct (decide (o' = o)) as [->|Hno].
    + rewrite lookup_insert_eq in HS'. simplify_eq. set_solver.
    + rewrite lookup_insert_ne in HS' by done.
      assert (store bs !! s = Some (Some o')) by (apply H; eauto). congruence.
  - rewrite lookup_insert_ne by done. rewrite H.
    destruct (decide (o' = o)) as [->|Hno].
    + rewrite lookup_insert_eq. split.
      * intros (S' & HS' & Hin). simplify_eq. eexists. split; [done|]. set_solver.
      * intros (S' & HS' & Hin). simplify_eq. eexists. split; [done|]. set_solver.
    + by rewrite lookup_insert_ne.
Qed.
End invariant.

(** Inversion of a bind in the monad of results. *)
Lemma bind_Return {A B : Type} (r : result A) (f : A → result B) (b : B) :
  r ≫= f = Return b ↔ ∃ a, r = Return a ∧ f a = Return b.
Proof.
  destruct r as [a|e]; cbn; split.
  - eauto.
  - by intros (a' & [= ->] & ?).
  - done.
  - by intros (a' & ? & ?).
Qed.

Lemma assert_Return (b : bool) (u : unit) : assert b = Return u ↔ b = true.
Proof. destruct b, u; cbn; split; congruence. Qed.

(** Decompose a hypothesis that says a sequence of binds returned. *)
Ltac inv_result H :=
  repeat match type of H with
  | _ ≫= _ = Return _ =>
      let a := fresh "a" in let Ha := fresh "Ha" in
      apply bind_Return in H as (a & Ha & H)
  | (let '(_, _) := ?p in _) = Return _ => destruct p
  | (if ?b then _ else _) = Return _ =>
      let E := fresh "E" in destruct b eqn:E; [|try discriminate H]
  | Return _ = Return _ => injection H as H
  | Raise _ = Return _ => discriminate H
  end.

Import AssignStudentsNew.

Lemma is_matched_Return m s b :
  is_matched m s = Return b ↔
  ∃ v, store (by_student m) !! s = Some v ∧ b = bool_decide (v ≠ None).
Proof.
  unfold is_matched. rewrite bind_Return. setoid_rewrite dict_get_Return.
  split; intros (v & Hv & E); exists v; split; try done; congruence.
Qed.

Lemma is_locked_Return m s b :
  is_locked m s = Return b ↔ store (student_locked m) !! s = Some b.
Proof. apply dict_get_Return. Qed.

(** What a successful [assign] read and wrote. *)
Lemma assign_Return s o m m' :
  assign s o m = Return m' ↔
  ∃ members,
    store (by_student m) !! s = Some None ∧
    store (student_locked m) !! s = Some false ∧
    store (by_option m) !! o = Some members ∧
    m' = {| by_student := dict_set s (Some o) (by_student m);
            by_option := dict_set o (members ∪ {[s]}) (by_option m);
            student_locked := student_locked m |}.
Proof.
  unfold assign. split.
  - intros H. inv_result H.
    apply is_matched_Return in Ha as (v & Hv & ->).
    apply assert_Return, negb_true_iff, bool_decide_eq_false in Ha0.
    apply is_locked_Return in Ha1.
    apply assert_Return, negb_true_iff in Ha2. subst.
    apply dict_get_Return in Ha3.
    exists a3. destruct v as [o'|]; [by destruct Ha0|]. done.
  - intros (members & Hs & Hl & Ho & ->).
    unfold is_matched, is_locked, dict_get. rewrite Hs, Hl, Ho. done.
Qed.

(** What a successful [erase] read and wrote. *)
Lemma erase_Return s m m' :
  erase s m = Return m' ↔
  ∃ o members,
    store (by_student m) !! s = Some (Some o) ∧
    store (student_locked m) !! s = Some false ∧
    store (by_option m) !! o = Some members ∧ s ∈ members ∧
    m' = {| by_student := dict_set s None (by_student m);
            by_option := dict_set o (members ∖ {[s]}) (by_option m);
            student_locked := student_locked m |}.
Proof.
  unfold erase. split.
  - intros H. inv_result H.
    apply is_matched_Return in Ha as (v & Hv & ->).
    apply assert_Return in Ha0.
    apply is_locked_Return in Ha1.
    apply assert_Return, negb_true_iff in Ha2. subst.
    apply dict_get_Return in Ha3.
    destruct a3 as [o|]; [|done]. inv_result H.
    apply dict_get_Return in Ha. apply bool_decide_eq_true in E.
    exists o, a. simplify_eq. done.
  - intros (o & members & Hs & Hl & Ho & Hin & ->).
    unfold is_matched, is_locked, dict_get. rewrite Hs, Hl. cbn.
    rewrite Ho. cbn. by rewrite bool_decide_eq_true_2.
Qed.

Lemma lock_Return s m m' :
  lock s m = Return m' ↔
  store (student_locked m) !! s = Some false ∧
  m' = {| by_student := by_student m; by_option := by_option m;
          student_locked := dict_set s true (student_locked m) |}.
Proof.
  unfold lock, is_locked, dict_get.
  destruct (store (student_locked m) !! s) as [[]|]; cbn;
    (split; intros H; [by simplify_eq | by destruct H as [? ->]; simplify_eq]).
Qed.

Lemma unlock_Return s m m' :
  unlock s m = Return m' ↔
  store (student_locked m) !! s = Some true ∧
  m' = {| by_student := by_student m; by_option := by_option m;
          student_locked := dict_set s false (student_locked m) |}.
Proof.
  unfold unlock, is_locked, dict_get.
  destruct (store (student_locked m) !! s) as [[]|]; cbn;
    (split; intros H; [by simplify_eq | by destruct H as [? ->]; simplify_eq]).
Qed.

Lemma new_invariant_assign s o m m' :
  new_invariant m → assign s o m = Return m' → new_invariant m'.
Proof.
  intros [_ H] (members & Hs & _ & Ho & ->)%assign_Return.
  assert (agree (dict_set s (Some o) (by_student m))
                (dict_set o (members ∪ {[s]}) (by_option m))) as H'
    by by apply agree_add.
  split; [by eapply agree_one_option|done].
Qed.

Lemma new_invariant_erase s m m' :
  new_invariant m → erase s m = Return m' → new_invariant m'.
Proof.
  intros [_ H] (o & members & Hs & _ & Ho & _ & ->)%erase_Return.
  assert (agree (dict_set s None (by_student m))
                (dict_set o (members ∖ {[s]}) (by_option m))) as H'
    by by apply agree_remove.
  split; [by eapply agree_one_option|done].
Qed.

Module AU := AlgorithmUtilities.

Lemma orient_Return m u v option student :
  AU.orient m u v = Return (option, student) →
  is_Some (store (AU.by_option m) !! option) ∧
  is_Some (store (AU.by_student m) !! student) ∧
  ((option = u ∧ student = v) ∨ (option = v ∧ student = u)).
Proof.
  unfold AU.orient. intros H.
  destruct (dict_has u (AU.by_option m) && dict_has v (AU.by_student m)) eqn:E1.
  - simplify_eq. apply andb_true_iff in E1 as [?%dict_has_true ?%dict_has_true].
    auto.
  - destruct (dict_has v (AU.by_option m) && dict_has u (AU.by_student m)) eqn:E2;
      [|done].
    simplify_eq. apply andb_true_iff in E2 as [?%dict_has_true ?%dict_has_true].
    auto.
Qed.

(** What a successful [add_pair] read and wrote. *)
Lemma add_pair_Return u v m m' :
  AU.add_pair u v m = Return m' →
  ∃ option student members,
    ((option = u ∧ student = v) ∨ (option = v ∧ student = u)) ∧
    store (AU.by_student m) !! student = Some None ∧
    store (AU.by_option m) !! option = Some members ∧
    m' = {| AU.by_option := dict_set option (members ∪ {[student]}) (AU.by_option m);
            AU.by_student := dict_set student (Some option) (AU.by_student m) |}.
Proof.
  unfold AU.add_pair. intros H.
  apply bind_Return in H as ([option student] & Ho & H).
  apply orient_Return in Ho as (_ & _ & Hor).
  apply bind_Return in H as (cur & Hc%dict_get_Return & H).
  destruct cur; [done|].
  apply bind_Return in H as (members & Hm%dict_get_Return & [= <-]).
  by exists option, student, members.
Qed.

(** What a successful [delete_pair] read and wrote. *)
Lemma delete_pair_Return u v m m' :
  AU.delete_pair u v m = Return m' →
  ∃ option student members,
    ((option = u ∧ student = v) ∨ (option = v ∧ student = u)) ∧
    store (AU.by_student m) !! student = Some (Some option) ∧
    store (AU.by_option m) !! option = Some members ∧ student ∈ members ∧
    m' = {| AU.by_option := dict_set option (members ∖ {[student]}) (AU.by_option m);
            AU.by_student := dict_set student None (AU.by_student m) |}.
Proof.
  unfold AU.delete_pair. intros H.
  apply bind_Return in H as ([option student] & Ho & H).
  apply orient_Return in Ho as (_ & _ & Hor).
  apply bind_Return in H as (cur & Hc%dict_get_Return & H).
  destruct (bool_decide (cur = Some option)) eqn:E; [|done].
  apply bool_decide_eq_true in E as ->.
  apply bind_Return in H as (members & Hm%dict_get_Return & H).
  destruct (bool_decide (student ∈ members)) eqn:E; [|done].
  apply bool_decide_eq_true in E. injection H as <-.
  by exists option, student, members.
Qed.

(** C4.  The four operations that change who is matched with what keep
    the invariant of the assignment state: no student is in the sets of
    two options, and [by_student[s] == o] exactly when [s] is in
    [by_option[o]].  This holds for [assign] and [erase] of the newer
    script and for [add_pair] and [delete_pair] of the older one,
    whenever the operation returns without raising. *)
Theorem matching_operations_preserve_invariant :
  (∀ s o m m', new_invariant m → assign s o m = Return m' → new_invariant m') ∧
  (∀ s m m', new_invariant m → erase s m = Return m' → new_invariant m') ∧
  (∀ u v m m', old_invariant m → AU.add_pair u v m = Return m' → old_invariant m') ∧
  (∀ u v m m', old_invariant m → AU.delete_pair u v m = Return m' → old_invariant m').
Proof.
  split; [exact new_invariant_assign|].
  split; [exact new_invariant_erase|].
  split.
  - intros u v m m' [_ H] (o & s & members & _ & Hs & Ho & ->)%add_pair_Return.
    assert (agree (dict_set s (Some o) (AU.by_student m))
                  (dict_set o (members ∪ {[s]}) (AU.by_option m))) as H'
      by by apply agree_add.
    split; [by eapply agree_one_option|done].
  - intros u v m m' [_ H]
      (o & s & members & _ & Hs & Ho & _ & ->)%delete_pair_Return.
    assert (agree (dict_set s None (AU.by_student m))
                  (dict_set o (members ∖ {[s]}) (AU.by_option m))) as H'
      by by apply agree_remove.
    split; [by eapply agree_one_option|done].
Qed.

(** ** The underfilled options *)

Section repeated.
Context (bo : dict (gset string)) (g : nat → nat).

Lemma repeated_cons k ks :
  repeated bo g (k :: ks) =
  replicate (g (occupancy bo k)) k ++ repeated bo g ks.
Proof. done. Qed.

Lemma occurrences_app o (l1 l2 : list string) :
  occurrences o (l1 ++ l2) = occurrences o l1 + occurrences o l2.
Proof. unfold occurrences. by rewrite filter_app, length_app. Qed.

Lemma occurrences_replicate o o' n :
  occurrences o (replicate n o') = if decide (o = o') then n else 0.
Proof.
  unfold occurrences. induction n as [|n IH].
  - by destruct (decide _).
  - change (replicate (S n) o') with (o' :: replicate n o').
    rewrite filter_cons. destruct (decide (o = o')); cbn; by rewrite IH.
Qed.

Lemma occurrences_repeated_notin o ks :
  o ∉ ks → occurrences o (repeated bo g ks) = 0.
Proof.
  induction ks as [|k ks IH]; intros Hn; [done|].
  apply not_elem_of_cons in Hn as [Hne Hn].
  rewrite repeated_cons, occurrences_app, occurrences_replicate.
  rewrite decide_False by done. by apply IH.
Qed.

Lemma occurrences_repeated o ks :
  NoDup ks → o ∈ ks → occurrences o (repeated bo g ks) = g (occupancy bo o).
Proof.
  induction 1 as [|k ks Hk Hnd IH]; intros Hin; [by apply elem_of_nil in Hin|].
  rewrite repeated_cons, occurrences_app, occurrences_replicate.
  apply elem_of_cons in Hin as [->|Hin].
  - rewrite decide_True by done.
    rewrite occurrences_repeated_notin by done. lia.
  - rewrite decide_False by (intros ->; done).
    by apply IH.
Qed.

Lemma elem_of_repeated o ks : o ∈ repeated bo g ks → o ∈ ks.
Proof.
  unfold repeated. intros (k & Hk & Hin)%list_elem_of_bind.
  by apply elem_of_replicate in Hk as [-> _].
Qed.

(** A loop over keys of the dict that appends each option [g] of its
    occupancy times returns the repeated list. *)
Lemma foldM_repeated (h : list string → nat → string → list string) acc ks :
  (∀ acc n o, h acc n o = acc ++ replicate (g n) o) →
  (∀ k, k ∈ ks → is_Some (store bo !! k)) →
  foldM (λ acc option,
           members ← dict_get option bo;
           Return (h acc (size members) option)) acc ks
  = Return (acc ++ repeated bo g ks).
Proof.
  intros Hh. revert acc. induction ks as [|k ks IH]; intros acc Hks.
  - cbn. by rewrite app_nil_r.
  - destruct (Hks k) as [members Hm]; [by left|].
    rewrite repeated_cons. cbn [foldM].
    rewrite (proj2 (dict_get_Return k bo members) Hm). cbn [mbind result_bind].
    rewrite IH by (intros; apply Hks; by right).
    f_equal. unfold occupancy. rewrite Hm, Hh. by rewrite app_assoc.
Qed.
End repeated.

Lemma list_underfilled_options_Return threshold m :
  dict_wf (by_option m) →
  list_underfilled_options threshold m =
  Return (repeated (by_option m) (λ n, Z.to_nat (threshold - Z.of_nat n))
                   (keys (by_option m))).
Proof.
  intros [_ Hk]. unfold list_underfilled_options.
  pose (h := λ (acc : list string) (n : nat) (o : string),
              if bool_decide (Z.of_nat n < threshold)%Z
              then acc ++ replicate (Z.to_nat (threshold - Z.of_nat n)) o
              else acc).
  apply (foldM_repeated (by_option m) (λ n, Z.to_nat (threshold - Z.of_nat n))
                        h []).
  - intros acc n o. unfold h. case_bool_decide; [done|].
    replace (Z.to_nat (threshold - Z.of_nat n)) with 0 by lia.
    by rewrite app_nil_r.
  - intros k. apply Hk.
Qed.

Lemma list_empty_spots_Return low high m :
  dict_wf (by_option m) →
  list_empty_spots low high m =
  Return (repeated (by_option m) (headroom low high) (keys (by_option m))).
Proof.
  intros [_ Hk]. unfold list_empty_spots.
  pose (h := λ (acc : list string) (n : nat) (o : string),
              if bool_decide (low ≤ Z.of_nat n)%Z
                 && bool_decide (Z.of_nat n < high)%Z
              then acc ++ replicate (Z.to_nat (high - Z.of_nat n)) o
              else acc).
  apply (foldM_repeated (by_option m) (headroom low high) h []).
  - intros acc n o. unfold h, headroom.
    repeat case_bool_decide; cbn; try done.
    + replace (Z.to_nat (high - Z.of_nat n)) with 0 by lia.
      by rewrite app_nil_r.
    + by rewrite app_nil_r.
    + by rewrite app_nil_r.
  - intros k. apply Hk.
Qed.

Lemma elem_of_dict_items {V : Type} (d : dict V) k v :
  (k, v) ∈ dict_items d ↔ k ∈ keys d ∧ store d !! k = Some v.
Proof.
  unfold dict_items. rewrite list_elem_of_omap. split.
  - intros (k' & Hk' & E). destruct (store d !! k') eqn:E'; cbn in E; [|done].
    by simplify_eq.
  - intros [Hk Hv]. exists k. by rewrite Hv.
Qed.

Lemma elem_of_old_underfilled limit m o :
  dict_wf (AU.by_option m) →
  o ∈ AU.underfilled limit m ↔
  o ∈ keys (AU.by_option m) ∧
  (Z.of_nat (occupancy (AU.by_option m) o) < limit)%Z.
Proof.
  intros [_ Hk]. unfold AU.underfilled, occupancy.
  rewrite elem_of_list_to_set, list_elem_of_fmap. split.
  - intros ([k members] & -> & [Hlt [Hin Hs]%elem_of_dict_items]%list_elem_of_filter).
    cbn in *. by rewrite Hs.
  - intros [Hin Hlt]. destruct (proj1 (Hk o) Hin) as [members Hs].
    rewrite Hs in Hlt. exists (o, members). split; [done|].
    apply list_elem_of_filter. split; [done|]. by apply elem_of_dict_items.
Qed.

Lemma occurrences_NoDup o (l : list string) :
  NoDup l → occurrences o l = if decide (o ∈ l) then 1 else 0.
Proof.
  unfold occurrences. induction 1 as [|x l Hx Hnd IH]; [done|].
  rewrite filter_cons. destruct (decide (o = x)) as [->|Hne].
  - cbn. rewrite IH. rewrite decide_False by done.
    rewrite decide_True by apply list_elem_of_here. done.
  - rewrite IH. destruct (decide (o ∈ l)).
    + rewrite decide_True by (by apply list_elem_of_further). done.
    + rewrite decide_False; [done|]. intros [?|?]%elem_of_cons; done.
Qed.

(** C7, against the claim as it stands: on one empty option and the
    limit 2 the older script's [underfilled] holds the option once, not
    twice. *)
Lemma old_underfilled_is_a_set : ¬ old_underfilled_repeats_deficit.
Proof.
  intros H.
  specialize (H 2%Z (AU.Matching_init ["X"] []) "X" (dict_wf_from_keys _ _)).
  assert ("X" ∈ keys (AU.by_option (AU.Matching_init ["X"] []))) as Hin
    by (vm_compute; apply list_elem_of_here).
  specialize (H Hin). vm_compute in H. discriminate H.
Qed.

(** C7, amended.  [list_underfilled_options] of the newer script returns,
    for every threshold, a list in which each option occurs as often as
    it lacks students to reach the threshold (so not at all when it has
    reached it) and nothing else occurs.  [underfilled] of the older
    script returns a set: each option below the limit is in it once,
    whatever it lacks, and no other option is; that is the deficit for
    limits up to 1, among them the default 1. *)
Theorem underfilled_options_by_deficit :
  (∀ threshold m,
     dict_wf (by_option m) →
     ∃ l, list_underfilled_options threshold m = Return l ∧
          (∀ o, o ∈ keys (by_option m) →
                occurrences o l = deficit threshold (by_option m) o) ∧
          (∀ o, o ∈ l → o ∈ keys (by_option m))) ∧
  (∀ limit m o,
     dict_wf (AU.by_option m) →
     o ∈ keys (AU.by_option m) →
     occurrences o (elements (AU.underfilled limit m)) =
       (if bool_decide (Z.of_nat (occupancy (AU.by_option m) o) < limit)%Z
        then 1 else 0) ∧
     ((limit ≤ 1)%Z →
      occurrences o (elements (AU.underfilled limit m)) =
        deficit limit (AU.by_option m) o)) ∧
  (∀ limit m o, o ∈ AU.underfilled limit m → o ∈ keys (AU.by_option m)).
Proof.
  split; [|split].
  - intros threshold m Hwf. eexists. split; [by apply list_underfilled_options_Return|].
    split.
    + intros o Ho. by rewrite occurrences_repeated by (done || apply Hwf).
    + intros o. apply elem_of_repeated.
  - intros limit m o Hwf Ho.
    assert (occurrences o (elements (AU.underfilled limit m)) =
            if bool_decide (Z.of_nat (occupancy (AU.by_option m) o) < limit)%Z
            then 1 else 0) as E.
    { rewrite occurrences_NoDup by apply NoDup_elements.
      case_bool_decide as Hlt.
      - rewrite decide_True; [done|].
        apply elem_of_elements, elem_of_old_underfilled; done.
      - rewrite decide_False; [done|].
        intros [_ ?]%elem_of_elements%elem_of_old_underfilled; done. }
    split; [done|]. intros Hle. rewrite E. unfold deficit.
    case_bool_decide; lia.
  - intros limit m o. unfold AU.underfilled.
    rewrite elem_of_list_to_set, list_elem_of_fmap.
    intros ([k members] & -> & [_ [Hin _]%elem_of_dict_items]%list_elem_of_filter).
    done.
Qed.

(** ** The two scorers *)

Lemma foldM_app {A B : Type} (f : B → A → result B) acc (l1 l2 : list A) :
  foldM f acc (l1 ++ l2) = foldM f acc l1 ≫= λ acc', foldM f acc' l2.
Proof.
  revert acc. induction l1 as [|x l1 IH]; intros acc; [done|].
  cbn. destruct (f acc x); cbn; [apply IH|done].
Qed.

Lemma list_incr_0 h t : list_incr 0 (h :: t) = Return ((h + 1)%Z :: t).
Proof. done. Qed.

Lemma list_incr_S i h t :
  list_incr (S i) (h :: t) = t' ← list_incr i t; Return (h :: t').
Proof. unfold list_incr. cbn. by destruct (t !! i). Qed.

Lemma list_incr_app_l i l1 l2 :
  i < length l1 →
  list_incr i (l1 ++ l2) = l1' ← list_incr i l1; Return (l1' ++ l2).
Proof.
  intros Hi. unfold list_incr. rewrite lookup_app_l by done.
  destruct (lookup_lt_is_Some_2 l1 i Hi) as [x Hx]. rewrite Hx. cbn.
  by rewrite insert_app_l.
Qed.

Lemma list_incr_app_r i l1 l2 :
  list_incr (length l1 + i) (l1 ++ l2) = l2' ← list_incr i l2; Return (l1 ++ l2').
Proof.
  unfold list_incr. rewrite lookup_app_r by lia.
  replace (length l1 + i - length l1) with i by lia.
  destruct (l2 !! i); cbn; [|done]. by rewrite insert_app_r.
Qed.

Lemma length_counts f K : length (counts f K) = K.
Proof. unfold counts. by rewrite length_fmap, length_seq. Qed.

Lemma counts_ext f f' (K : nat) :
  (∀ i : nat, 1 ≤ i ≤ K → f' i = f i) → counts f' K = counts f K.
Proof.
  intros H. unfold counts. apply list_eq. intros j.
  rewrite !list_lookup_fmap. destruct (seq 1 K !! j) as [i|] eqn:E; [|done].
  apply lookup_seq in E as [-> ?]. cbn. rewrite H by lia. done.
Qed.

Lemma list_incr_counts f f' (K i0 : nat) :
  1 ≤ i0 ≤ K →
  (∀ i, f' i = if decide (i = i0) then S (f i) else f i) →
  list_incr (i0 - 1) (counts f K) = Return (counts f' K).
Proof.
  intros Hi Hf. unfold list_incr, counts.
  rewrite list_lookup_fmap, lookup_seq_lt by lia. cbn. f_equal.
  apply list_eq. intros j.
  destruct (decide (j = i0 - 1)) as [->|Hne].
  - rewrite list_lookup_insert_eq by (rewrite length_fmap, length_seq; lia).
    rewrite list_lookup_fmap, lookup_seq_lt by lia. cbn.
    rewrite Hf, decide_True by lia.
    replace (1 + (i0 - 1)) with i0 by lia. f_equal. lia.
  - rewrite list_lookup_insert_ne by done.
    rewrite !list_lookup_fmap. destruct (seq 1 K !! j) as [i|] eqn:E; [|done].
    apply lookup_seq in E as [-> ?]. cbn. rewrite Hf, decide_False by lia. done.
Qed.

Section scoring.
Context (K : nat) (assigned : string → option string).

Lemma reference_score_eq students :
  reference_score K assigned students =
  Z.of_nat (happy_count assigned students)
  :: counts (count_choice assigned students) K
  ++ counts (hp_count_choice assigned students) K.
Proof. done. Qed.

Lemma happy_count_snoc students st :
  happy_count assigned (students ++ [st]) =
  happy_count assigned students + (match rank_of assigned st with Some _ => 1 | None => 0 end).
Proof.
  unfold happy_count. rewrite filter_app, length_app. f_equal.
  rewrite filter_cons, filter_nil. destruct (rank_of assigned st); cbn.
  - rewrite decide_True by eauto. done.
  - rewrite decide_False by (by intros [? ?]). done.
Qed.

Lemma count_choice_snoc students st i :
  count_choice assigned (students ++ [st]) i =
  count_choice assigned students i
  + (if decide (rank_of assigned st = Some i) then 1 else 0).
Proof.
  unfold count_choice. rewrite filter_app, length_app. f_equal.
  rewrite filter_cons, filter_nil. by destruct (decide _).
Qed.

Lemma hp_count_choice_snoc students st i :
  hp_count_choice assigned (students ++ [st]) i =
  hp_count_choice assigned students i
  + (if decide (rank_of assigned st = Some i ∧ high_priority st = true) then 1 else 0).
Proof.
  unfold hp_count_choice. rewrite filter_app, length_app. f_equal.
  rewrite filter_cons, filter_nil. by destruct (decide _).
Qed.

(** A student of no rank leaves the reference score as it is but for
    the count of the students. *)
Lemma reference_score_snoc_None students st :
  rank_of assigned st = None →
  reference_score K assigned (students ++ [st]) =
  reference_score K assigned students.
Proof.
  intros E. rewrite !reference_score_eq.
  rewrite happy_count_snoc, E, Nat.add_0_r. f_equal. f_equal.
  - apply counts_ext. intros i _. rewrite count_choice_snoc, E.
    rewrite decide_False by done. lia.
  - apply counts_ext. intros i _. rewrite hp_count_choice_snoc, E.
    rewrite decide_False by (by intros [? ?]). lia.
Qed.

(** A student of rank [i] bumps it in three places. *)
Lemma bump_reference_score students st (i : nat) :
  rank_of assigned st = Some i → 1 ≤ i ≤ K →
  bump K (high_priority st) i (reference_score K assigned students) =
  Return (reference_score K assigned (students ++ [st])).
Proof.
  intros E Hi. rewrite !reference_score_eq. unfold bump.
  rewrite list_incr_0. cbn [mbind result_bind].
  replace i with (S (i - 1)) at 1 by lia. rewrite list_incr_S.
  rewrite list_incr_app_l by (rewrite length_counts; lia).
  rewrite (list_incr_counts _ (count_choice assigned (students ++ [st])) K i);
    [|done|].
  2:{ intros j. rewrite count_choice_snoc, E.
      destruct (decide (j = i)) as [->|Hne].
      - rewrite decide_True by done. lia.
      - rewrite decide_False by congruence. lia. }
  cbn [mbind result_bind].
  rewrite happy_count_snoc, E.
  replace (Z.of_nat (happy_count assigned students) + 1)%Z
    with (Z.of_nat (happy_count assigned students + 1)) by lia.
  destruct (high_priority st) eqn:Ehp.
  - replace (K + i) with (S (K + (i - 1))) by lia. rewrite list_incr_S.
    rewrite <- (length_counts (count_choice assigned (students ++ [st])) K) at 1.
    rewrite list_incr_app_r.
    rewrite (list_incr_counts _ (hp_count_choice assigned (students ++ [st])) K i);
      [done|done|].
    intros j. rewrite hp_count_choice_snoc, E.
    destruct (decide (j = i)) as [->|Hne].
    + rewrite decide_True by done. lia.
    + rewrite decide_False by (intros [? ?]; congruence). lia.
  - f_equal. f_equal. f_equal. apply counts_ext. intros j _.
    rewrite hp_count_choice_snoc. rewrite decide_False by (intros [? ?]; congruence).
    lia.
Qed.

Lemma position_bound o picks (p : nat) : position o picks = Some p → 1 ≤ p ≤ length picks.
Proof.
  revert p. induction picks as [|x picks IH]; intros p; cbn; [done|].
  destruct (decide (x = o)).
  - intros [= <-]. lia.
  - destruct (position o picks) as [q|]; cbn; [|done].
    intros [= <-]. specialize (IH q eq_refl). lia.
Qed.

(** The loop of [score_assignment] over the ranks finds the position
    of the assigned option among the choices. *)
Lemma score_ranks_position st v score a n :
  length (choices st) = a + n →
  score_ranks K st v (seq (S a) n) score =
  match o ← v; position o (drop a (choices st)) with
  | Some p => bump K (is_high_priority st) (a + p) score
  | None => Return score
  end.
Proof.
  revert a. induction n as [|n IH]; intros a Hlen.
  - rewrite drop_ge by lia. cbn. by destruct v.
  - cbn [seq score_ranks].
    destruct (lookup_lt_is_Some_2 (choices st) a) as [c Hc]; [lia|].
    unfold get_choice. rewrite Hc. cbn [mbind result_bind].
    rewrite (drop_S _ c) by done.
    case_bool_decide as Hv.
    + subst v. cbn. rewrite decide_True by done.
      replace (a + 1) with (S a) by lia. reflexivity.
    + rewrite IH by lia. destruct v as [o|]; cbn; [|done].
      rewrite decide_False by congruence.
      destruct (position o (drop (S a) (choices st))) as [p|]; cbn; [|done].
      unfold bump. do 3 f_equal. all: try lia.
      replace (S (a + p)) with (a + S p) by lia. reflexivity.
Qed.
End scoring.

Lemma counts_zero K : counts (λ _, 0) K = replicate K 0%Z.
Proof.
  unfold counts. apply list_eq. intros j.
  rewrite list_lookup_fmap.
  destruct (decide (j < K)) as [Hlt|Hge].
  - rewrite lookup_seq_lt by done. cbn. by rewrite lookup_replicate_2.
  - rewrite lookup_seq_ge by lia. cbn. symmetry. apply lookup_replicate_None. lia.
Qed.

Lemma reference_score_nil K assigned :
  reference_score K assigned [] = 0%Z :: replicate (2 * K) 0%Z.
Proof.
  rewrite reference_score_eq. cbn [happy_count filter length].
  f_equal. replace (2 * K) with (K + K) by lia. rewrite replicate_add.
  change (counts (λ _, 0) K ++ counts (λ _, 0) K = replicate K 0%Z ++ replicate K 0%Z).
  by rewrite counts_zero.
Qed.

(** [score_assignment] computes the reference score of the assignment
    it reads from the matching, whether or not every student is
    matched. *)
Lemma score_assignment_reference m students K assigned :
  Forall (λ st, length (choices st) = K) students →
  (∀ st, st ∈ students →
         store (by_student m) !! name st = Some (assigned (name st))) →
  score_assignment m students K = Return (reference_score K assigned students).
Proof.
  unfold score_assignment. rewrite <- (reference_score_nil K assigned).
  induction students as [|st students IH] using rev_ind; intros Hlen Hm; [done|].
  apply Forall_app in Hlen as [Hlen Hst]. apply Forall_cons_1 in Hst as [Hst _].
  rewrite foldM_app, IH; [|done|intros; apply Hm, elem_of_app; by left].
  cbn [mbind result_bind foldM].
  unfold get_match, get_name.
  rewrite (proj2 (dict_get_Return _ _ _) (Hm st ltac:(apply elem_of_app; right; by left))).
  cbn [mbind result_bind].
  rewrite (score_ranks_position K st _ _ 0 K) by (by rewrite Hst).
  rewrite drop_0. fold (rank_of assigned st).
  destruct (rank_of assigned st) as [p|] eqn:E.
  - assert (1 ≤ p ≤ K) as Hp.
    { unfold rank_of in E. destruct (assigned (name st)) as [o|]; [|done].
      cbn in E. apply position_bound in E. lia. }
    cbn [Nat.add]. unfold is_high_priority.
    by rewrite (bump_reference_score K assigned students st p E Hp).
  - by rewrite reference_score_snoc_None.
Qed.

(** *** The dicts of the older script *)

Lemma omap_ext_in {A B : Type} (f g : A → option B) (l : list A) :
  (∀ x, x ∈ l → f x = g x) → omap f l = omap g l.
Proof.
  induction l as [|x l IH]; intros H; [done|]. cbn.
  rewrite (H x) by apply list_elem_of_here.
  rewrite IH by (intros; by apply H, list_elem_of_further). done.
Qed.

Lemma dict_items_set_new {V : Type} (d : dict V) k v :
  dict_wf d → k ∉ keys d → dict_items (dict_set k v d) = dict_items d ++ [(k, v)].
Proof.
  intros [Hnd Hk] Hn. unfold dict_set, dict_items.
  assert (dict_has k d = false) as ->.
  { apply not_true_is_false. intros H%dict_has_true. by apply Hn, Hk. }
  cbn [keys store]. rewrite omap_app. f_equal.
  - apply omap_ext_in. intros k' Hk'.
    rewrite lookup_insert_ne; [done|]. intros ->. done.
  - cbn. by rewrite lookup_insert_eq.
Qed.

Section dict_of_list.
Context {A V : Type} (fk : A → string) (fv : A → V).

Lemma dict_of_snoc l x : dict_of fk fv (l ++ [x]) = dict_set (fk x) (fv x) (dict_of fk fv l).
Proof. unfold Py.dict_of. by rewrite fold_left_app. Qed.

Lemma dict_of_wf l : dict_wf (dict_of fk fv l).
Proof. apply (dict_wf_fold_set fk fv), dict_wf_empty. Qed.

Lemma keys_dict_of l : NoDup (fk <$> l) → keys (dict_of fk fv l) = fk <$> l.
Proof.
  induction l as [|x l IH] using rev_ind; intros Hnd; [done|].
  rewrite fmap_app in Hnd. apply NoDup_app in Hnd as (Hnd & Hx & _).
  rewrite dict_of_snoc, fmap_app. unfold dict_set.
  assert (dict_has (fk x) (dict_of fk fv l) = false) as ->.
  { apply not_true_is_false. intros H%dict_has_true.
    apply (dict_of_wf l) in H. rewrite IH in H by done.
    apply (Hx _ H). cbn. apply list_elem_of_here. }
  cbn [keys]. by rewrite IH.
Qed.

Lemma dict_items_dict_of l :
  NoDup (fk <$> l) → dict_items (dict_of fk fv l) = (λ x, (fk x, fv x)) <$> l.
Proof.
  induction l as [|x l IH] using rev_ind; intros Hnd; [done|].
  pose proof Hnd as Hnd'.
  rewrite fmap_app in Hnd. apply NoDup_app in Hnd as (Hnd & Hx & _).
  rewrite dict_of_snoc, fmap_app, dict_items_set_new, IH; [done|done| |].
  - apply dict_of_wf.
  - rewrite keys_dict_of by done. intros H. apply (Hx _ H). cbn. apply list_elem_of_here.
Qed.

Lemma store_dict_of l x :
  NoDup (fk <$> l) → x ∈ l → store (dict_of fk fv l) !! fk x = Some (fv x).
Proof.
  intros Hnd Hx.
  assert ((fk x, fv x) ∈ dict_items (dict_of fk fv l)) as H.
  { rewrite dict_items_dict_of by done. apply list_elem_of_fmap. eauto. }
  by apply elem_of_dict_items in H as [_ H].
Qed.
End dict_of_list.

Lemma foldM_fmap {A B C : Type} (f : C → B → result C) (g : A → B) acc l :
  foldM f acc (g <$> l) = foldM (λ acc x, f acc (g x)) acc l.
Proof.
  revert acc. induction l as [|x l IH]; intros acc; [done|].
  cbn. destruct (f acc (g x)); cbn; [apply IH|done].
Qed.

Lemma position_index_of o picks : position o picks = S <$> AU.index_of o picks.
Proof.
  induction picks as [|p picks IH]; [done|]. cbn.
  destruct (decide (p = o)) as [->|Hne].
  - by rewrite bool_decide_eq_true_2.
  - rewrite bool_decide_eq_false_2 by done. rewrite IH.
    by destruct (AU.index_of o picks).
Qed.

(** What [ScoreCalculator.__init__] accepted. *)
Lemma ScoreCalculator_init_Return students sc :
  NoDup (name <$> students) →
  AU.ScoreCalculator_init (choices_dict students) (high_priority_dict students)
    = Return sc →
  AU.sc_choices sc = choices_dict students ∧
  AU.sc_high_priority sc = high_priority_dict students ∧
  Forall (λ st, length (choices st) = AU.sc_n_choices sc) students.
Proof.
  intros Hnd. unfold AU.ScoreCalculator_init.
  case_bool_decide; [done|].
  set (lengths := list_to_set _ : gset nat).
  destruct (elements lengths) as [|n [|]] eqn:E; try done.
  intros [= <-]. cbn. split; [done|]. split; [done|].
  apply Forall_forall. intros st Hst.
  assert (length (choices st) ∈ elements lengths) as Hin.
  { apply elem_of_elements. unfold lengths. apply elem_of_list_to_set.
    apply list_elem_of_fmap. exists (name st, choices st). split; [done|].
    unfold choices_dict.
    rewrite (dict_items_dict_of name choices) by done.
    apply list_elem_of_fmap. eauto. }
  rewrite E in Hin. by apply list_elem_of_singleton in Hin.
Qed.

(** *** [ScoreCalculator.calculate_score] *)

Lemma old_lookup_student name mo v :
  store (AU.by_student mo) !! name = Some v →
  AU.lookup name mo = Return (AU.OfStudent v).
Proof. unfold AU.lookup. by intros ->. Qed.

(** The two increments below the first component, on any first
    component. *)
Lemma bump_tail K hp (p : nat) h t r :
  1 ≤ p →
  bump K hp p (h :: t) = Return r →
  ∃ t', r = (h + 1)%Z :: t' ∧
        ∀ h0, (s ← list_incr p (h0 :: t);
               if hp : bool then list_incr (K + p) s else Return s)
              = Return (h0 :: t').
Proof.
  intros Hp. destruct p as [|p]; [lia|]. unfold bump.
  rewrite list_incr_0. cbn [mbind result_bind]. rewrite list_incr_S.
  destruct (list_incr p t) as [t1|] eqn:E1; cbn [mbind result_bind]; [|done].
  replace (K + S p) with (S (K + p)) by lia.
  destruct hp.
  - rewrite list_incr_S.
    destruct (list_incr (K + p) t1) as [t2|] eqn:E2; cbn [mbind result_bind]; [|done].
    intros [= <-]. exists t2. split; [done|]. intros h0.
    rewrite list_incr_S, E1. cbn [mbind result_bind].
    rewrite list_incr_S, E2. done.
  - intros [= <-]. exists t1. split; [done|]. intros h0.
    rewrite list_incr_S, E1. done.
Qed.

Section old_scorer.
Context (sc : AU.ScoreCalculator) (mo : AU.Matching).
Context (assigned : string → option string).

Lemma old_score_after_all students :
  old_score_after sc assigned (length students) students =
  reference_score (AU.sc_n_choices sc) assigned students.
Proof.
  unfold old_score_after. rewrite reference_score_eq. f_equal. lia.
Qed.

Lemma old_score_after_nil N :
  old_score_after sc assigned N [] = Z.of_nat N :: replicate (AU.sc_n_choices sc * 2) 0%Z.
Proof.
  pose proof (reference_score_nil (AU.sc_n_choices sc) assigned) as H.
  rewrite reference_score_eq in H. injection H as H.
  unfold old_score_after. rewrite H. cbn. f_equal; [lia|]. f_equal. lia.
Qed.

(** One matched student. *)
Lemma score_one_matched N l st o :
  store (AU.by_student mo) !! name st = Some (Some o) →
  assigned (name st) = Some o →
  store (AU.sc_high_priority sc) !! name st = Some (high_priority st) →
  length (choices st) = AU.sc_n_choices sc →
  AU.score_one sc mo (old_score_after sc assigned N l) (name st, choices st)
  = Return (old_score_after sc assigned N (l ++ [st])).
Proof.
  intros Hs Ha Hhp Hlen. unfold AU.score_one.
  rewrite (old_lookup_student _ _ _ Hs). cbn [mbind result_bind].
  rewrite (proj2 (dict_get_Return _ _ _) Hhp). cbn [mbind result_bind].
  assert (rank_of assigned st = S <$> AU.index_of o (choices st)) as Hrank.
  { unfold rank_of. rewrite Ha. cbn. apply position_index_of. }
  destruct (AU.index_of o (choices st)) as [rank|] eqn:E; cbn in Hrank.
  - assert (1 ≤ S rank ≤ AU.sc_n_choices sc) as Hp.
    { rewrite <- Hlen. apply (position_bound o).
      rewrite position_index_of, E. done. }
    pose proof (bump_reference_score _ assigned l st (S rank) Hrank Hp) as Hb.
    rewrite reference_score_eq in Hb.
    apply bump_tail in Hb as (t' & Ht' & Hb); [|lia].
    unfold old_score_after at 1.
    change (1 + rank) with (S rank).
    replace (1 + AU.sc_n_choices sc + rank) with (AU.sc_n_choices sc + S rank) by lia.
    rewrite Hb. rewrite reference_score_eq in Ht'. injection Ht' as Hh <-.
    unfold old_score_after. rewrite length_app. cbn [length].
    f_equal. f_equal. rewrite happy_count_snoc, Hrank. lia.
  - unfold old_score_after at 1.
    pose proof (reference_score_snoc_None (AU.sc_n_choices sc) assigned l st Hrank) as Hn.
    rewrite !reference_score_eq in Hn. injection Hn as Hh Ht.
    unfold old_score_after. rewrite Ht, length_app. cbn [length].
    f_equal. f_equal. lia.
Qed.

(** A run of matched students. *)
Lemma score_matched_students N l :
  (∀ st, st ∈ l →
     (∃ o, store (AU.by_student mo) !! name st = Some (Some o) ∧
           assigned (name st) = Some o) ∧
     store (AU.sc_high_priority sc) !! name st = Some (high_priority st) ∧
     length (choices st) = AU.sc_n_choices sc) →
  foldM (λ acc st, AU.score_one sc mo acc (name st, choices st))
        (old_score_after sc assigned N []) l
  = Return (old_score_after sc assigned N l).
Proof.
  induction l as [|st l IH] using rev_ind; intros H; [done|].
  rewrite foldM_app, IH by (intros; apply H, elem_of_app; by left).
  cbn [mbind result_bind foldM].
  destruct (H st) as ((o & Hs & Ha) & Hhp & Hlen); [apply elem_of_app; right; by left|].
  by rewrite (score_one_matched N l st o).
Qed.

(** The first unmatched student ends the scoring. *)
Lemma score_unmatched_student N l1 st l2 :
  (∀ st, st ∈ l1 →
     (∃ o, store (AU.by_student mo) !! name st = Some (Some o) ∧
           assigned (name st) = Some o) ∧
     store (AU.sc_high_priority sc) !! name st = Some (high_priority st) ∧
     length (choices st) = AU.sc_n_choices sc) →
  store (AU.by_student mo) !! name st = Some None →
  is_Some (store (AU.sc_high_priority sc) !! name st) →
  foldM (λ acc st, AU.score_one sc mo acc (name st, choices st))
        (old_score_after sc assigned N []) (l1 ++ st :: l2)
  = Raise ValueError.
Proof.
  intros H1 Hs [hp Hhp].
  rewrite foldM_app, score_matched_students by done.
  cbn [mbind result_bind foldM]. unfold AU.score_one.
  rewrite (old_lookup_student _ _ _ Hs). cbn [mbind result_bind].
  rewrite (proj2 (dict_get_Return _ _ _) Hhp). done.
Qed.
End old_scorer.

Lemma calculate_score_fold students sc mo :
  NoDup (name <$> students) →
  AU.sc_choices sc = choices_dict students →
  AU.calculate_score sc mo =
  foldM (λ acc st, AU.score_one sc mo acc (name st, choices st))
        (Z.of_nat (length students) :: replicate (AU.sc_n_choices sc * 2) 0%Z)
        students.
Proof.
  intros Hnd Hc. unfold AU.calculate_score, dict_len. rewrite Hc.
  unfold choices_dict. rewrite keys_dict_of, dict_items_dict_of by done.
  rewrite length_fmap. apply foldM_fmap.
Qed.

(** C5.  For students with distinct names whose picks the older
    script's [ScoreCalculator] accepted, and an assignment that matches
    every student, [calculate_score] on the older matching and
    [score_assignment] on the newer one return the same tuple, the
    reference score: the number of students matched to one of their
    choices, then for each rank the number matched to their choice of
    that rank, then the same counts over the high-priority students. *)
Theorem scorers_return_reference_score students sc mo mn (a : string → string) :
  NoDup (name <$> students) →
  AU.ScoreCalculator_init (choices_dict students) (high_priority_dict students)
    = Return sc →
  (∀ st, st ∈ students →
     store (AU.by_student mo) !! name st = Some (Some (a (name st))) ∧
     store (by_student mn) !! name st = Some (Some (a (name st)))) →
  AU.calculate_score sc mo
    = Return (reference_score (AU.sc_n_choices sc) (λ s, Some (a s)) students) ∧
  score_assignment mn students (AU.sc_n_choices sc)
    = Return (reference_score (AU.sc_n_choices sc) (λ s, Some (a s)) students).
Proof.
  intros Hnd Hinit Hm.
  destruct (ScoreCalculator_init_Return _ _ Hnd Hinit) as (Hc & Hhp & Hlen).
  split.
  - rewrite (calculate_score_fold students) by done.
    rewrite <- (old_score_after_nil sc (λ s, Some (a s))).
    rewrite score_matched_students; [by rewrite old_score_after_all|].
    intros st Hst. split; [|split].
    + exists (a (name st)). split; [apply Hm, Hst|done].
    + rewrite Hhp. unfold high_priority_dict.
      by apply (store_dict_of name high_priority).
    + by apply (proj1 (Forall_forall _ _) Hlen).
  - apply score_assignment_reference; [done|]. intros st Hst. by apply Hm.
Qed.

(** *** Scoring an incomplete assignment *)

Lemma first_such {A : Type} (P : A → Prop) `{!∀ x, Decision (P x)} (l : list A) :
  (∃ x, x ∈ l ∧ P x) →
  ∃ l1 x l2, l = l1 ++ x :: l2 ∧ P x ∧ ∀ y, y ∈ l1 → ¬ P y.
Proof.
  induction l as [|y l IH]; intros (x & Hx & HP); [by apply elem_of_nil in Hx|].
  destruct (decide (P y)) as [Hy|Hy].
  - exists [], y, l. split; [done|]. split; [done|]. by intros ? ?%elem_of_nil.
  - apply elem_of_cons in Hx as [->|Hx]; [done|].
    destruct IH as (l1 & z & l2 & -> & Hz & Hl1); [eauto|].
    exists (y :: l1), z, l2. split; [done|]. split; [done|].
    intros w [->|Hw]%elem_of_cons; [done|by apply Hl1].
Qed.

Lemma is_matched_store m s v :
  store (by_student m) !! s = Some v →
  is_matched m s = Return (bool_decide (v ≠ None)).
Proof. intros H. apply is_matched_Return. eauto. Qed.

Lemma reduce_to_pairs_unmatched m :
  (∀ k, k ∈ keys (by_student m) → is_Some (store (by_student m) !! k)) →
  (∃ s, s ∈ keys (by_student m) ∧ store (by_student m) !! s = Some None) →
  reduce_to_pairs m = Raise AssertionError.
Proof.
  unfold reduce_to_pairs. generalize (keys (by_student m)) as ks.
  induction ks as [|k ks IH]; intros Hk (s & Hs & Hn); [by apply elem_of_nil in Hs|].
  cbn [forM].
  destruct (Hk k) as [v Hv]; [by left|].
  rewrite (is_matched_store _ _ _ Hv).
  rewrite (proj2 (dict_get_Return _ _ _) Hv). cbn [mbind result_bind].
  destruct v as [o|].
  - rewrite bool_decide_eq_true_2 by done. cbn [assert mbind result_bind].
    rewrite IH; [done| |].
    + intros; apply Hk; by right.
    + apply elem_of_cons in Hs as [->|Hs]; [congruence|eauto].
  - rewrite bool_decide_eq_false_2 by (intros H; by apply H). done.
Qed.

(** C6, against the claim as it stands: with the one student unmatched,
    [score_assignment] returns a score. *)
Lemma score_assignment_accepts_incomplete : ¬ new_scorer_rejects_incomplete.
Proof.
  intros H.
  pose (st := {| name := "a"; high_priority := false; choices := ["X"] |}).
  destruct (Matching_init [st] ["X"]) as [m|] eqn:E; [|by vm_compute in E].
  destruct (H m [st] 1) as [e He].
  - exists st. split; [apply list_elem_of_here|].
    vm_compute in E. injection E as <-. reflexivity.
  - vm_compute in E. injection E as <-. vm_compute in He. discriminate He.
Qed.

(** C6, amended.  Of the two scorers only [calculate_score] of the older
    script rejects an incomplete assignment: when every student is known
    to the matching and one of them is unmatched it raises [ValueError].
    [score_assignment] of the newer script returns the reference score
    of what it reads, in which an unmatched student counts nowhere; the
    newer script rejects the incomplete assignment one step later, in
    [reduce_to_pairs], with an [AssertionError]. *)
Theorem scoring_an_incomplete_assignment :
  (∀ students sc mo,
     NoDup (name <$> students) →
     AU.ScoreCalculator_init (choices_dict students) (high_priority_dict students)
       = Return sc →
     (∀ st, st ∈ students → is_Some (store (AU.by_student mo) !! name st)) →
     (∃ st, st ∈ students ∧ store (AU.by_student mo) !! name st = Some None) →
     AU.calculate_score sc mo = Raise ValueError) ∧
  (∀ students m K assigned,
     Forall (λ st, length (choices st) = K) students →
     (∀ st, st ∈ students →
            store (by_student m) !! name st = Some (assigned (name st))) →
     score_assignment m students K = Return (reference_score K assigned students)) ∧
  (∀ m,
     (∀ k, k ∈ keys (by_student m) → is_Some (store (by_student m) !! k)) →
     (∃ s, s ∈ keys (by_student m) ∧ store (by_student m) !! s = Some None) →
     reduce_to_pairs m = Raise AssertionError).
Proof.
  split; [|split].
  - intros students sc mo Hnd Hinit Hknown Hex.
    destruct (ScoreCalculator_init_Return _ _ Hnd Hinit) as (Hc & Hhp & Hlen).
    apply (first_such (λ st, store (AU.by_student mo) !! name st = Some None))
      in Hex as (l1 & st & l2 & -> & Hst & Hl1).
    rewrite (calculate_score_fold (l1 ++ st :: l2)) by done.
    pose (assigned := λ s, mjoin (store (AU.by_student mo) !! s)).
    rewrite <- (old_score_after_nil sc assigned).
    apply score_unmatched_student; [|done|].
    + intros x Hx. split; [|split].
      * destruct (Hknown x) as [v Hv]; [apply elem_of_app; by left|].
        destruct v as [o|]; [|by destruct (Hl1 x Hx)].
        exists o. split; [done|]. unfold assigned. by rewrite Hv.
      * rewrite Hhp. apply (store_dict_of name high_priority); [done|].
        apply elem_of_app; by left.
      * apply (proj1 (Forall_forall _ _) Hlen). apply elem_of_app; by left.
    + exists (high_priority st). rewrite Hhp.
      apply (store_dict_of name high_priority); [done|].
      apply elem_of_app; right; by left.
  - intros students m K assigned. apply score_assignment_reference.
  - apply reduce_to_pairs_unmatched.
Qed.

(** ** Runs of the engine *)

(** *** Inversion of a run that returned *)

Lemma mret_run {A : Type} (a r : A) (w w' : World) :
  (mret a : M A) w = (Return r, w') ↔ r = a ∧ w' = w.
Proof. unfold mret, M_ret. split; [intros [= <- <-]|intros [-> ->]]; done. Qed.

Lemma bind_run {A B : Type} (c : M A) (k : A → M B) (r : B) (w w' : World) :
  (c ≫= k) w = (Return r, w') ↔
  ∃ a w1, c w = (Return a, w1) ∧ k a w1 = (Return r, w').
Proof.
  unfold mbind, M_bind. destruct (c w) as [[a|e] w1]; split.
  - eauto.
  - by intros (a' & w2 & [= <- <-] & H).
  - done.
  - by intros (a' & w2 & [=] & _).
Qed.

Lemma query_run {A : Type} (f : Matching → result A) (r : A) (w w' : World) :
  query f w = (Return r, w') ↔ f (w_match w) = Return r ∧ w' = w.
Proof. unfold query. split; [intros [= -> <-]|intros [-> ->]]; done. Qed.

Lemma lift_run {A : Type} (x : result A) (r : A) (w w' : World) :
  lift x w = (Return r, w') ↔ x = Return r ∧ w' = w.
Proof. unfold lift. split; [intros [= -> <-]|intros [-> ->]]; done. Qed.

Lemma raise_run {A : Type} (e : exn) (r : A) (w w' : World) :
  ¬ (raise e : M A) w = (Return r, w').
Proof. unfold raise, lift. intros [=]. Qed.

Lemma mutate_run (f : Matching → result Matching) (r : unit) (w w' : World) :
  mutate f w = (Return r, w') ↔
  ∃ m', f (w_match w) = Return m' ∧ w' = moved w m'.
Proof.
  unfold mutate, moved. destruct (f (w_match w)) as [m'|e]; split.
  - intros [= <-]. eauto.
  - intros (m2 & [= <-] & ->). by destruct r.
  - done.
  - by intros (m2 & [=] & _).
Qed.

(** Decompose a hypothesis that says a computation returned. *)
Ltac inv_run H :=
  repeat match type of H with
  | (_ ≫= _) _ = (Return _, _) =>
      let a := fresh "a" in let w := fresh "w" in let Ha := fresh "Ha" in
      apply bind_run in H as (a & w & Ha & H)
  | mret _ _ = (Return _, _) =>
      let E := fresh "E" in apply mret_run in H as [E H]
  | query _ _ = (Return _, _) =>
      let E := fresh "E" in apply query_run in H as [E H]
  | lift _ _ = (Return _, _) =>
      let E := fresh "E" in apply lift_run in H as [E H]
  | raise _ _ = (Return _, _) => by apply raise_run in H
  | mutate _ _ = (Return _, _) =>
      let m := fresh "m" in let E := fresh "E" in
      apply mutate_run in H as (m & E & H)
  end.

(** A loop that returned kept its invariant. *)
Lemma foldM_run {A B : Type} (I : list A → B → World → Prop)
    (f : B → A → M B) (l : list A) acc w r w' :
  I [] acc w →
  (∀ done x acc w acc' w',
     (∃ rest, l = done ++ x :: rest) → I done acc w →
     f acc x w = (Return acc', w') → I (done ++ [x]) acc' w') →
  foldM f acc l w = (Return r, w') →
  I l r w'.
Proof.
  intros H0 Hstep.
  assert (∀ done rest acc w, l = done ++ rest → I done acc w →
            foldM f acc rest w = (Return r, w') → I l r w') as Hgen.
  { intros done rest. revert done.
    induction rest as [|x rest IH]; intros done acc0 w0 Hl HI Hrun.
    - apply mret_run in Hrun as [-> ->]. by rewrite Hl, app_nil_r.
    - cbn [foldM] in Hrun. apply bind_run in Hrun as (acc1 & w1 & Hf & Hrun).
      apply (IH (done ++ [x]) acc1 w1); [by rewrite <- app_assoc| |done].
      eapply Hstep; eauto. }
  intros Hrun. by apply (Hgen [] l acc w).
Qed.

Lemma forM__run {A : Type} (I : list A → World → Prop)
    (f : A → M unit) (l : list A) w r w' :
  I [] w →
  (∀ done x w u w',
     (∃ rest, l = done ++ x :: rest) → I done w →
     f x w = (Return u, w') → I (done ++ [x]) w') →
  forM_ f l w = (Return r, w') →
  I l w'.
Proof.
  intros H0 Hstep.
  assert (∀ done rest w, l = done ++ rest → I done w →
            forM_ f rest w = (Return r, w') → I l w') as Hgen.
  { intros done rest. revert done.
    induction rest as [|x rest IH]; intros done w0 Hl HI Hrun.
    - apply mret_run in Hrun as [_ ->]. by rewrite Hl, app_nil_r.
    - cbn [forM_] in Hrun. apply bind_run in Hrun as (u & w1 & Hf & Hrun).
      apply (IH (done ++ [x]) w1); [by rewrite <- app_assoc| |done].
      eapply Hstep; eauto. }
  intros Hrun. by apply (Hgen [] l w).
Qed.

Lemma forM_run {A B : Type} (I : list A → list B → World → Prop)
    (f : A → M B) (l : list A) w r w' :
  I [] [] w →
  (∀ done ys x w y w',
     (∃ rest, l = done ++ x :: rest) → I done ys w →
     f x w = (Return y, w') → I (done ++ [x]) (ys ++ [y]) w') →
  forM f l w = (Return r, w') →
  I l r w'.
Proof.
  intros H0 Hstep.
  assert (∀ rest done ys w r, l = done ++ rest → I done ys w →
            forM f rest w = (Return r, w') → I l (ys ++ r) w') as Hgen.
  { induction rest as [|x rest IH]; intros done ys w0 r0 Hl HI Hrun.
    - apply mret_run in Hrun as [-> ->]. by rewrite Hl, !app_nil_r.
    - cbn [forM] in Hrun. inv_run Hrun. subst.
      replace (ys ++ a :: a0) with ((ys ++ [a]) ++ a0) by (by rewrite <- app_assoc).
      apply (IH (done ++ [x]) _ w1); [by rewrite <- app_assoc| |done].
      eapply Hstep; eauto. }
  intros Hrun. by apply (Hgen l [] [] w r).
Qed.

(** Split the first step off a run that returned; a step that only reads
    is resolved on the spot. *)
Ltac run_step H x w1 Hx :=
  apply bind_run in H as (x & w1 & Hx & H);
  lazymatch type of Hx with
  | query _ _ = _ => apply query_run in Hx as [Hx ->]
  | lift _ _ = _ => apply lift_run in Hx as [Hx ->]
  | mret _ _ = _ => apply mret_run in Hx as [-> ->]
  | _ => idtac
  end.

(** Split a mutation off a run that returned. *)
Ltac run_mutate H m1 Hm :=
  let u := fresh "u" in let w1 := fresh "w" in let Hx := fresh "Hx" in
  apply bind_run in H as (u & w1 & Hx & H);
  apply mutate_run in Hx as (m1 & Hm & ->).

(** *** Properties of the world every step keeps *)

Section keeps.
Context (J : World → Prop).

Lemma keeps_ret {A : Type} (a : A) : keeps J (mret a).
Proof. by intros w. Qed.

Lemma keeps_bind {A B : Type} (c : M A) (k : A → M B) :
keeps J c → (∀ a, keeps J (k a)) → keeps J (c ≫= k).
Proof.
intros Hc Hk w Hw. specialize (Hc w Hw). unfold mbind, M_bind.
destruct (c w) as [[a|e] w1]; [by apply Hk|done].
Qed.

Lemma keeps_query {A : Type} (f : Matching → result A) : keeps J (query f).
Proof. by intros w. Qed.

Lemma keeps_lift {A : Type} (r : result A) : keeps J (lift r).
Proof. by intros w. Qed.

Lemma keeps_raise {A : Type} (e : exn) : keeps J (raise e : M A).
Proof. by intros w. Qed.

Lemma keeps_mutate (f : Matching → result Matching) :
(∀ w m', J w → f (w_match w) = Return m' → J (moved w m')) →
keeps J (mutate f).
Proof.
intros H w Hw. unfold mutate.
destruct (f (w_match w)) as [m'|e] eqn:E; [by apply H|done].
Qed.

Lemma keeps_foldM {A B : Type} (f : B → A → M B) acc (l : list A) :
(∀ acc x, x ∈ l → keeps J (f acc x)) → keeps J (foldM f acc l).
Proof.
revert acc. induction l as [|x l IH]; intros acc H; [apply keeps_ret|].
cbn [foldM]. apply keeps_bind; [apply H, list_elem_of_here|].
intros acc'. apply IH. intros; by apply H, list_elem_of_further.
Qed.

Lemma keeps_forM_ {A : Type} (f : A → M unit) (l : list A) :
(∀ x, x ∈ l → keeps J (f x)) → keeps J (forM_ f l).
Proof.
induction l as [|x l IH]; intros H; [apply keeps_ret|].
cbn [forM_]. apply keeps_bind; [apply H, list_elem_of_here|].
intros _. apply IH. intros; by apply H, list_elem_of_further.
Qed.

Lemma keeps_forM {A B : Type} (f : A → M B) (l : list A) :
(∀ x, x ∈ l → keeps J (f x)) → keeps J (forM f l).
Proof.
induction l as [|x l IH]; intros H; [apply keeps_ret|].
cbn [forM]. apply keeps_bind; [apply H, list_elem_of_here|].
intros y. apply keeps_bind; [|intros; apply keeps_ret].
apply IH. intros; by apply H, list_elem_of_further.
Qed.

Lemma keeps_randbelow n : blind_to_random J → keeps J (randbelow n).
Proof.
intros Hb w Hw. unfold randbelow. destruct (w_random w); [done|]. by apply Hb.
Qed.

Lemma keeps_shuffle_draws {A : Type} fuel (l : list A) :
blind_to_random J → keeps J (shuffle_draws fuel l).
Proof.
intros Hb. revert l. induction fuel as [|fuel IH]; intros l; [apply keeps_ret|].
cbn [shuffle_draws]. apply keeps_bind; [by apply keeps_randbelow|].
intros j. destruct (l !! j); [|apply keeps_ret].
apply keeps_bind; [apply IH|intros; apply keeps_ret].
Qed.

Lemma keeps_shuffle {A : Type} (l : list A) :
blind_to_random J → keeps J (shuffle l).
Proof. apply keeps_shuffle_draws. Qed.
End keeps.

(** Break a goal [keeps J c] down along the structure of [c]; what is
    left are the mutations. *)
Ltac keeps_step :=
  lazymatch goal with
  | |- keeps _ (mret _) => apply keeps_ret
  | |- keeps _ (_ ≫= _) => apply keeps_bind; [|intros ?]
  | |- keeps _ (query _) => apply keeps_query
  | |- keeps _ (lift _) => apply keeps_lift
  | |- keeps _ (raise _) => apply keeps_raise
  | |- keeps _ (saved_option ?v) => destruct v; [apply keeps_ret|apply keeps_raise]
  | |- keeps _ (foldM _ _ _) => apply keeps_foldM; intros ? ? ?
  | |- keeps _ (forM_ _ _) => apply keeps_forM_; intros ? ?
  | |- keeps _ (forM _ _) => apply keeps_forM; intros ? ?
  | |- keeps _ (shuffle _) => apply keeps_shuffle
  | |- keeps _ (if ?b then _ else _) => destruct b
  | |- keeps _ (let '(_, _) := ?p in _) => destruct p
  | |- keeps _ (match ?p with (_, _) => _ end) => destruct p
  end.

Ltac keeps_auto := repeat first [ solve [auto] | keeps_step ].

(** *** The order of the scores *)

Lemma tuple_gt_irrefl a : tuple_gt a a = false.
Proof.
  induction a as [|x a IH]; [done|]. cbn. by rewrite bool_decide_eq_true_2.
Qed.

Lemma tuple_gt_trans a b c :
  tuple_gt a b = true → tuple_gt b c = true → tuple_gt a c = true.
Proof.
  revert b c. induction a as [|x a IH]; intros [|y b] [|z c]; cbn; try done.
  repeat case_bool_decide; subst; try done; try lia; eauto.
  all: intros; apply bool_decide_eq_true; lia.
Qed.

(** Whatever exceeds [c] exceeds [b], or [b] exceeds [c]. *)
Lemma tuple_gt_cotrans a b c :
  tuple_gt a c = true → tuple_gt a b = true ∨ tuple_gt b c = true.
Proof.
  revert b c. induction a as [|x a IH]; intros [|y b] [|z c]; cbn;
    try done; try (by left); try (by right).
  repeat case_bool_decide; subst; try done; try lia; eauto.
  all: intros; try (left; apply bool_decide_eq_true; lia);
       try (right; apply bool_decide_eq_true; lia).
Qed.

Lemma tuple_ge_refl a : tuple_ge a a = true.
Proof. unfold tuple_ge. by rewrite tuple_gt_irrefl. Qed.

(** The new best score of the loop over the trims is above whatever
    the old one was above. *)
Lemma tuple_ge_raise n b c :
  tuple_gt n b = true → tuple_ge b c = true → tuple_ge n c = true.
Proof.
  unfold tuple_ge. intros Hnb Hbc. apply negb_true_iff.
  apply negb_true_iff in Hbc. apply not_true_is_false. intros Hcn.
  by rewrite (tuple_gt_trans _ _ _ Hcn Hnb) in Hbc.
Qed.

(** A best score the new one does not exceed is above whatever the new
    one is above. *)
Lemma tuple_ge_keep n b c :
  tuple_gt n b = false → tuple_ge n c = true → tuple_ge b c = true.
Proof.
  unfold tuple_ge. intros Hnb Hnc. apply negb_true_iff.
  apply negb_true_iff in Hnc. apply not_true_is_false. intros Hcb.
  destruct (tuple_gt_cotrans _ n _ Hcb); congruence.
Qed.

(** *** The scored results *)

Lemma scored_is_blind sc : blind_to_random (scored_is sc).
Proof. by intros w rs. Qed.

Lemma keeps_scored_mutate sc f : keeps (scored_is sc) (mutate f).
Proof. apply keeps_mutate. by intros w m'. Qed.

#[local] Hint Resolve scored_is_blind keeps_scored_mutate : core.

Ltac keeps_scored := keeps_auto; auto.

Section scored.
Context (students : list Student) (options : list string) (n_choices : nat).
Context (min_per_option max_per_option : Z).
Context (sc : list (list (string * string) * list Z)).

Lemma keeps_scored_assign_pairs pairs : keeps (scored_is sc) (assign_pairs pairs).
Proof. unfold assign_pairs. keeps_scored. Qed.

Lemma keeps_scored_erase_many l : keeps (scored_is sc) (erase_many l).
Proof. unfold erase_many. keeps_scored. Qed.

Lemma keeps_scored_unlock_many l : keeps (scored_is sc) (unlock_many l).
Proof. unfold unlock_many. keeps_scored. Qed.

Lemma keeps_scored_lock_all_matched : keeps (scored_is sc) lock_all_matched.
Proof. unfold lock_all_matched. keeps_scored. Qed.

Lemma keeps_scored_stage_entry stage :
keeps (scored_is sc) (stage_entry students stage).
Proof. unfold stage_entry. keeps_scored. Qed.

Lemma keeps_scored_remove_trim trim : keeps (scored_is sc) (remove_trim trim).
Proof. unfold remove_trim. keeps_scored. Qed.

Lemma keeps_scored_evict queue count : keeps (scored_is sc) (evict queue count).
Proof. unfold evict. keeps_scored. Qed.

Lemma keeps_scored_find_more list_students :
keeps (scored_is sc)
      (find_more_unhappy_students_with students options n_choices list_students).
Proof. unfold find_more_unhappy_students_with. keeps_scored. Qed.
End scored.

(** From a run that returned, what a kept property says of its end. *)
Lemma keeps_run {A : Type} J (c : M A) w r w' :
  keeps J c → J w → c w = (r, w') → J w'.
Proof. intros Hk Hw E. specialize (Hk w Hw). by rewrite E in Hk. Qed.

#[local] Hint Resolve keeps_scored_assign_pairs keeps_scored_erase_many
  keeps_scored_unlock_many keeps_scored_lock_all_matched
  keeps_scored_stage_entry keeps_scored_remove_trim keeps_scored_evict
  keeps_scored_find_more : core.

Lemma record_scored_run pairs score u w w' :
  record_scored pairs score w = (Return u, w') →
  w_match w' = w_match w ∧ w_visited w' = w_visited w ∧
  w_scored w' = w_scored w ++ [(pairs, score)].
Proof. unfold record_scored. destruct u. by intros [= <-]. Qed.

Section best.
Context (students : list Student) (options : list string) (n_choices : nat).
Context (min_per_option max_per_option : Z).

(** A base case that returns has scored one result, the one it returns. *)
Lemma base_case_scored w r w' :
assignment_algorithm_base_case students options n_choices
  min_per_option max_per_option w = (Return r, w') →
∃ pairs score,
  r = (Some pairs, Some score) ∧
  w_scored w' = w_scored w ++ [(pairs, score)].
Proof.
unfold assignment_algorithm_base_case. intros H.
set (sc := w_scored w). assert (scored_is sc w) as Hw by reflexivity.
run_step H n_unhappy w1 Hn.
run_step H underfilled w1 Hu.
run_step H evicted w1 Hev.
apply (keeps_run (scored_is sc)) in Hev;
  [|unfold find_more_unhappy_students; keeps_scored|done].
run_step H unhappy0 w2 Hun.
run_step H unhappy w2 Hsh.
apply (keeps_run (scored_is sc)) in Hsh; [|keeps_scored|done].
run_step H u1 w3 Hfill.
apply (keeps_run (scored_is sc)) in Hfill; [|keeps_scored|done].
run_step H u2 w4 Hrest.
apply (keeps_run (scored_is sc)) in Hrest; [|keeps_scored|done].
run_step H score w5 Hscore.
run_step H pairs w5 Hpairs.
run_step H u3 w5 Herase.
apply (keeps_run (scored_is sc)) in Herase; [|keeps_scored|done].
run_step H u4 w6 Hback.
apply (keeps_run (scored_is sc)) in Hback; [|keeps_scored|done].
run_step H u5 w7 Hrec.
apply record_scored_run in Hrec as (_ & _ & Hs).
apply mret_run in H as [-> ->].
exists pairs, score. split; [done|]. by rewrite Hs, Hback.
Qed.

Lemma best_among_one pairs score :
best_among [(pairs, score)] (Some pairs, Some score).
Proof.
exists pairs. split; [done|]. split; [apply list_elem_of_here|].
intros c ->%list_elem_of_singleton. apply tuple_ge_refl.
Qed.

(** One more round of the loop over the trims: the better of the best so
  far and the result of the next stage is the best of both. *)
Lemma best_among_app added added' best new better :
best_among added best →
best_among added' new →
is_better best.2 new.2 = Return better →
best_among (added ++ added') (if better : bool then new else best).
Proof.
unfold best_among, is_better. intros Hb Hn Hbetter.
destruct best as [bm [b|]]; cbn in *.
- destruct new as [nm [n|]]; cbn in *; [|done].
  destruct Hb as (p & -> & Hp & Hmax). destruct Hn as (q & -> & Hq & Hmax').
  injection Hbetter as <-. destruct (tuple_gt n b) eqn:E; cbn.
  + exists q. split; [done|]. split; [apply elem_of_app; by right|].
    intros c [Hc|Hc]%elem_of_app; [|by apply Hmax'].
    eapply tuple_ge_raise; [done|by apply Hmax].
  + exists p. split; [done|]. split; [apply elem_of_app; by left|].
    intros c [Hc|Hc]%elem_of_app; [by apply Hmax|].
    eapply tuple_ge_keep; [done|by apply Hmax'].
- destruct Hb as [-> ->]. injection Hbetter as <-. done.
Qed.

(** What the stages that remain return is the best of what their base
  cases scored. *)
Lemma stages_best remaining stage w r w' :
stages students options n_choices min_per_option max_per_option
       remaining stage w = (Return r, w') →
∃ added, w_scored w' = w_scored w ++ added ∧ best_among added r.
Proof.
revert stage w r w'. induction remaining as [|remaining IH];
  intros stage w r w' H.
- apply base_case_scored in H as (pairs & score & -> & Hs).
  exists [(pairs, score)]. split; [done|]. apply best_among_one.
- cbn [stages] in H.
  set (sc := w_scored w). assert (scored_is sc w) as Hw by reflexivity.
  run_step H assigned w1 Hentry.
  apply (keeps_run (scored_is sc)) in Hentry; [|keeps_scored|done].
  run_step H overfilled w2 Hover.
  run_step H trim_iterables w2 Htrims.
  apply (keeps_run (scored_is sc)) in Htrims; [|keeps_scored|done].
  run_step H trim_product w3 Hprod.
  apply (keeps_run (scored_is sc)) in Hprod; [|keeps_scored|done].
  run_step H best w4 Hloop.
  run_step H u w5 Herase.
  apply mret_run in H as [-> ->].
  apply (foldM_run (λ _ best w, ∃ added, w_scored w = sc ++ added ∧
                                          best_among added best))
    in Hloop.
  + destruct Hloop as (added & Hs & Hbest). exists added. split; [|done].
    apply (keeps_run (scored_is (sc ++ added))) in Herase; [done|keeps_scored|done].
  + exists []. rewrite app_nil_r. done.
  + clear Hloop. intros _ trim best0 v best1 v' _ (added & Hs & Hbest) Htry.
    unfold try_trim in Htry.
    run_step Htry saved v1 Hrem.
    apply (keeps_run (scored_is (sc ++ added))) in Hrem; [|keeps_scored|done].
    run_step Htry locked v2 Hlock.
    apply (keeps_run (scored_is (sc ++ added))) in Hlock; [|keeps_scored|done].
    run_step Htry new v3 Hnext.
    apply IH in Hnext as (added' & Hs' & Hnew).
    run_step Htry u1 v4 Hunlock.
    apply (keeps_run (scored_is (sc ++ added ++ added'))) in Hunlock;
      [|keeps_scored|by rewrite app_assoc, <- Hlock].
    run_step Htry better v4b Hbetter.
    run_step Htry u2 v5 Hassign.
    apply (keeps_run (scored_is (sc ++ added ++ added'))) in Hassign;
      [|keeps_scored|done].
    apply mret_run in Htry as [-> ->].
    exists (added ++ added'). split; [done|].
    by apply best_among_app.
Qed.
End best.


(** *** Locked students stay matched *)

Lemma locks_sound_blind : blind_to_random locks_sound.
Proof. by intros w rs. Qed.

Lemma locks_sound_moved w m' :
  locks_sound w → locked_are_matched m' → locks_sound (moved w m').
Proof.
  intros [_ Hv] Hm. split; [done|]. cbn. apply Forall_app. split; [done|].
  by apply Forall_singleton.
Qed.

Lemma locked_are_matched_assign s o m m' :
  locked_are_matched m → assign s o m = Return m' → locked_are_matched m'.
Proof.
  intros H (members & Hs & Hl & Ho & ->)%assign_Return x Hx. cbn [by_student by_option student_locked] in *.
  rewrite store_dict_set. destruct (decide (s = x)) as [->|Hne].
  - rewrite lookup_insert_eq. eauto.
  - rewrite lookup_insert_ne by done. by apply H.
Qed.

Lemma locked_are_matched_erase s m m' :
  locked_are_matched m → erase s m = Return m' → locked_are_matched m'.
Proof.
  intros H (o & members & Hs & Hl & Ho & Hin & ->)%erase_Return x Hx. cbn [by_student by_option student_locked] in *.
  rewrite store_dict_set. destruct (decide (s = x)) as [->|Hne].
  - congruence.
  - rewrite lookup_insert_ne by done. by apply H.
Qed.

Lemma locked_are_matched_unlock s m m' :
  locked_are_matched m → unlock s m = Return m' → locked_are_matched m'.
Proof.
  intros H [Hl ->]%unlock_Return x Hx. cbn [by_student by_option student_locked] in *.
  rewrite store_dict_set in Hx. destruct (decide (s = x)) as [->|Hne].
  - by rewrite lookup_insert_eq in Hx.
  - rewrite lookup_insert_ne in Hx by done. by apply H.
Qed.

(** Locking keeps the invariant when the student is matched. *)
Lemma locked_are_matched_lock s o m m' :
  locked_are_matched m → store (by_student m) !! s = Some (Some o) →
  lock s m = Return m' → locked_are_matched m'.
Proof.
  intros H Hs [Hl ->]%lock_Return x Hx. cbn [by_student by_option student_locked] in *.
  rewrite store_dict_set in Hx. destruct (decide (s = x)) as [->|Hne].
  - eauto.
  - rewrite lookup_insert_ne in Hx by done. by apply H.
Qed.

Lemma keeps_locks_assign s o : keeps locks_sound (mutate (assign s o)).
Proof.
  apply keeps_mutate. intros w m' Hw Hm. apply locks_sound_moved; [done|].
  eapply locked_are_matched_assign; [apply Hw|done].
Qed.

Lemma keeps_locks_erase s : keeps locks_sound (mutate (erase s)).
Proof.
  apply keeps_mutate. intros w m' Hw Hm. apply locks_sound_moved; [done|].
  eapply locked_are_matched_erase; [apply Hw|done].
Qed.

Lemma keeps_locks_unlock s : keeps locks_sound (mutate (unlock s)).
Proof.
  apply keeps_mutate. intros w m' Hw Hm. apply locks_sound_moved; [done|].
  eapply locked_are_matched_unlock; [apply Hw|done].
Qed.

(** The one place that locks after a test: [lock_all_matched] locks a
    student it has just seen matched. *)
Lemma keeps_locks_lock_matched student (k : list string → M (list string)) l :
  (∀ l, keeps locks_sound (k l)) →
  keeps locks_sound
    (matched ← query (λ m, is_matched m student);
     if matched : bool then
       locked ← query (λ m, is_locked m student);
       if locked : bool then k l
       else mutate (lock student);; k (l ++ [student])
     else k l).
Proof.
  intros Hk w Hw. unfold mbind, M_bind, query.
  destruct (is_matched (w_match w) student) as [[|]|] eqn:Em; cbn; [|by apply Hk|done].
  destruct (is_locked (w_match w) student) as [[|]|] eqn:El; cbn; [by apply Hk| |done].
  unfold mutate. destruct (lock student (w_match w)) as [m'|] eqn:E; cbn; [|done].
  apply Hk. apply locks_sound_moved; [done|].
  apply is_matched_Return in Em as (v & Hv & Eb).
  symmetry in Eb. apply bool_decide_eq_true in Eb.
  destruct v as [o|]; [|done].
  eapply locked_are_matched_lock; [apply Hw|done|done].
Qed.

Lemma keeps_locks_lock_all_matched : keeps locks_sound lock_all_matched.
Proof.
  unfold lock_all_matched. apply keeps_bind; [apply keeps_query|]. intros ks.
  apply keeps_foldM. intros l student _.
  apply (keeps_locks_lock_matched student (λ l, mret l) l).
  intros; apply keeps_ret.
Qed.

(** The other place that locks: the base case locks a student it has
    just put back. *)
Lemma keeps_locks_assign_lock s o :
  keeps locks_sound (mutate (assign s o);; mutate (lock s)).
Proof.
  intros w Hw. unfold mbind, M_bind, mutate.
  destruct (assign s o (w_match w)) as [m1|] eqn:E1; cbn; [|done].
  assert (locks_sound (moved w m1)) as H1.
  { apply locks_sound_moved; [done|].
    eapply locked_are_matched_assign; [apply Hw|done]. }
  destruct (lock s m1) as [m2|] eqn:E2; cbn; [|done].
  apply locks_sound_moved; [done|].
  apply assign_Return in E1 as (members & _ & _ & _ & ->).
  eapply (locked_are_matched_lock s o); [apply H1| |done].
  cbn. apply lookup_insert_eq.
Qed.

Lemma keeps_locks_record_scored pairs score :
  keeps locks_sound (record_scored pairs score).
Proof. by intros w. Qed.

#[local] Hint Resolve locks_sound_blind keeps_locks_assign keeps_locks_erase
  keeps_locks_unlock keeps_locks_lock_all_matched keeps_locks_assign_lock
  keeps_locks_record_scored : core.

Ltac keeps_locks := keeps_auto; auto.

Section locks.
Context (students : list Student) (options : list string) (n_choices : nat).
Context (min_per_option max_per_option : Z).

Lemma keeps_locks_base_case :
keeps locks_sound
      (assignment_algorithm_base_case students options n_choices
                                      min_per_option max_per_option).
Proof.
unfold assignment_algorithm_base_case, find_more_unhappy_students,
  find_more_unhappy_students_with, evict, erase_many.
keeps_locks.
Qed.

Lemma keeps_locks_stages remaining stage :
keeps locks_sound
      (stages students options n_choices min_per_option max_per_option
              remaining stage).
Proof.
revert stage. induction remaining as [|remaining IH]; intros stage.
- apply keeps_locks_base_case.
- cbn [stages]. unfold stage_entry, try_trim, remove_trim, unlock_many,
    assign_pairs, erase_many.
  keeps_locks.
Qed.
End locks.

(** *** The fresh matching *)

Section dict_of_full.
Context {A V : Type} (fk : A → string) (fv : A → V).

Lemma length_keys_dict_of l : length (keys (dict_of fk fv l)) ≤ length l.
Proof.
induction l as [|x l IH] using rev_ind; [done|].
rewrite dict_of_snoc, length_app. unfold dict_set.
destruct (dict_has _ _); cbn [keys length]; [lia|]. rewrite length_app. cbn. lia.
Qed.

(** A dict with as many keys as items assigned has distinct keys. *)
Lemma dict_of_full l :
length (keys (dict_of fk fv l)) = length l → NoDup (fk <$> l).
Proof.
induction l as [|x l IH] using rev_ind; intros Hlen; [constructor|].
rewrite dict_of_snoc, length_app in Hlen. unfold dict_set in Hlen.
pose proof (length_keys_dict_of l) as Hle.
destruct (dict_has (fk x) (dict_of fk fv l)) eqn:E; cbn [keys length] in Hlen;
  [lia|].
rewrite length_app in Hlen. cbn in Hlen.
assert (NoDup (fk <$> l)) as Hnd by (apply IH; lia).
rewrite fmap_app. apply NoDup_app. split; [done|]. split; [|apply NoDup_singleton].
intros k Hk ->%list_elem_of_singleton.
rewrite <- (keys_dict_of fk fv) in Hk by done.
apply (dict_of_wf fk fv l), dict_has_true in Hk. congruence.
Qed.
End dict_of_full.

(** What [Matching.__init__] builds when its two assertions hold. *)
Lemma Matching_init_Return students options m :
  Matching_init students options = Return m →
  NoDup (name <$> students) ∧ NoDup options ∧
  by_student m = dict_of name (λ _, None) students ∧
  by_option m = dict_of id (λ _, ∅) options ∧
  student_locked m = dict_of id (λ _, false) (name <$> students).
Proof.
  unfold Matching_init. intros H.
  change (fold_left _ students dict_empty)
    with (dict_of name (λ _, @None string) students) in H.
  change (fold_left _ options dict_empty)
    with (dict_of id (λ _, ∅ : gset string) options) in H.
  apply bind_Return in H as (u1 & Hs%assert_Return%bool_decide_eq_true & H).
  apply bind_Return in H as (u2 & Ho%assert_Return%bool_decide_eq_true & H).
  assert (NoDup (name <$> students)) as Hnd
    by by apply (dict_of_full name (λ _, @None string)).
  assert (NoDup options) as Hndo.
  { rewrite <- (list_fmap_id options).
    by apply (dict_of_full id (λ _, ∅ : gset string)). }
  injection H as <-. cbn [by_student by_option student_locked].
  rewrite keys_dict_of by done. done.
Qed.

Lemma store_dict_of_const {A V : Type} (fk : A → string) (v : V) l k v' :
  store (dict_of fk (λ _, v) l) !! k = Some v' → v' = v.
Proof.
  unfold dict_of. apply store_fold_set_const. intros k0 v0. cbn.
  by rewrite lookup_empty.
Qed.

Lemma Matching_init_locks students options m :
  Matching_init students options = Return m → locked_are_matched m.
Proof.
  intros (_ & _ & _ & _ & Hl)%Matching_init_Return s Hs.
  rewrite Hl in Hs. by apply store_dict_of_const in Hs.
Qed.

(** C10.  From the matching [Matching(students, options)] builds, in
    which nobody is matched or locked, every state the matching goes
    through while [recursive_assignment_algorithm] runs, up to its
    return or to the exception that ends it, has every locked student
    matched: the search locks only students it has just seen or made
    matched, and [erase] refuses a locked student. *)
Theorem locked_students_are_matched
    students options n_choices min_per_option max_per_option stage draws m :
  Matching_init students options = Return m →
  Forall locked_are_matched
    (m :: w_visited
            (recursive_assignment_algorithm students options n_choices
               min_per_option max_per_option stage (initial_world m draws)).2).
Proof.
  intros Hinit. pose proof (Matching_init_locks _ _ _ Hinit) as Hm.
  apply Forall_cons. split; [done|].
  unfold recursive_assignment_algorithm.
  apply (keeps_locks_stages students options n_choices min_per_option
           max_per_option (S n_choices - stage) stage (initial_world m draws)).
  split; [done|]. constructor.
Qed.

(** *** The shape of the matching *)

Lemma shape_kept_refl m : shape_kept m m.
Proof. unfold shape_kept. tauto. Qed.

Lemma shape_kept_trans m1 m2 m3 :
  shape_kept m1 m2 → shape_kept m2 m3 → shape_kept m1 m3.
Proof.
  intros (Hs & Ho & Hl & Hd & Hds & Ha) (Hs' & Ho' & Hl' & Hd' & Hds' & Ha').
  split; [congruence|]. split; [congruence|]. split; [congruence|].
  split; [intros o; by rewrite Hd', Hd|].
  split; [intros s; by rewrite Hds', Hds|auto].
Qed.

Lemma shape_kept_assign s o m m' : assign s o m = Return m' → shape_kept m m'.
Proof.
  intros (members & Hs & Hl & Ho & ->)%assign_Return.
  unfold shape_kept. cbn [by_student by_option student_locked].
  rewrite !keys_dict_set_present by eauto.
  split; [done|]. split; [done|]. split; [done|]. split.
  - intros o'. rewrite store_dict_set. destruct (decide (o = o')) as [<-|Hne].
    + rewrite lookup_insert_eq. split; eauto.
    + by rewrite lookup_insert_ne.
  - split; [|intros Ha; by apply agree_add].
    intros s'. rewrite store_dict_set. destruct (decide (s = s')) as [<-|Hne].
    + rewrite lookup_insert_eq. split; eauto.
    + by rewrite lookup_insert_ne.
Qed.

Lemma shape_kept_erase s m m' : erase s m = Return m' → shape_kept m m'.
Proof.
  intros (o & members & Hs & Hl & Ho & Hin & ->)%erase_Return.
  unfold shape_kept. cbn [by_student by_option student_locked].
  rewrite !keys_dict_set_present by eauto.
  split; [done|]. split; [done|]. split; [done|]. split.
  - intros o'. rewrite store_dict_set. destruct (decide (o = o')) as [<-|Hne].
    + rewrite lookup_insert_eq. split; eauto.
    + by rewrite lookup_insert_ne.
  - split; [|intros Ha; by apply agree_remove].
    intros s'. rewrite store_dict_set. destruct (decide (s = s')) as [<-|Hne].
    + rewrite lookup_insert_eq. split; eauto.
    + by rewrite lookup_insert_ne.
Qed.

Lemma shape_kept_lock s m m' : lock s m = Return m' → shape_kept m m'.
Proof.
  intros [Hl ->]%lock_Return.
  unfold shape_kept. cbn [by_student by_option student_locked].
  rewrite !keys_dict_set_present by eauto. tauto.
Qed.

Lemma shape_kept_unlock s m m' : unlock s m = Return m' → shape_kept m m'.
Proof.
  intros [Hl ->]%unlock_Return.
  unfold shape_kept. cbn [by_student by_option student_locked].
  rewrite !keys_dict_set_present by eauto. tauto.
Qed.

(** A consistent matching is determined by its shape, its students'
    options and its locks. *)
Lemma matching_eq m m' :
  shape_kept m m' →
  agree (by_student m) (by_option m) →
  (∀ s, store (by_student m') !! s = store (by_student m) !! s) →
  (∀ s, store (student_locked m') !! s = store (student_locked m) !! s) →
  m' = m.
Proof.
  intros (Hs & Ho & Hl & Hd & _ & Ha) Hagree Hbs Hlk. specialize (Ha Hagree).
  destruct m as [[ks σs] [ko σo] [kl σl]], m' as [[ks' σs'] [ko' σo'] [kl' σl']].
  cbn in *. subst.
  assert (σs' = σs) as -> by by apply map_eq.
  assert (σl' = σl) as -> by by apply map_eq.
  assert (σo' = σo) as ->; [|done].
  apply map_eq. intros o.
  destruct (σo' !! o) as [members'|] eqn:E', (σo !! o) as [members|] eqn:E.
  - f_equal. apply set_eq. intros s. split; intros Hin.
    + assert (σs !! s = Some (Some o)) as H by (apply Ha; eauto).
      apply Hagree in H as (members0 & E0 & Hin0). cbn in E0. congruence.
    + assert (σs !! s = Some (Some o)) as H by (apply Hagree; eauto).
      apply Ha in H as (members0 & E0 & Hin0). cbn in E0. congruence.
  - assert (is_Some (σo !! o)) as [? ?] by (apply Hd; rewrite E'; eauto). congruence.
  - assert (is_Some (σo' !! o)) as [? ?] by (apply Hd; rewrite E; eauto). congruence.
  - done.
Qed.

Lemma shape_from_blind m0 : blind_to_random (shape_from m0).
Proof. by intros w rs. Qed.

Lemma keeps_shape_assign m0 s o : keeps (shape_from m0) (mutate (assign s o)).
Proof.
  apply keeps_mutate. intros w m' Hw Hm. unfold shape_from. cbn.
  eapply shape_kept_trans; [apply Hw|]. by eapply shape_kept_assign.
Qed.

Lemma keeps_shape_erase m0 s : keeps (shape_from m0) (mutate (erase s)).
Proof.
  apply keeps_mutate. intros w m' Hw Hm. unfold shape_from. cbn.
  eapply shape_kept_trans; [apply Hw|]. by eapply shape_kept_erase.
Qed.

Lemma keeps_shape_lock m0 s : keeps (shape_from m0) (mutate (lock s)).
Proof.
  apply keeps_mutate. intros w m' Hw Hm. unfold shape_from. cbn.
  eapply shape_kept_trans; [apply Hw|]. by eapply shape_kept_lock.
Qed.

Lemma keeps_shape_unlock m0 s : keeps (shape_from m0) (mutate (unlock s)).
Proof.
  apply keeps_mutate. intros w m' Hw Hm. unfold shape_from. cbn.
  eapply shape_kept_trans; [apply Hw|]. by eapply shape_kept_unlock.
Qed.

Lemma keeps_shape_record_scored m0 pairs score :
  keeps (shape_from m0) (record_scored pairs score).
Proof. by intros w. Qed.

#[local] Hint Resolve shape_from_blind keeps_shape_assign keeps_shape_erase
  keeps_shape_lock keeps_shape_unlock keeps_shape_record_scored : core.

Ltac keeps_shape :=
  unfold assign_pairs, erase_many, unlock_many, lock_all_matched, stage_entry,
    remove_trim, evict, find_more_unhappy_students,
    find_more_unhappy_students_with;
  keeps_auto; auto.

(** The shape at the end of a run that started in [w]. *)
Ltac shape_of H :=
  lazymatch type of H with
  | ?c ?w = (_, ?w') =>
      let Hs := fresh "Hshape" in
      assert (shape_kept (w_match w) (w_match w')) as Hs;
      [ eapply (keeps_run (shape_from (w_match w)) c w);
        [ solve [keeps_shape] | apply shape_kept_refl | exact H ] | ]
  end.

(** *** What the loops over students do to the matching *)

Lemma erase_many_run l w u w' :
  erase_many l w = (Return u, w') →
  student_locked (w_match w') = student_locked (w_match w) ∧
  (∀ s, s ∈ l → store (by_student (w_match w')) !! s = Some None) ∧
  (∀ s, s ∉ l → store (by_student (w_match w')) !! s
                = store (by_student (w_match w)) !! s).
Proof.
  unfold erase_many. intros H.
  apply (forM__run (λ done v,
    student_locked (w_match v) = student_locked (w_match w) ∧
    (∀ s, s ∈ done → store (by_student (w_match v)) !! s = Some None) ∧
    (∀ s, s ∉ done → store (by_student (w_match v)) !! s
                     = store (by_student (w_match w)) !! s))) in H; [done| |].
  - split; [done|]. split; [by intros s ?%elem_of_nil|done].
  - clear. intros done x v u v' _ (Hl & Hin & Hout) Hx.
    apply mutate_run in Hx as (m' & Hm & ->).
    apply erase_Return in Hm as (o & members & Hs & _ & _ & _ & ->).
    cbn [w_match moved student_locked by_student]. rewrite store_dict_set.
    split; [done|]. split.
    + intros s Hs'. destruct (decide (x = s)) as [->|Hne].
      * by rewrite lookup_insert_eq.
      * rewrite lookup_insert_ne by done. apply Hin.
        apply elem_of_app in Hs' as [?|?%list_elem_of_singleton]; [done|congruence].
    + intros s Hs'. apply not_elem_of_app in Hs' as [Hs1 Hs2%not_elem_of_cons].
      rewrite lookup_insert_ne by (intros ->; by destruct Hs2). by apply Hout.
Qed.

Lemma assign_pairs_run pairs w u w' :
  assign_pairs pairs w = (Return u, w') →
  student_locked (w_match w') = student_locked (w_match w) ∧
  (∀ so, so ∈ pairs →
         store (by_student (w_match w')) !! so.1 = Some (Some so.2)) ∧
  (∀ s, s ∉ pairs.*1 → store (by_student (w_match w')) !! s
                       = store (by_student (w_match w)) !! s).
Proof.
  unfold assign_pairs. intros H.
  apply (forM__run (λ done v,
    student_locked (w_match v) = student_locked (w_match w) ∧
    (∀ so, so ∈ done →
           store (by_student (w_match v)) !! so.1 = Some (Some so.2)) ∧
    (∀ s, s ∉ done.*1 → store (by_student (w_match v)) !! s
                        = store (by_student (w_match w)) !! s))) in H; [done| |].
  - split; [done|]. split; [by intros s ?%elem_of_nil|done].
  - clear. intros done x v u v' _ (Hl & Hin & Hout) Hx.
    apply mutate_run in Hx as (m' & Hm & ->).
    apply assign_Return in Hm as (members & Hs & _ & _ & ->).
    cbn [w_match moved student_locked by_student]. rewrite store_dict_set.
    split; [done|]. split.
    + intros so [Hso|Hso%list_elem_of_singleton]%elem_of_app.
      * rewrite lookup_insert_ne; [by apply Hin|].
        intros E. specialize (Hin so Hso). rewrite <- E in Hin. congruence.
      * subst so. by rewrite lookup_insert_eq.
    + intros s Hs'. rewrite fmap_app in Hs'.
      apply not_elem_of_app in Hs' as [Hs1 Hs2].
      rewrite lookup_insert_ne; [by apply Hout|].
      intros E. apply Hs2. rewrite <- E. cbn. apply list_elem_of_here.
Qed.

Lemma unlock_many_run l w u w' :
  unlock_many l w = (Return u, w') →
  by_student (w_match w') = by_student (w_match w) ∧
  by_option (w_match w') = by_option (w_match w) ∧
  (∀ s, s ∈ l → store (student_locked (w_match w')) !! s = Some false) ∧
  (∀ s, s ∉ l → store (student_locked (w_match w')) !! s
                = store (student_locked (w_match w)) !! s).
Proof.
  unfold unlock_many. intros H.
  apply (forM__run (λ done v,
    by_student (w_match v) = by_student (w_match w) ∧
    by_option (w_match v) = by_option (w_match w) ∧
    (∀ s, s ∈ done → store (student_locked (w_match v)) !! s = Some false) ∧
    (∀ s, s ∉ done → store (student_locked (w_match v)) !! s
                     = store (student_locked (w_match w)) !! s))) in H; [done| |].
  - split; [done|]. split; [done|]. split; [by intros s ?%elem_of_nil|done].
  - clear. intros done x v u v' _ (Hs & Ho & Hin & Hout) Hx.
    apply mutate_run in Hx as (m' & Hm & ->).
    apply unlock_Return in Hm as [_ ->].
    cbn [w_match moved student_locked by_student by_option]. rewrite store_dict_set.
    split; [done|]. split; [done|]. split.
    + intros s Hs'. destruct (decide (x = s)) as [->|Hne].
      * by rewrite lookup_insert_eq.
      * rewrite lookup_insert_ne by done. apply Hin.
        apply elem_of_app in Hs' as [?|?%list_elem_of_singleton]; [done|congruence].
    + intros s Hs'. apply not_elem_of_app in Hs' as [Hs1 Hs2%not_elem_of_cons].
      rewrite lookup_insert_ne by (intros ->; by destruct Hs2). by apply Hout.
Qed.

Lemma lock_all_matched_run w locked w' :
  lock_all_matched w = (Return locked, w') →
  by_student (w_match w') = by_student (w_match w) ∧
  by_option (w_match w') = by_option (w_match w) ∧
  (∀ s, s ∈ locked → store (student_locked (w_match w)) !! s = Some false) ∧
  (∀ s, s ∉ locked → store (student_locked (w_match w')) !! s
                     = store (student_locked (w_match w)) !! s).
Proof.
  unfold lock_all_matched. intros H. run_step H ks w1 Hks. clear Hks.
  apply (foldM_run (λ _ acc v,
    by_student (w_match v) = by_student (w_match w) ∧
    by_option (w_match v) = by_option (w_match w) ∧
    (∀ s, s ∈ acc → store (student_locked (w_match w)) !! s = Some false ∧
                    store (student_locked (w_match v)) !! s = Some true) ∧
    (∀ s, s ∉ acc → store (student_locked (w_match v)) !! s
                    = store (student_locked (w_match w)) !! s))) in H.
  - destruct H as (Hs & Ho & Hin & Hout). repeat split; try done. by apply Hin.
  - split; [done|]. split; [done|]. split; [by intros s ?%elem_of_nil|done].
  - clear. intros _ x acc v acc' v' _ (Hs & Ho & Hin & Hout) Hx.
    run_step Hx matched v1 Hm. destruct matched.
    2:{ by apply mret_run in Hx as [-> ->]. }
    run_step Hx locked v1 Hl. destruct locked.
    { by apply mret_run in Hx as [-> ->]. }
    run_mutate Hx m' Hlock. apply mret_run in Hx as [-> ->].
    apply lock_Return in Hlock as [Hfalse ->].
    cbn [w_match moved student_locked by_student by_option]. rewrite store_dict_set.
    split; [done|]. split; [done|].
    assert (x ∉ acc) as Hx.
    { intros [_ Ht]%Hin. congruence. }
    split.
    + intros s [Hs'|Hs'%list_elem_of_singleton]%elem_of_app.
      * rewrite lookup_insert_ne by (intros ->; done). by apply Hin.
      * subst s. rewrite lookup_insert_eq. split; [|done]. by rewrite <- Hout.
    + intros s Hs'. apply not_elem_of_app in Hs' as [Hs1 Hs2%not_elem_of_cons].
      rewrite lookup_insert_ne by (intros ->; by destruct Hs2). by apply Hout.
Qed.

Lemma stage_entry_run students stage w assigned w' :
  stage_entry students stage w = (Return assigned, w') →
  student_locked (w_match w') = student_locked (w_match w) ∧
  (∀ s, s ∈ assigned →
        store (by_student (w_match w)) !! s = Some None ∧
        store (student_locked (w_match w)) !! s = Some false) ∧
  (∀ s, s ∉ assigned → store (by_student (w_match w')) !! s
                       = store (by_student (w_match w)) !! s).
Proof.
  unfold stage_entry. intros H.
  apply (foldM_run (λ _ acc v,
    student_locked (w_match v) = student_locked (w_match w) ∧
    (∀ s, s ∈ acc →
          store (by_student (w_match w)) !! s = Some None ∧
          store (student_locked (w_match w)) !! s = Some false) ∧
    (∀ s, s ∉ acc → store (by_student (w_match v)) !! s
                    = store (by_student (w_match w)) !! s))) in H; [done| |].
  - split; [done|]. split; [by intros s ?%elem_of_nil|done].
  - clear. intros _ st acc v acc' v' _ (Hl & Hin & Hout) Hx.
    run_step Hx matched v1 Hm. destruct matched.
    { by apply mret_run in Hx as [-> ->]. }
    run_step Hx ch v1 Hc. run_mutate Hx m' Ha.
    apply mret_run in Hx as [-> ->].
    apply assign_Return in Ha as (members & Hs & Hlk & _ & ->).
    cbn [w_match moved student_locked by_student]. rewrite store_dict_set.
    split; [done|]. split.
    + intros s [Hs'|Hs'%list_elem_of_singleton]%elem_of_app; [by apply Hin|].
      subst s. destruct (decide (get_name st ∈ acc)) as [Hacc|Hacc]; [by apply Hin|].
      rewrite <- Hout, <- Hl by done. done.
    + intros s Hs'. apply not_elem_of_app in Hs' as [Hs1 Hs2%not_elem_of_cons].
      rewrite lookup_insert_ne by (intros E; destruct Hs2; congruence). by apply Hout.
Qed.

(** A loop over the groups of a trim is a loop over their students. *)
Lemma foldM_foldM {A B : Type} (f : B → A → M B) acc (ls : list (list A)) w :
  foldM (foldM f) acc ls w = foldM f acc (concat ls) w.
Proof.
  revert acc w. induction ls as [|l ls IH]; intros acc w; [reflexivity|].
  cbn [foldM concat]. revert acc w. induction l as [|x l IHl]; intros acc w.
  - cbn. apply IH.
  - cbn [foldM app]. specialize (IHl). unfold mbind, M_bind in *.
    destruct (f acc x w) as [[acc'|e] w1]; [|reflexivity].
    apply IHl.
Qed.

Lemma remove_trim_run trim w saved w' :
  remove_trim trim w = (Return saved, w') →
  saved.*1 = concat trim ∧ NoDup (concat trim) ∧
  student_locked (w_match w') = student_locked (w_match w) ∧
  (∀ so, so ∈ saved →
         store (by_student (w_match w)) !! so.1 = Some (Some so.2)) ∧
  (∀ s, s ∈ concat trim → store (by_student (w_match w')) !! s = Some None) ∧
  (∀ s, s ∉ concat trim → store (by_student (w_match w')) !! s
                          = store (by_student (w_match w)) !! s).
Proof.
  unfold remove_trim. rewrite foldM_foldM. intros H.
  apply (foldM_run (λ done acc v,
    acc.*1 = done ∧ NoDup done ∧
    student_locked (w_match v) = student_locked (w_match w) ∧
    (∀ so, so ∈ acc →
           store (by_student (w_match w)) !! so.1 = Some (Some so.2)) ∧
    (∀ s, s ∈ done → store (by_student (w_match v)) !! s = Some None) ∧
    (∀ s, s ∉ done → store (by_student (w_match v)) !! s
                     = store (by_student (w_match w)) !! s))) in H; [done| |].
  - split; [done|]. split; [constructor|]. split; [done|].
    split; [by intros s ?%elem_of_nil|]. split; [by intros s ?%elem_of_nil|done].
  - clear. intros done x acc v acc' v' _ (Hfst & Hnd & Hl & Hsaved & Hin & Hout) Hx.
    run_step Hx v0 v1 Hget. run_mutate Hx m' He.
    run_step Hx o v2 Ho. apply mret_run in Hx as [-> ->].
    apply erase_Return in He as (o' & members & Hs & _ & _ & _ & ->).
    unfold get_match in Hget. apply dict_get_Return in Hget.
    assert (v0 = Some o') as -> by congruence.
    apply mret_run in Ho as [-> ->].
    assert (x ∉ done) as Hx.
    { intros Hx%Hin. congruence. }
    cbn [w_match moved student_locked by_student]. rewrite store_dict_set.
    split; [by rewrite fmap_app, Hfst|]. split.
    { apply NoDup_app. split; [done|]. split; [|apply NoDup_singleton].
      intros s Hs' ->%list_elem_of_singleton. done. }
    split; [done|]. split; [|split].
    + intros so [Hso|Hso%list_elem_of_singleton]%elem_of_app; [by apply Hsaved|].
      subst so. cbn. by rewrite <- Hout.
    + intros s [Hs'|Hs'%list_elem_of_singleton]%elem_of_app.
      * rewrite lookup_insert_ne by (intros ->; done). by apply Hin.
      * subst s. by rewrite lookup_insert_eq.
    + intros s Hs'. apply not_elem_of_app in Hs' as [Hs1 Hs2%not_elem_of_cons].
      rewrite lookup_insert_ne by (intros ->; by destruct Hs2). by apply Hout.
Qed.

(** [random.shuffle] permutes, and touches only the generator. *)
Lemma shuffle_draws_run {A : Type} fuel (l : list A) w l' w' :
  shuffle_draws fuel l w = (Return l', w') →
  l' ≡ₚ l ∧ w_match w' = w_match w ∧ w_visited w' = w_visited w ∧
  w_scored w' = w_scored w.
Proof.
  revert l w l' w'. induction fuel as [|fuel IH]; intros l w l' w' H.
  - by apply mret_run in H as [-> ->].
  - cbn [shuffle_draws] in H. run_step H j w1 Hj.
    assert (w_match w1 = w_match w ∧ w_visited w1 = w_visited w ∧
            w_scored w1 = w_scored w) as (Hm & Hv & Hs).
    { unfold randbelow in Hj. destruct (w_random w); by injection Hj as _ <-. }
    destruct (l !! j) as [x|] eqn:E.
    + run_step H rest w2 Hrest. apply mret_run in H as [-> ->].
      apply IH in Hrest as (Hp & Hm' & Hv' & Hs').
      split; [|split; [congruence|split; congruence]].
      rewrite Hp. symmetry. by apply delete_Permutation.
    + apply mret_run in H as [-> ->]. done.
Qed.

Lemma shuffle_run {A : Type} (l : list A) w l' w' :
  shuffle l w = (Return l', w') →
  l' ≡ₚ l ∧ w_match w' = w_match w ∧ w_visited w' = w_visited w ∧
  w_scored w' = w_scored w.
Proof. apply shuffle_draws_run. Qed.

(** *** The base case *)

Lemma filterM_Return {A : Type} (f : A → result bool) (l r : list A) :
  filterM f l = Return r →
  r = filter (λ x, f x = Return true) l ∧ ∀ x, x ∈ l → ∃ b, f x = Return b.
Proof.
  revert r. induction l as [|x l IH]; intros r H.
  - injection H as <-. split; [done|]. by intros x ?%elem_of_nil.
  - cbn [filterM] in H. apply bind_Return in H as (b & Hb & H).
    apply bind_Return in H as (ys & Hys & H). injection H as <-.
    destruct (IH ys Hys) as [-> Hall]. split.
    + rewrite filter_cons. destruct b.
      * by rewrite decide_True.
      * rewrite decide_False; [done|]. congruence.
    + intros y [->|Hy]%elem_of_cons; eauto.
Qed.

Lemma list_unmatched_students_Return m l :
  list_unmatched_students m = Return l →
  l = filter (λ s, store (by_student m) !! s = Some None) (keys (by_student m)).
Proof.
  unfold list_unmatched_students. intros [-> Hall]%filterM_Return.
  apply list_filter_iff. intros s. split.
  - intros H. apply bind_Return in H as (b & Hb & H).
    apply is_matched_Return in Hb as (v & Hv & ->). injection H as H.
    apply negb_true_iff, bool_decide_eq_false in H.
    destruct v; [by destruct H|done].
  - intros H. by rewrite (is_matched_store _ _ _ H).
Qed.

(** The branch of the base case that evicts students never gets past
    the eviction: [find_more_unhappy_students] raises on the first
    option, and with no option at all it returns an empty queue, whose
    first item the base case then asks for. *)
Lemma eviction_raises students options n_choices count w r w' :
  0 < count →
  ¬ (unhappy_queue ← find_more_unhappy_students students options n_choices;
     evict unhappy_queue count) w = (Return r, w').
Proof.
  intros Hcount H. run_step H queue w1 Hq.
  unfold find_more_unhappy_students, find_more_unhappy_students_with in Hq.
  run_step Hq hp w2 Hhp. destruct hp as [happiness priority].
  run_step Hq tiers w2 Htiers.
  destruct options as [|o options].
  - apply mret_run in Htiers as [-> ->].
    run_step Hq queue0 w3 Hq0. run_step Hq queue1 w3 Hq1.
    run_step Hq queue2 w4 Hq2. run_step Hq queue3 w4 Hq3.
    apply mret_run in Hq as [-> ->].
    assert (queue3 = []) as ->.
    { unfold sort_by_key in Hq3. apply bind_Return in Hq3 as (ks & Hks & Hq3).
      destruct queue2 as [|x queue2]; [by injection Hks as <-; injection Hq3 as <-|].
      cbn in Hks. done. }
    unfold evict in H. destruct count as [|count]; [lia|].
    cbn [seq foldM] in H. run_step H acc w5 Hacc. by run_step Hacc s w6 Hs.
  - cbn [foldM] in Htiers. run_step Htiers tiers1 w3 Ht.
    run_step Ht l w4 Hl. done.
Qed.

(** The two loops that place the unhappy students touch no other student. *)
Lemma fill_underfilled_run unhappy underfilled w u w' :
  forM_ (λ io : nat * string,
           student ← lift (index unhappy io.1); mutate (assign student io.2))
        (imap pair underfilled) w = (Return u, w') →
  student_locked (w_match w') = student_locked (w_match w) ∧
  (∀ s, s ∉ unhappy → store (by_student (w_match w')) !! s
                      = store (by_student (w_match w)) !! s).
Proof.
  intros H.
  apply (forM__run (λ _ v,
    student_locked (w_match v) = student_locked (w_match w) ∧
    (∀ s, s ∉ unhappy → store (by_student (w_match v)) !! s
                        = store (by_student (w_match w)) !! s))) in H; [done|done|].
  clear. intros _ io v u v' _ (Hl & Hout) Hx.
  run_step Hx student v1 Hi. apply mutate_run in Hx as (m' & Ha & ->).
  apply assign_Return in Ha as (members & _ & _ & _ & ->).
  cbn [w_match moved student_locked by_student]. rewrite store_dict_set.
  split; [done|]. intros s Hs. rewrite lookup_insert_ne; [by apply Hout|].
  intros ->. apply Hs. unfold index in Hi.
  destruct (unhappy !! io.1) eqn:E; [|done]. injection Hi as ->.
  by eapply list_elem_of_lookup_2.
Qed.

Lemma fill_empty_spots_run unhappy empty_spots (n : nat) indices w u w' :
  forM_ (λ i, let j := i - n in
              student ← lift (index unhappy i);
              option ← lift (index empty_spots j);
              mutate (assign student option))
        indices w = (Return u, w') →
  student_locked (w_match w') = student_locked (w_match w) ∧
  (∀ s, s ∉ unhappy → store (by_student (w_match w')) !! s
                      = store (by_student (w_match w)) !! s).
Proof.
  intros H.
  apply (forM__run (λ _ v,
    student_locked (w_match v) = student_locked (w_match w) ∧
    (∀ s, s ∉ unhappy → store (by_student (w_match v)) !! s
                        = store (by_student (w_match w)) !! s))) in H; [done|done|].
  clear. intros _ i v u v' _ (Hl & Hout) Hx. cbn zeta in Hx.
  run_step Hx student v1 Hi. run_step Hx o v2 Ho.
  apply mutate_run in Hx as (m' & Ha & ->).
  apply assign_Return in Ha as (members & _ & _ & _ & ->).
  cbn [w_match moved student_locked by_student]. rewrite store_dict_set.
  split; [done|]. intros s Hs. rewrite lookup_insert_ne; [by apply Hout|].
  intros ->. apply Hs. unfold index in Hi.
  destruct (unhappy !! i) eqn:E; [|done]. injection Hi as ->.
  by eapply list_elem_of_lookup_2.
Qed.

Section frame.
Context (students : list Student) (options : list string) (n_choices : nat).
Context (min_per_option max_per_option : Z).

Lemma keeps_shape_base_case m0 :
keeps (shape_from m0)
      (assignment_algorithm_base_case students options n_choices
                                      min_per_option max_per_option).
Proof. unfold assignment_algorithm_base_case. keeps_shape. Qed.

(** A base case that returns has put the matching back. *)
Lemma base_case_frame w r w' :
agree (by_student (w_match w)) (by_option (w_match w)) →
assignment_algorithm_base_case students options n_choices
  min_per_option max_per_option w = (Return r, w') →
w_match w' = w_match w.
Proof.
intros Hagree H.
assert (shape_kept (w_match w) (w_match w')) as Hshape.
{ eapply (keeps_run (shape_from (w_match w)));
    [apply keeps_shape_base_case|apply shape_kept_refl|exact H]. }
unfold assignment_algorithm_base_case in H.
run_step H n_unhappy w1 Hn.
run_step H underfilled w1 Hu.
run_step H evicted w1 Hev.
case_bool_decide as Hcmp.
{ apply eviction_raises in Hev; [done|lia]. }
apply mret_run in Hev as [-> ->].
run_step H unhappy0 w2 Hun.
apply list_unmatched_students_Return in Hun.
run_step H unhappy w2 Hsh.
apply shuffle_run in Hsh as (Hperm & Hm2 & _ & _).
run_step H u1 w3 Hfill.
apply fill_underfilled_run in Hfill as (Hl3 & Hout3).
run_step H u2 w4 Hrest.
assert (student_locked (w_match w4) = student_locked (w_match w3) ∧
        (∀ s, s ∉ unhappy → store (by_student (w_match w4)) !! s
                            = store (by_student (w_match w3)) !! s))
  as (Hl4 & Hout4).
{ case_bool_decide.
  - run_step Hrest spots0 w5 He0. run_step Hrest spots w5 He.
    apply shuffle_run in He as (_ & Hm5 & _ & _). rewrite <- Hm5.
    by apply fill_empty_spots_run in Hrest.
  - by apply mret_run in Hrest as [_ ->]. }
run_step H score w5 Hscore.
run_step H pairs w5 Hpairs.
run_step H u3 w5 Herase.
apply erase_many_run in Herase as (Hl5 & Hin5 & Hout5).
run_step H u4 w6 Hback.
run_step H u5 w7 Hrec.
apply record_scored_run in Hrec as (Hm7 & _ & _).
apply mret_run in H as [-> ->].
apply matching_eq; [done|done| |].
- intros s. rewrite Hm7. destruct (decide (s ∈ unhappy)) as [Hs|Hs].
  + rewrite Hin5 by done. rewrite Hperm, Hun in Hs.
    by apply list_elem_of_filter in Hs as [-> _].
  + by rewrite Hout5, Hout4, Hout3, Hm2.
- intros s. by rewrite Hm7, Hl5, Hl4, Hl3, Hm2.
Qed.

(** One round of the loop over the trims puts the matching back, when
  the next stage does. *)
Lemma try_trim_frame next_stage best trim w r w' :
(∀ v r v', agree (by_student (w_match v)) (by_option (w_match v)) →
           next_stage v = (Return r, v') → w_match v' = w_match v) →
keeps (shape_from (w_match w)) next_stage →
agree (by_student (w_match w)) (by_option (w_match w)) →
try_trim next_stage best trim w = (Return r, w') →
w_match w' = w_match w.
Proof.
intros Hnext Hkeeps Hagree H.
assert (shape_kept (w_match w) (w_match w')) as Hshape.
{ eapply (keeps_run (shape_from (w_match w)));
    [|apply shape_kept_refl|exact H].
  unfold try_trim. keeps_shape. }
unfold try_trim in H.
run_step H saved w1 Hrem. shape_of Hrem. rename Hshape0 into Hshape1.
apply remove_trim_run in Hrem as (Hfst & _ & Hl1 & Hsaved & Hin1 & Hout1).
run_step H locked w2 Hlock. shape_of Hlock. rename Hshape0 into Hshape2.
apply lock_all_matched_run in Hlock as (Hs2 & Ho2 & Hin2 & Hout2).
run_step H new w3 Hnew.
apply Hnext in Hnew.
2:{ apply Hshape2, Hshape1, Hagree. }
run_step H u1 w4 Hunlock.
apply unlock_many_run in Hunlock as (Hs4 & Ho4 & Hin4 & Hout4).
run_step H better w5 Hbetter.
run_step H u2 w6 Hassign.
apply assign_pairs_run in Hassign as (Hl6 & Hin6 & Hout6).
apply mret_run in H as [-> ->].
apply matching_eq; [done|done| |].
- intros s. destruct (decide (s ∈ saved.*1)) as [Hs|Hs].
  + apply list_elem_of_fmap in Hs as (so & -> & Hso).
    by rewrite Hin6, Hsaved.
  + rewrite Hout6, Hs4, Hnew, Hs2 by done. apply Hout1. by rewrite <- Hfst.
- intros s. rewrite Hl6. destruct (decide (s ∈ locked)) as [Hs|Hs].
  + by rewrite Hin4, <- Hl1, Hin2.
  + by rewrite Hout4, Hnew, Hout2, Hl1.
Qed.

Lemma keeps_shape_stages m0 remaining stage :
keeps (shape_from m0)
      (stages students options n_choices min_per_option max_per_option
              remaining stage).
Proof.
revert stage. induction remaining as [|remaining IH]; intros stage.
- apply keeps_shape_base_case.
- cbn [stages]. unfold try_trim. keeps_shape.
Qed.

(** The stages that remain put the matching back. *)
Lemma stages_frame remaining stage w r w' :
agree (by_student (w_match w)) (by_option (w_match w)) →
stages students options n_choices min_per_option max_per_option
       remaining stage w = (Return r, w') →
w_match w' = w_match w.
Proof.
revert stage w r w'. induction remaining as [|remaining IH];
  intros stage w r w' Hagree H.
- by eapply base_case_frame.
- pose proof H as Hall.
  apply (keeps_run (shape_from (w_match w))) in Hall;
    [|apply keeps_shape_stages|apply shape_kept_refl].
  cbn [stages] in H.
  run_step H assigned w1 Hentry. shape_of Hentry.
  apply stage_entry_run in Hentry as (Hl1 & Hin1 & Hout1).
  run_step H overfilled w2 Hover.
  run_step H trim_iterables w2 Htrims.
  assert (w2 = w1) as ->.
  { apply (forM_run (λ _ _ v, v = w1)) in Htrims; [done|done|].
    intros _ _ o v y v' _ -> Hq. by apply query_run in Hq as [_ ->]. }
  run_step H trim_product w3 Hprod.
  assert (w3 = w1) as ->.
  { case_bool_decide; [by apply mret_run in Hprod as [_ ->]|by apply raise_run in Hprod]. }
  run_step H best w4 Hloop.
  apply (foldM_run (λ _ _ v, w_match v = w_match w1)) in Hloop; [|done|].
  2:{ intros _ trim best0 v best1 v' _ Hv Htry. rewrite <- Hv.
      eapply try_trim_frame; [|apply keeps_shape_stages| |exact Htry].
      - intros v0 r0 v0' Ha0 H0. by eapply IH.
      - rewrite Hv. by apply Hshape. }
  run_step H u w5 Herase.
  apply erase_many_run in Herase as (Hl5 & Hin5 & Hout5).
  apply mret_run in H as [-> ->].
  apply matching_eq; [done|done| |].
  + intros s. destruct (decide (s ∈ assigned)) as [Hs|Hs].
    * rewrite Hin5 by done. symmetry. by apply Hin1.
    * by rewrite Hout5, Hloop, Hout1.
  + intros s. by rewrite Hl5, Hloop, Hl1.
Qed.
End frame.

(** C3.  A call of [recursive_assignment_algorithm], at any stage and
    so also of the base case, that returns leaves the matching as it
    found it: [by_student], [by_option] and [student_locked] are equal
    to what they were before the call, provided the matching was
    consistent then ([by_student[s] == o] exactly when [s] is in
    [by_option[o]]), as every matching the class builds is. *)
Theorem search_restores_matching
    students options n_choices min_per_option max_per_option stage w r w' :
  agree (by_student (w_match w)) (by_option (w_match w)) →
  recursive_assignment_algorithm students options n_choices
    min_per_option max_per_option stage w = (Return r, w') →
  by_student (w_match w') = by_student (w_match w) ∧
  by_option (w_match w') = by_option (w_match w) ∧
  student_locked (w_match w') = student_locked (w_match w).
Proof.
  intros Hagree H. unfold recursive_assignment_algorithm in H.
  apply stages_frame in H; [|done]. by rewrite H.
Qed.

(** *** How full the options are *)

Lemma dict_wf_shape_by_option m m' :
  shape_kept m m' → dict_wf (by_option m) → dict_wf (by_option m').
Proof.
  intros (_ & Ho & _ & Hd & _) [Hnd Hk]. split; rewrite Ho; [done|].
  intros k. by rewrite Hk, Hd.
Qed.

Lemma dict_wf_shape_by_student m m' :
  shape_kept m m' → dict_wf (by_student m) → dict_wf (by_student m').
Proof.
  intros (Hs & _ & _ & _ & Hd & _) [Hnd Hk]. split; rewrite Hs; [done|].
  intros k. by rewrite Hk, Hd.
Qed.

(** An assignment adds one to the occupancy of its option. *)
Lemma occupancy_assign s o m m' o' :
  agree (by_student m) (by_option m) →
  assign s o m = Return m' →
  occupancy (by_option m') o' =
  occupancy (by_option m) o' + (if decide (o' = o) then 1 else 0).
Proof.
  intros Hagree (members & Hs & _ & Ho & ->)%assign_Return.
  unfold occupancy. cbn [by_option]. rewrite store_dict_set.
  destruct (decide (o' = o)) as [->|Hne].
  - rewrite lookup_insert_eq, Ho.
    assert (s ∉ members) as Hnot.
    { intros Hin. assert (store (by_student m) !! s = Some (Some o)) as H
        by (apply Hagree; eauto). congruence. }
    rewrite size_union by set_solver. rewrite size_singleton. done.
  - rewrite lookup_insert_ne by done. lia.
Qed.

Lemma get_n_unmatched_Return m n :
  get_n_unmatched m = Return n →
  n = length (filter (λ s, store (by_student m) !! s = Some None)
                     (keys (by_student m))).
Proof.
  unfold get_n_unmatched.
  assert (∀ l acc n,
            foldM (λ total student,
                     matched ← is_matched m student;
                     Return (if matched : bool then total else S total)) acc l
            = Return n →
            n = acc + length (filter (λ s, store (by_student m) !! s = Some None) l))
    as Hgen.
  { induction l as [|s l IH]; intros acc n0 H.
    - injection H as <-. cbn. lia.
    - cbn [foldM] in H. apply bind_Return in H as (acc' & Hs & H).
      apply bind_Return in Hs as (b & Hb & Hs). injection Hs as <-.
      apply is_matched_Return in Hb as (v & Hv & ->).
      apply IH in H. rewrite filter_cons. rewrite H.
      destruct v as [o|].
      + rewrite bool_decide_eq_true_2 by done.
        rewrite decide_False by congruence. done.
      + rewrite bool_decide_eq_false_2 by (intros E; by apply E).
        rewrite decide_True by done. cbn. lia. }
  intros H. apply Hgen in H. lia.
Qed.

(** What [reduce_to_pairs] returns: a pair for every key, in order. *)
Lemma reduce_to_pairs_Return m pairs :
  reduce_to_pairs m = Return pairs →
  Forall2 (λ s p, p.1 = s ∧ store (by_student m) !! s = Some (Some p.2))
          (keys (by_student m)) pairs.
Proof.
  unfold reduce_to_pairs. generalize (keys (by_student m)) as ks. intros ks.
  revert pairs. induction ks as [|s ks IH]; intros pairs H.
  - injection H as <-. constructor.
  - cbn [forM] in H. apply bind_Return in H as (p & Hp & H).
    apply bind_Return in H as (ps & Hps & H). injection H as <-.
    constructor; [|by apply IH].
    apply bind_Return in Hp as (b & Hb & Hp).
    apply bind_Return in Hp as (u & _ & Hp).
    apply bind_Return in Hp as (v & Hv%dict_get_Return & Hp).
    destruct v as [o|]; [|done]. injection Hp as <-. done.
Qed.

Lemma pairs_count (σ : gmap string (option string)) ks
    (pairs : list (string * string)) o :
  Forall2 (λ s p, p.1 = s ∧ σ !! s = Some (Some p.2)) ks pairs →
  pairs.*1 = ks ∧
  occurrences o pairs.*2 = length (filter (λ s, σ !! s = Some (Some o)) ks).
Proof.
  induction 1 as [|s p ks ps [<- Hs] Hrest [IH1 IH2]]; [done|].
  split; [cbn; by rewrite IH1|].
  cbn [fmap list_fmap]. unfold occurrences in *. rewrite !filter_cons, Hs.
  destruct (decide (o = p.2)) as [->|Hne].
  - rewrite decide_True by done. cbn. by rewrite IH2.
  - rewrite decide_False by congruence. done.
Qed.

(** The pairs name an option as often as it holds students. *)
Lemma occurrences_pairs m pairs o members :
  agree (by_student m) (by_option m) →
  dict_wf (by_student m) →
  reduce_to_pairs m = Return pairs →
  store (by_option m) !! o = Some members →
  pairs.*1 = keys (by_student m) ∧ occurrences o pairs.*2 = size members.
Proof.
  intros Hagree [Hnd Hk] Hp%reduce_to_pairs_Return Ho.
  apply (pairs_count _ _ _ o) in Hp as [Hfst Hocc].
  split; [done|]. rewrite Hocc.
  rewrite <- (size_list_to_set (C:=gset string)) by (by apply NoDup_filter).
  f_equal. apply set_eq. intros s.
  rewrite elem_of_list_to_set, list_elem_of_filter. split.
  - intros [Hs _]. apply Hagree in Hs as (members' & Hm & Hin). congruence.
  - intros Hin. assert (store (by_student m) !! s = Some (Some o)) as Hs
      by (apply Hagree; eauto).
    split; [done|]. apply Hk. eauto.
Qed.

Lemma occurrences_singleton o x : occurrences o [x] = if decide (o = x) then 1 else 0.
Proof. unfold occurrences. rewrite filter_cons. by destruct (decide _). Qed.

Lemma occurrences_Permutation o l l' : l ≡ₚ l' → occurrences o l = occurrences o l'.
Proof. unfold occurrences. by intros ->. Qed.

Lemma occurrences_take_le o (k : nat) l : occurrences o (take k l) ≤ occurrences o l.
Proof.
  rewrite <- (take_drop k l) at 2. rewrite occurrences_app. lia.
Qed.

Lemma snd_imap_pair {A : Type} (g : nat → nat) (l : list A) :
  (imap (λ i x, (g i, x)) l).*2 = l.
Proof.
  revert g. induction l as [|x l IH]; intros g; [done|].
  cbn. f_equal. apply (IH (g ∘ S)).
Qed.

(** The loop over the underfilled options adds to each option as often
    as it is listed. *)
Lemma fill_underfilled_occupancy unhappy underfilled w u w' :
  agree (by_student (w_match w)) (by_option (w_match w)) →
  forM_ (λ io : nat * string,
           student ← lift (index unhappy io.1); mutate (assign student io.2))
        (imap pair underfilled) w = (Return u, w') →
  shape_kept (w_match w) (w_match w') ∧
  ∀ o, occupancy (by_option (w_match w')) o =
       occupancy (by_option (w_match w)) o + occurrences o underfilled.
Proof.
  intros Hagree H.
  apply (forM__run (λ done v,
    shape_kept (w_match w) (w_match v) ∧
    ∀ o, occupancy (by_option (w_match v)) o =
         occupancy (by_option (w_match w)) o + occurrences o done.*2)) in H.
  - by rewrite (snd_imap_pair id) in H.
  - split; [apply shape_kept_refl|]. intros o. cbn. unfold occurrences. cbn. lia.
  - clear H. intros done io v u0 v' _ (Hshape & Hocc) Hx.
    run_step Hx student v1 Hi. apply mutate_run in Hx as (m' & Ha & ->).
    cbn [w_match moved]. split.
    + eapply shape_kept_trans; [done|]. by eapply shape_kept_assign.
    + intros o. rewrite (occupancy_assign _ _ _ _ o (proj2 (proj2 (proj2 (proj2 (proj2 Hshape)))) Hagree) Ha).
      rewrite Hocc, fmap_app, occurrences_app. cbn [fmap list_fmap].
      rewrite occurrences_singleton. lia.
Qed.

(** The loop over the empty spots adds to each option as often as it is
    among the spots that are used, the first ones of the list. *)
Lemma fill_empty_spots_occupancy unhappy empty_spots (n k : nat) w u w' :
  agree (by_student (w_match w)) (by_option (w_match w)) →
  forM_ (λ i, let j := i - n in
              student ← lift (index unhappy i);
              option ← lift (index empty_spots j);
              mutate (assign student option))
        (seq n k) w = (Return u, w') →
  shape_kept (w_match w) (w_match w') ∧
  ∀ o, occupancy (by_option (w_match w')) o =
       occupancy (by_option (w_match w)) o + occurrences o (take k empty_spots).
Proof.
  intros Hagree H.
  apply (forM__run (λ done v,
    shape_kept (w_match w) (w_match v) ∧
    ∀ o, occupancy (by_option (w_match v)) o =
         occupancy (by_option (w_match w)) o
         + occurrences o (take (length done) empty_spots))) in H.
  - by rewrite length_seq in H.
  - split; [apply shape_kept_refl|]. intros o.
    change (take (length (@nil nat)) empty_spots) with (@nil string).
    unfold occurrences. cbn. lia.
  - clear H. intros done i v u0 v' [rest Hseq] (Hshape & Hocc) Hx. cbn zeta in Hx.
    assert (i = n + length done) as Hi.
    { assert (seq n k !! length done = Some i) as E.
      { rewrite Hseq. rewrite lookup_app_r by lia. by rewrite Nat.sub_diag. }
      by apply lookup_seq in E as [-> _]. }
    run_step Hx student v1 Hs. run_step Hx o' v2 Ho.
    apply mutate_run in Hx as (m' & Ha & ->).
    cbn [w_match moved]. split.
    + eapply shape_kept_trans; [done|]. by eapply shape_kept_assign.
    + intros o. rewrite (occupancy_assign _ _ _ _ o (proj2 (proj2 (proj2 (proj2 (proj2 Hshape)))) Hagree) Ha).
      rewrite Hocc, length_app. cbn [length].
      replace (length done + 1) with (S (length done)) by lia.
      unfold index in Ho. replace (i - n) with (length done) in Ho by lia.
      destruct (empty_spots !! length done) as [x|] eqn:E; [|done].
      injection Ho as ->. rewrite (take_S_r _ _ _ E), occurrences_app.
      rewrite occurrences_singleton. lia.
Qed.

(** The arithmetic of the base case: an option that held [a] students,
    at most the maximum, and was filled up to [a3] and then to [a4]
    holds between the minimum and the maximum. *)
Lemma filled_within_bounds (a a3 a4 : nat) (mn mx : Z) :
  a3 = a + Z.to_nat (mn - Z.of_nat a) →
  (mn ≤ mx)%Z → (Z.of_nat a ≤ mx)%Z →
  a3 ≤ a4 ≤ a3 + headroom mn mx a3 →
  (mn ≤ Z.of_nat a4 ≤ mx)%Z.
Proof. unfold headroom. intros H1 H2 H3. case_bool_decide; lia. Qed.

Section feasible.
Context (students : list Student) (options : list string) (n_choices : nat).
Context (min_per_option max_per_option : Z).

(** A base case that returns from a matching within the maximum has
    scored pairs that are complete and within the bounds. *)
Lemma base_case_feasible w r w' :
  within_maximum min_per_option max_per_option (w_match w) →
  assignment_algorithm_base_case students options n_choices
    min_per_option max_per_option w = (Return r, w') →
  ∃ pairs score,
    r = (Some pairs, Some score) ∧
    complete_and_feasible (keys (by_student (w_match w)))
      (keys (by_option (w_match w))) min_per_option max_per_option pairs.
Proof.
  intros (Hagree & Hwfs & Hwfo & Hmax) H.
  unfold assignment_algorithm_base_case in H.
  run_step H n_unhappy w1 Hn. apply get_n_unmatched_Return in Hn.
  run_step H underfilled w1 Hu.
  rewrite list_underfilled_options_Return in Hu by done. injection Hu as Hu.
  run_step H evicted w1 Hev.
  case_bool_decide as Hcmp.
  { apply eviction_raises in Hev; [done|lia]. }
  apply mret_run in Hev as [-> ->].
  run_step H unhappy0 w2 Hun.
  apply list_unmatched_students_Return in Hun.
  run_step H unhappy w2 Hsh.
  apply shuffle_run in Hsh as (Hperm & Hm2 & _ & _).
  run_step H u1 w3 Hfill.
  apply fill_underfilled_occupancy in Hfill as (Hshape3 & Hocc3);
    [|by rewrite Hm2].
  rewrite Hm2 in Hshape3, Hocc3.
  assert (agree (by_student (w_match w3)) (by_option (w_match w3))) as Hagree3
    by by apply Hshape3.
  run_step H u2 w4 Hrest.
  assert (shape_kept (w_match w3) (w_match w4) ∧
          ∀ o, o ∈ keys (by_option (w_match w)) →
               occupancy (by_option (w_match w3)) o
               ≤ occupancy (by_option (w_match w4)) o
               ≤ occupancy (by_option (w_match w3)) o
                 + headroom min_per_option max_per_option
                            (occupancy (by_option (w_match w3)) o))
    as (Hshape4 & Hocc4).
  { case_bool_decide.
    - run_step Hrest spots0 w5 He0.
      rewrite list_empty_spots_Return in He0
        by (by eapply dict_wf_shape_by_option).
      injection He0 as He0.
      run_step Hrest spots w5 He.
      apply shuffle_run in He as (Hperm' & Hm5 & _ & _).
      apply fill_empty_spots_occupancy in Hrest as (Hshape4 & Hocc4);
        [|by rewrite Hm5].
      rewrite Hm5 in Hshape4, Hocc4. split; [done|]. intros o Ho.
      rewrite Hocc4. split; [lia|]. apply Nat.add_le_mono_l.
      etrans; [apply occurrences_take_le|].
      rewrite (occurrences_Permutation _ _ _ Hperm'), <- He0.
      rewrite occurrences_repeated; [done| |].
      + destruct Hshape3 as (_ & -> & _). apply Hwfo.
      + destruct Hshape3 as (_ & -> & _). done.
    - apply mret_run in Hrest as [_ ->]. split; [apply shape_kept_refl|].
      intros o _. lia. }
  assert (shape_kept (w_match w) (w_match w4)) as Hshape
    by by eapply shape_kept_trans.
  run_step H score w5 Hscore.
  run_step H pairs w5 Hpairs.
  run_step H u3 w5 Herase.
  run_step H u4 w6 Hback.
  run_step H u5 w7 Hrec.
  apply mret_run in H as [-> ->].
  exists pairs, score. split; [done|].
  assert (dict_wf (by_student (w_match w4))) as Hwfs4
    by by eapply dict_wf_shape_by_student.
  assert (agree (by_student (w_match w4)) (by_option (w_match w4))) as Hagree4
    by by apply Hshape4.
  split.
  - apply reduce_to_pairs_Return, (pairs_count _ _ _ "") in Hpairs as [-> _].
    by destruct Hshape as (-> & _).
  - intros o Ho.
    assert (is_Some (store (by_option (w_match w4)) !! o)) as [members Hm].
    { apply Hshape, Hwfo, Ho. }
    destruct (occurrences_pairs _ _ o members Hagree4 Hwfs4 Hpairs Hm) as [_ ->].
    destruct (Hmax o Ho) as [Hminmax Hle].
    specialize (Hocc4 o Ho). specialize (Hocc3 o).
    assert (occupancy (by_option (w_match w4)) o = size members) as <-
      by (unfold occupancy; by rewrite Hm).
    rewrite <- Hu, occurrences_repeated in Hocc3 by (done || apply Hwfo).
    by eapply filled_within_bounds.
Qed.
End feasible.

(** *** The trims of a stage *)

Lemma combinations_sublist {A : Type} (pool : list A) r g :
  g ∈ combinations pool r → length g = r ∧ g `sublist_of` pool.
Proof.
  revert r g. induction pool as [|x pool IH]; intros [|r] g H; cbn in H.
  - apply list_elem_of_singleton in H as ->. split; [done|apply sublist_nil_l].
  - by apply elem_of_nil in H.
  - apply list_elem_of_singleton in H as ->. split; [done|apply sublist_nil_l].
  - apply elem_of_app in H as [H|H].
    + apply list_elem_of_fmap in H as (g' & -> & H). apply IH in H as [<- H].
      split; [done|by apply sublist_skip].
    + apply IH in H as [<- H]. split; [done|by apply sublist_cons].
Qed.

Lemma combinations_nonempty {A : Type} (pool : list A) r :
  r ≤ length pool → combinations pool r ≠ [].
Proof.
  revert r. induction pool as [|x pool IH]; intros [|r] H; cbn in *; try done.
  - lia.
  - assert (combinations pool r ≠ []) as Hne by (apply IH; lia).
    destruct (combinations pool r); done.
Qed.

Lemma product_Forall2 {A : Type} (pools : list (list A)) trim :
  trim ∈ product pools → Forall2 (λ g pool, g ∈ pool) trim pools.
Proof.
  revert trim. induction pools as [|p pools IH]; intros trim H; cbn in H.
  - apply list_elem_of_singleton in H as ->. constructor.
  - apply list_elem_of_bind in H as (x & H & Hx).
    apply list_elem_of_fmap in H as (trim' & -> & H). constructor; auto.
Qed.

Lemma product_nonempty {A : Type} (pools : list (list A)) :
  Forall (λ p, p ≠ []) pools → product pools ≠ [].
Proof.
  induction 1 as [|p pools Hp _ IH]; [done|]. cbn.
  destruct p as [|x p]; [done|]. cbn.
  destruct (product pools); done.
Qed.

Lemma Forall2_chain {A B C : Type} (P : A → B → Prop) (Q : C → B → Prop)
    xs ys zs x :
  Forall2 P xs ys → Forall2 Q zs ys → x ∈ xs →
  ∃ y z, P x y ∧ Q z y ∧ z ∈ zs.
Proof.
  intros H. revert zs. induction H as [|x' y xs ys Hxy H IH]; intros zs Hz Hx.
  - by apply elem_of_nil in Hx.
  - inversion Hz as [|z ? zs' ? Hzy Hz']; subst.
    apply elem_of_cons in Hx as [->|Hx].
    + exists y, z. split; [done|]. split; [done|]. apply list_elem_of_here.
    + destruct (IH _ Hz' Hx) as (y0 & z0 & ? & ? & ?).
      exists y0, z0. split; [done|]. split; [done|]. by apply list_elem_of_further.
Qed.

Lemma forM_query_run {A B : Type} (f : A → Matching → result B) l w r w' :
  forM (λ x, query (f x)) l w = (Return r, w') →
  w' = w ∧ Forall2 (λ x y, f x (w_match w) = Return y) l r.
Proof.
  intros H.
  apply (forM_run (λ done ys v, v = w ∧
                    Forall2 (λ x y, f x (w_match w) = Return y) done ys)) in H.
  - done.
  - split; [done|constructor].
  - intros done ys x v y v' _ [-> Hdone] Hq. apply query_run in Hq as [Hq ->].
    split; [done|]. apply Forall2_app; [done|]. by constructor.
Qed.

Lemma list_overfilled_options_Return threshold m l :
  list_overfilled_options threshold m = Return l →
  ∀ o, o ∈ keys (by_option m) →
       ∃ members, store (by_option m) !! o = Some members ∧
                  (o ∈ l ↔ (threshold < Z.of_nat (size members))%Z).
Proof.
  unfold list_overfilled_options. intros [-> Hall]%filterM_Return o Ho.
  destruct (Hall o Ho) as [b Hb].
  apply bind_Return in Hb as (members & Hm & Hb). injection Hb as <-.
  pose proof Hm as Hm'%dict_get_Return.
  exists members. split; [done|].
  rewrite list_elem_of_filter, Hm. cbn. split.
  - intros [H _]. injection H as H. by apply bool_decide_eq_true in H.
  - intros H. split; [|done]. by rewrite bool_decide_eq_true_2.
Qed.

Lemma make_trim_iterable_Return o threshold m it :
  make_trim_iterable o threshold m = Return it →
  ∃ members removable,
    store (by_option m) !! o = Some members ∧
    (threshold < Z.of_nat (size members))%Z ∧
    removable `sublist_of` elements members ∧
    (∀ s, s ∈ members → s ∉ removable →
          store (student_locked m) !! s = Some true) ∧
    it = combinations removable
           (Z.to_nat (Z.of_nat (size members) - threshold)).
Proof.
  unfold make_trim_iterable. intros H.
  apply bind_Return in H as (members & Hm%dict_get_Return & H).
  apply bind_Return in H as (u & Ha%assert_Return & H).
  apply bool_decide_eq_true in Ha.
  apply bind_Return in H as (removable & Hr & H). injection H as <-.
  apply filterM_Return in Hr as [-> Hall].
  match goal with |- context [combinations ?r _] => exists members, r end.
  split; [done|]. split; [done|].
  split; [apply sublist_filter|]. split; [|done].
  intros s Hs Hnot. destruct (Hall s) as [b Hb]; [by apply elem_of_elements|].
  rewrite list_elem_of_filter in Hnot.
  apply bind_Return in Hb as (lk & Hlk & Hb). injection Hb as <-.
  apply is_locked_Return in Hlk. rewrite Hlk. destruct lk; [done|].
  destruct Hnot. split; [|by apply elem_of_elements].
  unfold is_locked, dict_get. by rewrite Hlk.
Qed.

Lemma length_le_size (l : list string) (X : gset string) :
  NoDup l → (∀ s, s ∈ l → s ∈ X) → length l ≤ size X.
Proof.
  intros Hnd Hin. rewrite <- (size_list_to_set (C:=gset string) l) by done.
  apply subseteq_size. intros s Hs. apply elem_of_list_to_set in Hs. auto.
Qed.

Lemma size_without (l : list string) (X Y : gset string) :
  NoDup l → (∀ s, s ∈ l → s ∈ X) → (∀ s, s ∈ Y → s ∈ X ∧ s ∉ l) →
  size Y + length l ≤ size X.
Proof.
  intros Hnd Hin HY.
  rewrite <- (size_list_to_set (C:=gset string) l) by done.
  rewrite <- size_union.
  - apply subseteq_size. intros s [Hs|Hs]%elem_of_union.
    + by apply HY.
    + apply elem_of_list_to_set in Hs. auto.
  - intros s Hs Hl. apply elem_of_list_to_set in Hl. by apply HY in Hs as [_ ?].
Qed.

Lemma size_union_bound (X Y : gset string) : size (X ∪ Y) ≤ size X + size Y.
Proof.
  rewrite size_union_alt. apply Nat.add_le_mono_l, subseteq_size. set_solver.
Qed.

Lemma elem_of_concat {A : Type} (x : A) (l : list A) (ls : list (list A)) :
  x ∈ l → l ∈ ls → x ∈ concat ls.
Proof.
  intros Hx. induction 1 as [|l0 ls Hl IH]; cbn; apply elem_of_app; auto.
Qed.

(** After a trim is removed no option is over the maximum. *)
Lemma trimmed_within_maximum min_per_option max_per_option
    m1 m2 overfilled iterables trim :
  agree (by_student m1) (by_option m1) →
  dict_wf (by_student m1) →
  dict_wf (by_option m1) →
  (∀ o, o ∈ keys (by_option m1) → (min_per_option ≤ max_per_option)%Z) →
  list_overfilled_options max_per_option m1 = Return overfilled →
  Forall2 (λ o it, make_trim_iterable o max_per_option m1 = Return it)
          overfilled iterables →
  trim ∈ product iterables →
  shape_kept m1 m2 →
  (∀ s, s ∈ concat trim → store (by_student m2) !! s = Some None) →
  (∀ s, s ∉ concat trim → store (by_student m2) !! s
                          = store (by_student m1) !! s) →
  within_maximum min_per_option max_per_option m2.
Proof.
  intros Hag1 Hwfs Hwfo Hmm Hover Hits Htrim Hshape Hin Hout.
  pose proof Hshape as (_ & Hko & _ & Hdo & _ & Hag).
  specialize (Hag Hag1).
  split; [done|]. split; [by eapply dict_wf_shape_by_student|].
  split; [by eapply dict_wf_shape_by_option|].
  intros o Ho. rewrite Hko in Ho. split; [exact (Hmm o Ho)|].
  destruct (list_overfilled_options_Return _ _ _ Hover o Ho)
    as (members1 & Hm1 & Hiff).
  assert (is_Some (store (by_option m2) !! o)) as [members2 Hm2]
    by (apply Hdo; by rewrite Hm1).
  unfold occupancy. rewrite Hm2.
  assert (∀ s, s ∈ members2 → s ∈ members1 ∧ s ∉ concat trim) as Hsub.
  { intros s Hs.
    assert (store (by_student m2) !! s = Some (Some o)) as Hs2
      by (apply Hag; eauto).
    assert (s ∉ concat trim) as Hnot.
    { intros Hc. apply Hin in Hc. congruence. }
    split; [|done]. rewrite Hout in Hs2 by done.
    apply Hag1 in Hs2 as (members & Hm & Hs2). congruence. }
  destruct (decide (max_per_option < Z.of_nat (size members1))%Z) as [Hbig|Hsmall].
  - apply Hiff in Hbig as Hoin.
    destruct (Forall2_chain _ _ _ _ _ _ Hits (product_Forall2 _ _ Htrim) Hoin)
      as (it & g & Hit & Hg & Hgt).
    apply make_trim_iterable_Return in Hit
      as (members & removable & Hm & _ & Hrem & _ & ->).
    assert (members = members1) as -> by congruence.
    apply combinations_sublist in Hg as [Hlen Hg].
    assert (size members2 + length g ≤ size members1); [|lia].
    apply size_without.
    + eapply sublist_NoDup; [|exact Hg].
      eapply sublist_NoDup; [|exact Hrem]. apply NoDup_elements.
    + intros s Hs. apply elem_of_elements.
      eapply elem_of_sublist; [|exact Hrem]. by eapply elem_of_sublist.
    + intros s Hs. apply Hsub in Hs as [Hs Hnot]. split; [done|].
      intros Hsg. apply Hnot. by eapply elem_of_concat.
  - assert (size members2 ≤ size members1); [|lia].
    apply subseteq_size. intros s Hs. by apply Hsub.
Qed.

(** Every overfilled option has enough unlocked students to trim: the
    locked ones were there when the stage was entered, within the
    maximum. *)
Lemma trim_iterable_nonempty min_per_option max_per_option
    m0 m1 (assigned : list string) o it :
  within_maximum min_per_option max_per_option m0 →
  shape_kept m0 m1 →
  student_locked m1 = student_locked m0 →
  (∀ s, s ∈ assigned → store (student_locked m0) !! s = Some false) →
  (∀ s, s ∉ assigned → store (by_student m1) !! s
                       = store (by_student m0) !! s) →
  make_trim_iterable o max_per_option m1 = Return it →
  it ≠ [].
Proof.
  intros (Hag0 & _ & Hwfo & Hocc) Hshape Hlk Hnew Hold Hit.
  pose proof Hshape as (_ & Hko & _ & Hdo & _ & Hag).
  specialize (Hag Hag0).
  apply make_trim_iterable_Return in Hit
    as (members1 & removable & Hm1 & Hbig & Hrem & Hlocked & ->).
  apply combinations_nonempty.
  assert (is_Some (store (by_option m0) !! o)) as [members0 Hm0]
    by (apply Hdo; by rewrite Hm1).
  assert (o ∈ keys (by_option m0)) as Ho by (apply Hwfo; by rewrite Hm0).
  apply Hocc in Ho as [_ Ho]. unfold occupancy in Ho. rewrite Hm0 in Ho.
  assert (NoDup removable) as Hnd
    by (eapply sublist_NoDup; [|exact Hrem]; apply NoDup_elements).
  assert (size members1 ≤ length removable + size members0); [|lia].
  rewrite <- (size_list_to_set (C:=gset string) removable) by done.
  etrans; [|apply size_union_bound].
  apply subseteq_size. intros s Hs. apply elem_of_union.
  destruct (decide (s ∈ removable)) as [Hr|Hr].
  - left. by apply elem_of_list_to_set.
  - right. pose proof (Hlocked s Hs Hr) as Hl. rewrite Hlk in Hl.
    assert (s ∉ assigned) as Hna.
    { intros Ha. apply Hnew in Ha. congruence. }
    assert (store (by_student m1) !! s = Some (Some o)) as Hs1
      by (apply Hag; eauto).
    rewrite Hold in Hs1 by done.
    apply Hag0 in Hs1 as (members & Hm & Hs1). congruence.
Qed.

Lemma Forall2_Forall_right {A B : Type} (P : A → B → Prop) (Q : B → Prop) xs ys :
  Forall2 P xs ys → (∀ x y, P x y → Q y) → Forall Q ys.
Proof. induction 1; intros HPQ; constructor; eauto. Qed.

Section feasible_stages.
Context (students : list Student) (options : list string) (n_choices : nat).
Context (min_per_option max_per_option : Z).

(** From a matching within the maximum the stages that remain, when
    they return, have scored at least one result, and all the results
    they scored are complete and within the bounds. *)
Lemma stages_feasible remaining stage w r w' :
  within_maximum min_per_option max_per_option (w_match w) →
  stages students options n_choices min_per_option max_per_option
         remaining stage w = (Return r, w') →
  ∃ added, w_scored w' = w_scored w ++ added ∧ added ≠ [] ∧
           ∀ c, c ∈ added →
                complete_and_feasible (keys (by_student (w_match w)))
                  (keys (by_option (w_match w)))
                  min_per_option max_per_option c.1.
Proof.
  revert stage w r w'. induction remaining as [|remaining IH];
    intros stage w r w' Hwithin H.
  - cbn [stages] in H.
    destruct (base_case_scored _ _ _ _ _ _ _ _ H) as (pairs & score & -> & Hs).
    destruct (base_case_feasible _ _ _ _ _ _ _ _ Hwithin H)
      as (pairs' & score' & E & Hgood).
    injection E as <- <-.
    exists [(pairs, score)]. split; [done|]. split; [done|].
    by intros c ->%list_elem_of_singleton.
  - cbn [stages] in H.
    pose proof Hwithin as (Hag0 & Hwfs0 & Hwfo0 & Hocc0).
    set (sc := w_scored w). assert (scored_is sc w) as Hw by reflexivity.
    run_step H assigned w1 Hentry.
    assert (shape_kept (w_match w) (w_match w1)) as Hsh1.
    { eapply (keeps_run (shape_from (w_match w)));
        [|apply shape_kept_refl|exact Hentry]. keeps_shape. }
    pose proof (stage_entry_run _ _ _ _ _ Hentry) as (Hlk1 & Hnew1 & Hold1).
    apply (keeps_run (scored_is sc)) in Hentry; [|keeps_scored|done].
    run_step H overfilled w2 Hover.
    run_step H trim_iterables w2 Htrims.
    apply forM_query_run in Htrims as [-> Hits].
    run_step H trim_product w3 Hprod.
    case_bool_decide; [|done].
    apply mret_run in Hprod as [-> ->].
    run_step H best w4 Hloop.
    run_step H u w5 Herase.
    apply mret_run in H as [-> ->].
    pose proof Hsh1 as (Hks1 & Hko1 & _ & _ & _ & Hag1).
    specialize (Hag1 Hag0).
    assert (dict_wf (by_student (w_match w1))) as Hwfs1
      by by eapply dict_wf_shape_by_student.
    assert (dict_wf (by_option (w_match w1))) as Hwfo1
      by by eapply dict_wf_shape_by_option.
    assert (∀ o, o ∈ keys (by_option (w_match w1)) →
                 (min_per_option ≤ max_per_option)%Z) as Hmm1.
    { intros o Ho. rewrite Hko1 in Ho. exact (proj1 (Hocc0 o Ho)). }
    apply (foldM_run
             (λ done _ v,
                w_match v = w_match w1 ∧
                ∃ added, w_scored v = sc ++ added ∧
                         (done ≠ [] → added ≠ []) ∧
                         ∀ c, c ∈ added →
                              complete_and_feasible
                                (keys (by_student (w_match w)))
                                (keys (by_option (w_match w)))
                                min_per_option max_per_option c.1))
      in Hloop.
    + destruct Hloop as (Hm4 & added & Hs & Hne & Hgood). exists added.
      split.
      { by apply (keeps_run (scored_is (sc ++ added))) in Herase;
          [|keeps_scored|]. }
      split; [|done]. apply Hne, product_nonempty.
      eapply Forall2_Forall_right; [exact Hits|].
      intros o it Hit.
      eapply (trim_iterable_nonempty _ _ (w_match w) (w_match w1) assigned);
        [done|done|done| |done|exact Hit].
      intros s Hsa. by apply Hnew1.
    + split; [done|]. exists []. rewrite app_nil_r. split; [done|].
      split; [done|]. intros c Hc. by apply elem_of_nil in Hc.
    + clear Hloop.
      intros done trim best0 v best1 v' [rest Hrest]
        (Hmv & added & Hs & _ & Hgood) Htry.
      assert (trim ∈ product trim_iterables) as Htrim.
      { rewrite Hrest. apply elem_of_app. right. apply list_elem_of_here. }
      assert (w_match v' = w_match v) as Hframe.
      { eapply try_trim_frame; [| | |exact Htry].
        - intros; by eapply stages_frame.
        - apply keeps_shape_stages.
        - by rewrite Hmv. }
      unfold try_trim in Htry.
      run_step Htry saved v1 Hrem.
      assert (shape_kept (w_match v) (w_match v1)) as Hshv1.
      { eapply (keeps_run (shape_from (w_match v)));
          [|apply shape_kept_refl|exact Hrem]. keeps_shape. }
      pose proof (remove_trim_run _ _ _ _ Hrem) as (_ & _ & _ & _ & Hin1 & Hout1).
      apply (keeps_run (scored_is (sc ++ added))) in Hrem; [|keeps_scored|done].
      run_step Htry locked v2 Hlock.
      pose proof (lock_all_matched_run _ _ _ Hlock) as (Hbs2 & Hbo2 & _ & _).
      apply (keeps_run (scored_is (sc ++ added))) in Hlock; [|keeps_scored|done].
      rewrite Hmv in Hshv1, Hout1.
      assert (within_maximum min_per_option max_per_option (w_match v2)) as Hw2.
      { unfold within_maximum. rewrite Hbs2, Hbo2.
        by eapply (trimmed_within_maximum _ _ (w_match w1)). }
      run_step Htry new v3 Hnext.
      apply IH in Hnext as (added' & Hs' & Hne' & Hgood'); [|done].
      rewrite Hbs2, Hbo2 in Hgood'.
      destruct Hshv1 as (Hksv & Hkov & _).
      rewrite Hksv, Hkov, Hks1, Hko1 in Hgood'.
      run_step Htry u1 v4 Hunlock.
      apply (keeps_run (scored_is (sc ++ added ++ added'))) in Hunlock;
        [|keeps_scored|by rewrite app_assoc, <- Hlock].
      run_step Htry better v4b Hbetter.
      run_step Htry u2 v5 Hassign.
      apply (keeps_run (scored_is (sc ++ added ++ added'))) in Hassign;
        [|keeps_scored|done].
      apply mret_run in Htry as [-> ->].
      split; [by rewrite Hframe|].
      exists (added ++ added'). split; [done|]. split.
      * intros _ Happ. apply app_eq_nil in Happ as [_ ?]. done.
      * intros c [Hc|Hc]%elem_of_app; auto.
Qed.
End feasible_stages.

(** The matching [Matching(students, options)] builds is consistent. *)
Lemma Matching_init_agree students options m :
  Matching_init students options = Return m →
  agree (by_student m) (by_option m).
Proof.
  intros (_ & _ & Hs & Ho & _)%Matching_init_Return s o. rewrite Hs, Ho. split.
  - intros H. by apply store_dict_of_const in H.
  - intros (members & H & Hin). apply store_dict_of_const in H as ->.
    by apply elem_of_empty in Hin.
Qed.

(** With the bounds [main] asserts, it is within the maximum. *)
Lemma Matching_init_within students options min_per_option max_per_option m :
  Matching_init students options = Return m →
  (min_per_option * Z.of_nat (length options) ≤ Z.of_nat (length students)
   ≤ max_per_option * Z.of_nat (length options))%Z →
  within_maximum min_per_option max_per_option m.
Proof.
  intros Hinit Hbounds. split; [by eapply Matching_init_agree|].
  apply Matching_init_Return in Hinit as (Hnds & Hndo & Hs & Ho & _).
  rewrite Hs, Ho. split; [apply dict_of_wf|]. split; [apply dict_of_wf|].
  intros o Hin. rewrite keys_dict_of in Hin by (by rewrite list_fmap_id).
  rewrite list_fmap_id in Hin.
  assert (0 < length options) as Hlen.
  { destruct options; [by apply elem_of_nil in Hin|cbn; lia]. }
  assert (occupancy (dict_of id (λ _ : string, (∅ : gset string)) options) o = 0)
    as ->.
  { unfold occupancy.
    destruct (store (dict_of id (λ _ : string, (∅ : gset string)) options) !! o)
      as [members|] eqn:E; [|done].
    by apply store_dict_of_const in E as ->. }
  split; nia.
Qed.

(** C2.  When [recursive_assignment_algorithm], called on the matching
    [Matching(students, options)] builds and with bounds that pass the
    two assertions of [main] (as many students as the minimum needs and
    no more than the maximum allows), returns, it returns a list of
    pairs; the first components of the pairs are the names of the
    students, each once and in their order, and every option is the
    second component of no fewer than [min_per_option] and no more than
    [max_per_option] of the pairs. *)
Theorem successful_run_is_complete_and_within_bounds
    students options n_choices min_per_option max_per_option stage draws m r w' :
  Matching_init students options = Return m →
  (min_per_option * Z.of_nat (length options) ≤ Z.of_nat (length students)
   ≤ max_per_option * Z.of_nat (length options))%Z →
  recursive_assignment_algorithm students options n_choices
    min_per_option max_per_option stage (initial_world m draws) = (Return r, w') →
  ∃ pairs,
    r.1 = Some pairs ∧
    NoDup (name <$> students) ∧
    pairs.*1 = name <$> students ∧
    ∀ o, o ∈ options →
         (min_per_option ≤ Z.of_nat (occurrences o pairs.*2) ≤ max_per_option)%Z.
Proof.
  intros Hinit Hbounds H. unfold recursive_assignment_algorithm in H.
  pose proof (Matching_init_within _ _ _ _ _ Hinit Hbounds) as Hwithin.
  destruct (stages_feasible students options n_choices min_per_option
              max_per_option _ _ (initial_world m draws) _ _ Hwithin H)
    as (added & Hs & Hne & Hgood).
  destruct (stages_best _ _ _ _ _ _ _ _ _ _ H) as (added' & Hs' & Hbest).
  rewrite Hs in Hs'. apply app_inv_head in Hs' as <-.
  apply Matching_init_Return in Hinit as (Hnds & Hndo & Hbs & Hbo & _).
  unfold best_among in Hbest. destruct (r.2) as [s|].
  - destruct Hbest as (p & Hp & Hin & _). exists p. split; [done|].
    split; [done|]. apply Hgood in Hin as [Hnames Hocc]. cbn in Hnames, Hocc.
    rewrite Hbs, keys_dict_of in Hnames by done. split; [done|].
    intros o Ho. apply Hocc. rewrite Hbo, keys_dict_of by (by rewrite list_fmap_id).
    by rewrite list_fmap_id.
  - by destruct Hbest as [_ ->].
Qed.

(** ** The driver of the older script *)





(** ** The eviction queue *)

Lemma crowded_by_assign :
  (m ← assign "ann" "X" Examples.fresh_match; assign "bob" "X" m)
  = Return Examples.crowded_match.
Proof. vm_compute. reflexivity. Qed.

(** With an option to look at, [find_more_unhappy_students] raises as
    soon as the happiness of the students is known. *)
Lemma find_more_unhappy_students_raises students o options n_choices w hp :
  happiness_and_priority students n_choices (w_match w) = Return hp →
  find_more_unhappy_students students (o :: options) n_choices w
    = (Raise AttributeError, w).
Proof.
  intros H. unfold find_more_unhappy_students, find_more_unhappy_students_with.
  unfold mbind, M_bind, query. rewrite H. by destruct hp.
Qed.

(** C9.  [find_more_unhappy_students] asks the matching for
    [list_students_by_option], a method the class does not have (it has
    [list_students_for_option]), so with at least one option it never
    returns a queue: it raises [AttributeError] once the happiness of
    the students is computed.  On the matching of ann and bob both with
    their choice X it raises, where the same function calling
    [list_students_for_option] returns the queue of the two students. *)
Theorem eviction_queue_is_never_built :
  (∀ students o options n_choices w queue w',
     find_more_unhappy_students students (o :: options) n_choices w
       ≠ (Return queue, w')) ∧
  (∀ students o options n_choices w hp,
     happiness_and_priority students n_choices (w_match w) = Return hp →
     find_more_unhappy_students students (o :: options) n_choices w
       = (Raise AttributeError, w)) ∧
  (find_more_unhappy_students [Examples.ann; Examples.bob] ["X"; "Y"] 1
     (initial_world Examples.crowded_match [])).1 = Raise AttributeError ∧
  (find_more_unhappy_students_with [Examples.ann; Examples.bob] ["X"; "Y"] 1
     list_students_for_option
     (initial_world Examples.crowded_match [])).1 = Return ["ann"; "bob"].
Proof.
  split; [|split; [exact find_more_unhappy_students_raises|split; by vm_compute]].
  intros students o options n_choices w queue w' H.
  unfold find_more_unhappy_students, find_more_unhappy_students_with in H.
  run_step H hp w1 Hhp. destruct hp as [happiness priority].
  run_step H tiers w2 Htiers.
  cbn [foldM] in Htiers. run_step Htiers tiers1 w3 Ht.
  by run_step Ht l w4 Hl.
Qed.

(** ** Runs that raise, and runs outside the asserted bounds *)

(** A stage that finds no option over the maximum builds its one empty
    trim with [it.repeat(tuple(), n=1)] and raises [TypeError]. *)
Lemma stage_without_overfilled_option_raises
    students options n_choices min_per_option max_per_option
    remaining stage w assigned w1 :
  stage_entry students stage w = (Return assigned, w1) →
  list_overfilled_options max_per_option (w_match w1) = Return [] →
  stages students options n_choices min_per_option max_per_option
         (S remaining) stage w = (Raise TypeError, w1).
Proof.
  intros Hentry Hover. cbn [stages]. unfold mbind at 1, M_bind at 1.
  rewrite Hentry. unfold mbind at 1, M_bind at 1, query at 1.
  by rewrite Hover.
Qed.

(** ann chooses X and cy chooses Y; each option takes one student.  The
    bounds pass the assertions of [main], the first stage gives both
    their choice, no option is overfilled, and the run raises. *)
Lemma run_of_ann_and_cy_raises m :
  Matching_init [Examples.ann; Examples.cy] ["X"; "Y"] = Return m →
  (recursive_assignment_algorithm [Examples.ann; Examples.cy] ["X"; "Y"]
     1 1%Z 1%Z 1 (initial_world m [])).1 = Raise TypeError.
Proof.
  intros H. vm_compute in H. injection H as <-. vm_compute. reflexivity.
Qed.

(** With a minimum of 2 and a maximum of 1, bounds that [main] refuses,
    the engine returns ann and bob both with X, one more than the
    maximum. *)
Lemma run_outside_the_asserted_bounds m :
  Matching_init [Examples.ann; Examples.bob] ["X"] = Return m →
  (recursive_assignment_algorithm [Examples.ann; Examples.bob] ["X"]
     1 2%Z 1%Z 1 (initial_world m [])).1
  = Return (Some [("ann", "X"); ("bob", "X")], Some [2; 2; 1]%Z).
Proof.
  intros H. vm_compute in H. injection H as <-. vm_compute. reflexivity.
Qed.

(** ** The properties on ann and bob

    Both choose X, bob with high priority; the options are X and Y and
    each takes exactly one student. *)

Import Examples.

Lemma fresh_match_init : Matching_init [ann; bob] ["X"; "Y"] = Return fresh_match.
Proof. vm_compute. reflexivity. Qed.

Lemma engine_run_on_ann_and_bob :
  (recursive_assignment_algorithm [ann; bob] ["X"; "Y"] 1 1%Z 1%Z 1
     (initial_world fresh_match [])).1
  = Return (Some [("ann", "Y"); ("bob", "X")], Some [1; 1; 1]%Z).
Proof. vm_compute. reflexivity. Qed.

Lemma engine_run_equation :
  recursive_assignment_algorithm [ann; bob] ["X"; "Y"] 1 1%Z 1%Z 1
    (initial_world fresh_match [])
  = (Return (Some [("ann", "Y"); ("bob", "X")], Some [1; 1; 1]%Z),
     (recursive_assignment_algorithm [ann; bob] ["X"; "Y"] 1 1%Z 1%Z 1
        (initial_world fresh_match [])).2).
Proof.
  rewrite <- engine_run_on_ann_and_bob. apply surjective_pairing.
Qed.


Lemma successful_run_is_complete_and_within_bounds_witness :
  ∃ pairs,
    Some [("ann", "Y"); ("bob", "X")] = Some pairs ∧
    NoDup (name <$> [ann; bob]) ∧
    pairs.*1 = name <$> [ann; bob] ∧
    ∀ o, o ∈ ["X"; "Y"] → (1 ≤ Z.of_nat (occurrences o pairs.*2) ≤ 1)%Z.
Proof.
  apply (successful_run_is_complete_and_within_bounds [ann; bob] ["X"; "Y"]
           1 1%Z 1%Z 1 [] fresh_match
           (Some [("ann", "Y"); ("bob", "X")], Some [1; 1; 1]%Z)
           (recursive_assignment_algorithm [ann; bob] ["X"; "Y"] 1 1%Z 1%Z 1
              (initial_world fresh_match [])).2).
  - exact fresh_match_init.
  - cbn. lia.
  - exact engine_run_equation.
Defined.

Lemma search_restores_matching_witness :
  by_student (w_match (recursive_assignment_algorithm [ann; bob] ["X"; "Y"]
                         1 1%Z 1%Z 1 (initial_world fresh_match [])).2)
    = by_student fresh_match ∧
  by_option (w_match (recursive_assignment_algorithm [ann; bob] ["X"; "Y"]
                        1 1%Z 1%Z 1 (initial_world fresh_match [])).2)
    = by_option fresh_match ∧
  student_locked (w_match (recursive_assignment_algorithm [ann; bob] ["X"; "Y"]
                             1 1%Z 1%Z 1 (initial_world fresh_match [])).2)
    = student_locked fresh_match.
Proof.
  apply (search_restores_matching [ann; bob] ["X"; "Y"] 1 1%Z 1%Z 1
           (initial_world fresh_match [])
           (Some [("ann", "Y"); ("bob", "X")], Some [1; 1; 1]%Z)).
  - exact (Matching_init_agree _ _ _ fresh_match_init).
  - exact engine_run_equation.
Defined.

Lemma locked_students_are_matched_witness :
  Forall locked_are_matched
    (fresh_match ::
       w_visited (recursive_assignment_algorithm [ann; bob] ["X"; "Y"]
                    1 1%Z 1%Z 1 (initial_world fresh_match [])).2).
Proof.
  apply (locked_students_are_matched [ann; bob] ["X"; "Y"] 1 1%Z 1%Z 1 []).
  exact fresh_match_init.
Defined.

Lemma half_match_by_assign : assign "ann" "X" fresh_match = Return half_match.
Proof. vm_compute. reflexivity. Qed.

Lemma matching_operations_preserve_invariant_witness : new_invariant half_match.
Proof.
  apply (proj1 matching_operations_preserve_invariant "ann" "X" fresh_match).
  - split; [|exact (Matching_init_agree _ _ _ fresh_match_init)].
    eapply agree_one_option. exact (Matching_init_agree _ _ _ fresh_match_init).
  - exact half_match_by_assign.
Defined.

Lemma ann_bob_scorer_init :
  AU.ScoreCalculator_init (choices_dict [ann; bob]) (high_priority_dict [ann; bob])
  = Return ann_bob_scorer.
Proof. vm_compute. reflexivity. Qed.

Lemma NoDup_ann_bob : NoDup (name <$> [ann; bob]).
Proof.
  cbn. apply NoDup_cons. split; [|apply NoDup_singleton].
  intros H%list_elem_of_singleton. discriminate H.
Qed.

Lemma scorers_return_reference_score_witness :
  AU.calculate_score ann_bob_scorer old_crowded_match
    = Return (reference_score 1 (λ _, Some "X") [ann; bob]) ∧
  score_assignment crowded_match [ann; bob] 1
    = Return (reference_score 1 (λ _, Some "X") [ann; bob]).
Proof.
  apply (scorers_return_reference_score [ann; bob] ann_bob_scorer
           old_crowded_match crowded_match (λ _, "X")).
  - exact NoDup_ann_bob.
  - exact ann_bob_scorer_init.
  - intros st Hst. apply elem_of_cons in Hst as [->|Hst].
    + split; vm_compute; reflexivity.
    + apply list_elem_of_singleton in Hst as ->. split; vm_compute; reflexivity.
Defined.

Lemma scoring_an_incomplete_assignment_witness :
  AU.calculate_score ann_bob_scorer old_fresh_match = Raise ValueError.
Proof.
  apply (proj1 scoring_an_incomplete_assignment [ann; bob]).
  - exact NoDup_ann_bob.
  - exact ann_bob_scorer_init.
  - intros st Hst. exists None. apply elem_of_cons in Hst as [->|Hst].
    + vm_compute. reflexivity.
    + apply list_elem_of_singleton in Hst as ->. vm_compute. reflexivity.
  - exists ann. split; [apply list_elem_of_here|]. vm_compute. reflexivity.
Defined.

Lemma underfilled_options_by_deficit_witness :
  ∃ l, list_underfilled_options 2 half_match = Return l ∧
       (∀ o, o ∈ keys (by_option half_match) →
             occurrences o l = deficit 2 (by_option half_match) o) ∧
       (∀ o, o ∈ l → o ∈ keys (by_option half_match)).
Proof.
  apply (proj1 underfilled_options_by_deficit 2%Z half_match).
  apply dict_of_wf.
Defined.

(** * Further properties of the code *)

(** ** The matching of the newer script *)

(** *** Building a matching *)

Lemma Matching_init_eq students options :
  Matching_init students options =
  (assert (bool_decide (dict_len (dict_of name (λ _, None : option string) students)
                        = length students));;
   assert (bool_decide (dict_len (dict_of id (λ _, ∅ : gset string) options)
                        = length options));;
   Return {| by_student := dict_of name (λ _, None) students;
             by_option := dict_of id (λ _, ∅) options;
             student_locked :=
               dict_of id (λ _, false)
                       (keys (dict_of name (λ _, None : option string) students)) |}).
Proof. reflexivity. Qed.

(** X1.  [Matching(students, options)] raises [AssertionError] exactly
    when two students have the same name or an option is listed twice.
    Otherwise it returns the matching whose dicts list the names and
    the options in the order given, with every student unmatched and
    unlocked and every option empty. *)
Theorem fresh_matching_needs_distinct_names students options :
  (NoDup (name <$> students) ∧ NoDup options →
   ∃ m, Matching_init students options = Return m ∧
        keys (by_student m) = name <$> students ∧
        keys (by_option m) = options ∧
        keys (student_locked m) = name <$> students ∧
        (∀ s, s ∈ name <$> students →
              store (by_student m) !! s = Some None ∧
              store (student_locked m) !! s = Some false) ∧
        (∀ o, o ∈ options → store (by_option m) !! o = Some ∅)) ∧
  (¬ (NoDup (name <$> students) ∧ NoDup options) →
   Matching_init students options = Raise AssertionError).
Proof.
  rewrite Matching_init_eq. unfold dict_len. split.
  - intros [Hs Ho].
    assert (NoDup (id <$> options)) as Ho' by (by rewrite list_fmap_id).
    assert (NoDup (id <$> (name <$> students))) as Hs' by (by rewrite list_fmap_id).
    rewrite !keys_dict_of by done. rewrite list_fmap_id, !length_fmap.
    rewrite !bool_decide_eq_true_2 by done. cbn.
    eexists. split; [done|]. cbn.
    rewrite !keys_dict_of by done. rewrite !list_fmap_id.
    split; [done|]. split; [done|]. split; [done|]. split.
    + intros s Hin. split.
      * apply list_elem_of_fmap in Hin as (st & -> & Hst).
        by rewrite (store_dict_of name (λ _, None)).
      * by rewrite (store_dict_of id (λ _, false) _ s).
    + intros o Hin. by rewrite (store_dict_of id (λ _, ∅) _ o).
  - intros Hnot.
    destruct (decide (length (keys (dict_of name (λ _, None : option string) students))
                      = length students)) as [Hs|Hs].
    + rewrite (bool_decide_eq_true_2 _ Hs). cbn.
      rewrite bool_decide_eq_false_2; [done|].
      intros Ho. apply Hnot. split; [by apply dict_of_full in Hs|].
      apply dict_of_full in Ho. by rewrite list_fmap_id in Ho.
    + by rewrite (bool_decide_eq_false_2 _ Hs).
Qed.

(** *** Assigning and erasing, locking and unlocking *)

Lemma Matching_eta (m : Matching) :
  {| by_student := by_student m; by_option := by_option m;
     student_locked := student_locked m |} = m.
Proof. by destruct m. Qed.

Lemma assign_erase_inverse s o m m' :
  agree (by_student m) (by_option m) →
  assign s o m = Return m' → erase s m' = Return m.
Proof.
  intros Hag (members & Hs & Hl & Ho & ->)%assign_Return.
  apply erase_Return. exists o, (members ∪ {[s]}). cbn [by_student by_option student_locked].
  rewrite !store_dict_set, !lookup_insert_eq.
  split; [done|]. split; [done|]. split; [done|]. split; [set_solver|].
  rewrite !dict_set_set.
  assert (s ∉ members) as Hnot.
  { intros Hin. assert (store (by_student m) !! s = Some (Some o)) as H
      by (apply Hag; eauto). congruence. }
  replace ((members ∪ {[s]}) ∖ {[s]}) with members by set_solver.
  rewrite !dict_set_id by done. by rewrite Matching_eta.
Qed.

Lemma erase_assign_inverse s o m m' :
  store (by_student m) !! s = Some (Some o) →
  erase s m = Return m' → assign s o m' = Return m.
Proof.
  intros Hso (o' & members & Hs & Hl & Ho & Hin & ->)%erase_Return.
  assert (o' = o) as -> by congruence.
  apply assign_Return. exists (members ∖ {[s]}). cbn [by_student by_option student_locked].
  rewrite !store_dict_set, !lookup_insert_eq.
  split; [done|]. split; [done|]. split; [done|].
  rewrite !dict_set_set.
  replace (members ∖ {[s]} ∪ {[s]}) with members.
  - rewrite !dict_set_id by done. by rewrite Matching_eta.
  - apply set_eq. intros x. rewrite elem_of_union, elem_of_difference, elem_of_singleton.
    destruct (decide (x = s)) as [->|]; naive_solver.
Qed.

(** X2.  [erase] undoes [assign] and [assign] undoes [erase]: in a
    matching where [by_student[s] == o] exactly when [s] is in
    [by_option[o]], assigning a student and erasing them again gives
    back the matching, dict for dict; and erasing a student matched
    with [o] and assigning them to [o] again does the same. *)
Theorem assign_and_erase_are_inverse s o m m' :
  agree (by_student m) (by_option m) →
  (assign s o m = Return m' → erase s m' = Return m) ∧
  (store (by_student m) !! s = Some (Some o) →
   erase s m = Return m' → assign s o m' = Return m).
Proof.
  intros Hag. split; [by apply assign_erase_inverse|by apply erase_assign_inverse].
Qed.

(** X3.  [unlock] undoes [lock] and [lock] undoes [unlock]; a second
    [lock] of the same student, like a second [unlock], fails its
    assertion. *)
Theorem lock_and_unlock_are_inverse s m m' :
  (lock s m = Return m' →
   unlock s m' = Return m ∧ lock s m' = Raise AssertionError) ∧
  (unlock s m = Return m' →
   lock s m' = Return m ∧ unlock s m' = Raise AssertionError).
Proof.
  split.
  - intros [Hl ->]%lock_Return. split.
    + apply unlock_Return. cbn [by_student by_option student_locked]. rewrite store_dict_set, lookup_insert_eq.
      split; [done|]. rewrite dict_set_set, dict_set_id by done.
      by rewrite Matching_eta.
    + unfold lock, is_locked, dict_get. cbn [by_student by_option student_locked].
      by rewrite store_dict_set, lookup_insert_eq.
  - intros [Hl ->]%unlock_Return. split.
    + apply lock_Return. cbn [by_student by_option student_locked]. rewrite store_dict_set, lookup_insert_eq.
      split; [done|]. rewrite dict_set_set, dict_set_id by done.
      by rewrite Matching_eta.
    + unfold unlock, is_locked, dict_get. cbn [by_student by_option student_locked].
      by rewrite store_dict_set, lookup_insert_eq.
Qed.

(** X4.  A locked student is frozen: for a student the matching knows
    and whose lock flag is set, [assign] fails its assertion whatever
    the option, and so does [erase]. *)
Theorem locked_student_is_frozen s m :
  is_Some (store (by_student m) !! s) →
  store (student_locked m) !! s = Some true →
  (∀ o, assign s o m = Raise AssertionError) ∧
  erase s m = Raise AssertionError.
Proof.
  intros [v Hv] Hl. split; [intros o|].
  - unfold assign. rewrite (is_matched_store _ _ _ Hv). cbn.
    destruct (bool_decide (v ≠ None)); cbn; [done|].
    unfold is_locked, dict_get. by rewrite Hl.
  - unfold erase. rewrite (is_matched_store _ _ _ Hv). cbn.
    destruct (bool_decide (v ≠ None)); cbn; [|done].
    unfold is_locked, dict_get. by rewrite Hl.
Qed.

(** *** Counting and listing *)

Lemma count_unmatched_from m l n :
  foldM (λ total student,
           matched ← is_matched m student;
           Return (if matched : bool then total else S total)) n l
  = (unmatched ← filterM (λ student, matched ← is_matched m student;
                                       Return (negb matched)) l;
     Return (n + length unmatched)).
Proof.
  revert n. induction l as [|s l IH]; intros n; cbn [foldM filterM].
  - cbn. by rewrite Nat.add_0_r.
  - destruct (is_matched m s) as [b|e]; cbn; [|done].
    rewrite IH.
    destruct (filterM _ l) as [u|e]; cbn; [|done].
    destruct b; cbn; [done|]. f_equal. lia.
Qed.

(** X5.  [get_n_unmatched] is the length of [list_unmatched_students],
    and it raises when that raises; the list holds, in the order of
    the dict, the students whose entry is [None]. *)
Theorem number_of_unmatched_students m :
  get_n_unmatched m = (unmatched ← list_unmatched_students m;
                       Return (length unmatched)) ∧
  (dict_wf (by_student m) →
   list_unmatched_students m =
   Return (filter (λ s, store (by_student m) !! s = Some None)
                  (keys (by_student m)))).
Proof.
  split.
  - unfold get_n_unmatched, list_unmatched_students. by rewrite count_unmatched_from.
  - intros [_ Hwf].
    destruct (list_unmatched_students m) as [l|e] eqn:E.
    + by apply list_unmatched_students_Return in E as ->.
    + exfalso. unfold list_unmatched_students in E.
      assert (∀ l, (∀ s, s ∈ l → s ∈ keys (by_student m)) →
                   ∃ u, filterM (λ student, matched ← is_matched m student;
                                            Return (negb matched)) l = Return u)
        as Htotal.
      { clear E. induction l as [|s l IH]; intros Hl; [by exists []|].
        cbn [filterM].
        destruct (proj1 (Hwf s)) as [v Hv]; [apply Hl, list_elem_of_here|].
        rewrite (is_matched_store _ _ _ Hv). cbn.
        destruct IH as [u ->]; [intros; by apply Hl, list_elem_of_further|].
        cbn. eauto. }
      destruct (Htotal (keys (by_student m))) as [u Hu]; [done|]. congruence.
Qed.

(** *** Options over and under their bounds *)

Lemma filterM_pure {A : Type} (f : A → result bool) (g : A → bool) (l : list A) :
  (∀ x, x ∈ l → f x = Return (g x)) →
  filterM f l = Return (filter (λ x, g x = true) l).
Proof.
  induction l as [|x l IH]; intros H; [done|].
  cbn [filterM]. rewrite filter_cons.
  rewrite (H x) by apply list_elem_of_here.
  rewrite IH by (intros; by apply H, list_elem_of_further).
  destruct (g x) eqn:E.
  - by rewrite decide_True.
  - by rewrite decide_False.
Qed.

Lemma list_overfilled_options_eq threshold m :
  dict_wf (by_option m) →
  list_overfilled_options threshold m =
  Return (filter (λ o, (threshold < Z.of_nat (occupancy (by_option m) o))%Z)
                 (keys (by_option m))).
Proof.
  intros [_ Hwf]. unfold list_overfilled_options.
  rewrite (filterM_pure _ (λ o, bool_decide
             (threshold < Z.of_nat (occupancy (by_option m) o))%Z)).
  - f_equal. apply list_filter_iff. intros o. by rewrite bool_decide_eq_true.
  - intros o Ho. apply Hwf in Ho as [members Hm].
    unfold dict_get, occupancy. by rewrite Hm.
Qed.

(** X6.  [list_overfilled_options(threshold)] returns, in the order of
    the dict, exactly the options that hold more than [threshold]
    students.  On an option of the matching that it does not return,
    [make_trim_iterable] fails its assertion; on one it returns (whose
    students all have a lock flag) [make_trim_iterable] returns. *)
Theorem overfilled_options_and_their_trims threshold m :
  dict_wf (by_option m) →
  list_overfilled_options threshold m =
    Return (filter (λ o, (threshold < Z.of_nat (occupancy (by_option m) o))%Z)
                   (keys (by_option m))) ∧
  ∀ o overfilled,
    list_overfilled_options threshold m = Return overfilled →
    o ∈ keys (by_option m) →
    (o ∉ overfilled → make_trim_iterable o threshold m = Raise AssertionError) ∧
    (o ∈ overfilled →
     (∀ s members, store (by_option m) !! o = Some members → s ∈ members →
                   is_Some (store (student_locked m) !! s)) →
     ∃ it, make_trim_iterable o threshold m = Return it).
Proof.
  intros Hwf. split; [by apply list_overfilled_options_eq|].
  intros o overfilled Hover Ho.
  destruct (list_overfilled_options_Return _ _ _ Hover o Ho)
    as (members & Hm & Hiff).
  unfold make_trim_iterable, dict_get. rewrite Hm. cbn. split.
  - intros Hnot. rewrite bool_decide_eq_false_2; [done|]. by rewrite <- Hiff.
  - intros Hin Hlocks. rewrite bool_decide_eq_true_2 by (by apply Hiff). cbn.
    rewrite (filterM_pure _ (λ s, bool_decide
               (store (student_locked m) !! s = Some false))).
    + cbn. eauto.
    + intros s Hs%elem_of_elements.
      destruct (Hlocks s members eq_refl Hs) as [b Hb].
      unfold is_locked, dict_get. rewrite Hb. cbn. f_equal.
      destruct b.
      * by rewrite bool_decide_eq_false_2.
      * by rewrite bool_decide_eq_true_2.
Qed.

Lemma combinations_complete {A : Type} (pool g : list A) :
  g `sublist_of` pool → g ∈ combinations pool (length g).
Proof.
  induction 1 as [|x g pool _ IH|x g pool _ IH].
  - apply list_elem_of_here.
  - cbn. apply elem_of_app. left. by apply list_elem_of_fmap_2.
  - destruct g as [|y g].
    + destruct pool; apply list_elem_of_here.
    + cbn [length combinations]. apply elem_of_app. by right.
Qed.

Lemma filter_sublist_length (removable : list string) (G : gset string) :
  NoDup removable → (∀ s, s ∈ G → s ∈ removable) →
  length (filter (.∈ G) removable) = size G.
Proof.
  intros Hnd Hsub.
  rewrite <- (size_list_to_set (C:=gset string)) by (by apply NoDup_filter).
  f_equal. apply set_eq. intros s.
  rewrite elem_of_list_to_set, list_elem_of_filter. naive_solver.
Qed.

(** X7.  The groups [make_trim_iterable(option, threshold)] yields are
    exactly the ways to bring the option down to the threshold by
    removing unlocked students: each group holds as many distinct
    students as the option is over the threshold, all of them unlocked
    students of the option, and every set of that many unlocked
    students of the option is yielded as one of the groups. *)
Theorem trim_iterable_yields_the_removals o threshold m it :
  make_trim_iterable o threshold m = Return it →
  ∃ members,
    store (by_option m) !! o = Some members ∧
    (threshold < Z.of_nat (size members))%Z ∧
    (∀ g, g ∈ it →
          NoDup g ∧
          Z.of_nat (length g) = (Z.of_nat (size members) - threshold)%Z ∧
          ∀ s, s ∈ g → s ∈ members ∧
                       store (student_locked m) !! s = Some false) ∧
    (∀ G : gset string,
       G ⊆ members →
       (∀ s, s ∈ G → store (student_locked m) !! s = Some false) →
       Z.of_nat (size G) = (Z.of_nat (size members) - threshold)%Z →
       ∃ g, g ∈ it ∧ list_to_set g = G).
Proof.
  unfold make_trim_iterable. intros H.
  apply bind_Return in H as (members & Hm%dict_get_Return & H).
  apply bind_Return in H as (u & Ha%assert_Return & H).
  apply bool_decide_eq_true in Ha.
  apply bind_Return in H as (removable & Hr & H). injection H as <-.
  apply filterM_Return in Hr as [Hr Hall].
  assert (NoDup removable) as Hnd.
  { rewrite Hr. apply NoDup_filter, NoDup_elements. }
  assert (∀ s, s ∈ removable ↔
               s ∈ members ∧ store (student_locked m) !! s = Some false) as Hrem.
  { intros s. rewrite Hr, list_elem_of_filter, elem_of_elements. split.
    - intros [Hs Hin]. split; [done|].
      apply bind_Return in Hs as (b & Hb%is_locked_Return & Hs).
      injection Hs as Hs. by destruct b.
    - intros [Hin Hs]. split; [|done].
      unfold is_locked, dict_get. by rewrite Hs. }
  exists members. split; [done|]. split; [done|]. split.
  - intros g [Hlen Hsub]%combinations_sublist. split.
    + by eapply sublist_NoDup.
    + split; [lia|]. intros s Hs. apply Hrem. by eapply elem_of_sublist.
  - intros G Hsub Hunlocked Hsize.
    exists (filter (.∈ G) removable).
    assert (∀ s, s ∈ G → s ∈ removable) as HG.
    { intros s Hs. apply Hrem. split; [by apply Hsub|by apply Hunlocked]. }
    split.
    + replace (Z.to_nat (Z.of_nat (size members) - threshold))
        with (length (filter (.∈ G) removable)).
      * apply combinations_complete, sublist_filter.
      * rewrite filter_sublist_length by done. lia.
    + apply set_eq. intros s.
      rewrite elem_of_list_to_set, list_elem_of_filter. naive_solver.
Qed.

Lemma repeated_ext bo (g g' : nat → nat) ks :
  (∀ n, g n = g' n) → repeated bo g ks = repeated bo g' ks.
Proof.
  intros H. unfold repeated. induction ks as [|o ks IH]; [done|].
  cbn. by rewrite H, IH.
Qed.

(** X8.  [list_empty_spots(low, high)] returns a list in which each
    option that holds at least [low] and fewer than [high] students
    occurs once for every student it lacks to reach [high], and no
    other option occurs.  With [low] at most 0 it is the list
    [list_underfilled_options(high)] returns, item for item. *)
Theorem empty_spots_by_headroom low high m :
  dict_wf (by_option m) →
  ∃ l, list_empty_spots low high m = Return l ∧
       (∀ o, o ∈ keys (by_option m) →
             occurrences o l =
             if bool_decide (low ≤ Z.of_nat (occupancy (by_option m) o)
                             < high)%Z
             then Z.to_nat (high - Z.of_nat (occupancy (by_option m) o))
             else 0) ∧
       (∀ o, o ∈ l → o ∈ keys (by_option m)) ∧
       ((low ≤ 0)%Z → list_underfilled_options high m = Return l).
Proof.
  intros Hwf. eexists. split; [by apply list_empty_spots_Return|]. split; [|split].
  - intros o Ho. rewrite occurrences_repeated by (done || apply Hwf).
    unfold headroom. repeat case_bool_decide; lia.
  - intros o. apply elem_of_repeated.
  - intros Hlow. rewrite list_underfilled_options_Return by done. f_equal.
    apply repeated_ext. intros n. unfold headroom.
    case_bool_decide; lia.
Qed.

(** ** The matching of the older script *)

Lemma old_Matching_eta (m : AU.Matching) :
  {| AU.by_option := AU.by_option m; AU.by_student := AU.by_student m |} = m.
Proof. by destruct m. Qed.

Lemma orient_option_student m o s :
  is_Some (store (AU.by_option m) !! o) →
  is_Some (store (AU.by_student m) !! s) →
  ¬ (is_Some (store (AU.by_option m) !! s) ∧
     is_Some (store (AU.by_student m) !! o)) →
  AU.orient m o s = Return (o, s) ∧ AU.orient m s o = Return (o, s).
Proof.
  intros Ho Hs Hnot. unfold AU.orient.
  apply dict_has_true in Ho as Ho', Hs as Hs'. rewrite Ho', Hs'. cbn.
  split; [done|].
  destruct (dict_has s (AU.by_option m)) eqn:E1;
    destruct (dict_has o (AU.by_student m)) eqn:E2; cbn; try done.
  apply dict_has_true in E1, E2. by destruct Hnot.
Qed.

(** X9.  The two arguments of [add_pair] and of [delete_pair] may come
    in either order: unless the two names can each be read both as an
    option and as a student, the call with the arguments swapped does
    the same and returns the same. *)
Theorem pair_arguments_in_either_order u v m :
  ¬ (is_Some (store (AU.by_option m) !! u) ∧
     is_Some (store (AU.by_student m) !! v) ∧
     is_Some (store (AU.by_option m) !! v) ∧
     is_Some (store (AU.by_student m) !! u)) →
  AU.add_pair u v m = AU.add_pair v u m ∧
  AU.delete_pair u v m = AU.delete_pair v u m.
Proof.
  intros Hnot.
  assert (AU.orient m u v = AU.orient m v u) as Ho.
  { unfold AU.orient.
    destruct (dict_has u (AU.by_option m)) eqn:E1;
      destruct (dict_has v (AU.by_student m)) eqn:E2;
      destruct (dict_has v (AU.by_option m)) eqn:E3;
      destruct (dict_has u (AU.by_student m)) eqn:E4; cbn; try done.
    apply dict_has_true in E1, E2, E3, E4. by destruct Hnot. }
  unfold AU.add_pair, AU.delete_pair. by rewrite Ho.
Qed.

(** X10.  [delete_pair] undoes [add_pair]: in a matching where
    [by_student[s] == o] exactly when [s] is in [by_option[o]], adding
    a pair and deleting it again gives back the matching, dict for
    dict.  Adding the same pair a second time raises [ValueError], and
    after the deletion a second deletion raises [ValueError]. *)
Theorem add_and_delete_pair_are_inverse u v m m' :
  agree (AU.by_student m) (AU.by_option m) →
  AU.add_pair u v m = Return m' →
  AU.delete_pair u v m' = Return m ∧
  AU.add_pair u v m' = Raise ValueError ∧
  AU.delete_pair u v m = Raise ValueError.
Proof.
  intros Hag Hadd.
  unfold AU.add_pair in Hadd.
  apply bind_Return in Hadd as ([o s] & Hor & Hadd).
  apply bind_Return in Hadd as (cur & Hcur%dict_get_Return & Hadd).
  destruct cur as [|]; [done|].
  apply bind_Return in Hadd as (members & Hm%dict_get_Return & Hadd).
  injection Hadd as <-.
  assert (s ∉ members) as Hs.
  { intros Hin. assert (store (AU.by_student m) !! s = Some (Some o)) as H
      by (apply Hag; eauto). congruence. }
  assert (AU.orient
            {| AU.by_option := dict_set o (members ∪ {[s]}) (AU.by_option m);
               AU.by_student := dict_set s (Some o) (AU.by_student m) |} u v
          = Return (o, s)) as Hor'.
  { unfold AU.orient in *. cbn [AU.by_option AU.by_student].
    unfold dict_has in *. rewrite !store_dict_set.
    assert (∀ {V} (σ : gmap string V) k k' x,
              is_Some (σ !! k') → 
              bool_decide (is_Some (<[k' := x]> σ !! k)) = bool_decide (is_Some (σ !! k)))
      as Hins.
    { intros V σ k k' x Hk'. apply bool_decide_ext.
      destruct (decide (k = k')) as [->|Hne].
      - rewrite lookup_insert_eq. split; [done|eauto].
      - by rewrite lookup_insert_ne. }
    rewrite !Hins by (by rewrite ?Hm, ?Hcur). done. }
  split; [|split].
  - unfold AU.delete_pair. rewrite Hor'. cbn [mbind result_bind].
    unfold dict_get. cbn [AU.by_option AU.by_student].
    rewrite !store_dict_set, !lookup_insert_eq. cbn [mbind result_bind].
    rewrite bool_decide_eq_true_2 by done.
    rewrite bool_decide_eq_true_2 by set_solver.
    rewrite !dict_set_set.
    replace ((members ∪ {[s]}) ∖ {[s]}) with members by set_solver.
    rewrite !dict_set_id by done. by rewrite old_Matching_eta.
  - unfold AU.add_pair. rewrite Hor'. cbn [mbind result_bind].
    unfold dict_get. cbn [AU.by_option AU.by_student].
    by rewrite !store_dict_set, !lookup_insert_eq.
  - unfold AU.delete_pair. rewrite Hor. cbn [mbind result_bind].
    unfold dict_get. rewrite Hcur. cbn [mbind result_bind].
    by rewrite bool_decide_eq_false_2.
Qed.

(** X11.  After [add_pair(student, option)] the two can be looked up
    from each other: [lookup(student)] returns the option, and
    [lookup(option)], when the option is not also the name of a
    student, returns a set that holds the student.  A name that is
    neither a student nor an option raises [KeyError]. *)
Theorem lookup_after_add_pair u v m m' :
  AU.add_pair u v m = Return m' →
  (∃ o s, ((o = u ∧ s = v) ∨ (o = v ∧ s = u)) ∧
          AU.lookup s m' = Return (AU.OfStudent (Some o)) ∧
          (store (AU.by_student m) !! o = None →
           ∃ members, AU.lookup o m' = Return (AU.OfOption members) ∧
                      s ∈ members)) ∧
  (∀ x, store (AU.by_student m') !! x = None →
        store (AU.by_option m') !! x = None →
        AU.lookup x m' = Raise KeyError).
Proof.
  intros (o & s & members & Hos & Hs & Ho & ->)%add_pair_Return. split.
  - exists o, s. split; [done|]. unfold AU.lookup. cbn [AU.by_option AU.by_student].
    rewrite !store_dict_set. rewrite lookup_insert_eq. split; [done|].
    intros Hnone. assert (o ≠ s) as Hne by congruence.
    rewrite lookup_insert_ne, Hnone by done. rewrite lookup_insert_eq.
    eexists. split; [done|]. set_solver.
  - intros x Hx1 Hx2. unfold AU.lookup. by rewrite Hx1, Hx2.
Qed.

(** *** Clearing and the queries on the sizes *)

Lemma fold_set_const_store {V : Type} (v : V) (l : list string) (d : dict V) k :
  store (fold_left (λ d x, dict_set x v d) l d) !! k =
  if decide (k ∈ l) then Some v else store d !! k.
Proof.
  revert d. induction l as [|x l IH]; intros d; [done|].
  cbn [fold_left]. rewrite IH, store_dict_set.
  destruct (decide (k ∈ l)) as [Hin|Hin].
  - by rewrite decide_True by (by apply list_elem_of_further).
  - destruct (decide (k = x)) as [->|Hne].
    + rewrite lookup_insert_eq. by rewrite decide_True by apply list_elem_of_here.
    + rewrite lookup_insert_ne by done.
      rewrite decide_False; [done|]. intros [?|?]%elem_of_cons; done.
Qed.

Lemma fold_set_const_keys {V : Type} (v : V) (l : list string) (d : dict V) :
  (∀ k, k ∈ l → is_Some (store d !! k)) →
  keys (fold_left (λ d x, dict_set x v d) l d) = keys d.
Proof.
  revert d. induction l as [|x l IH]; intros d H; [done|].
  cbn [fold_left]. rewrite IH.
  - apply keys_dict_set_present, H, list_elem_of_here.
  - intros k Hk. rewrite store_dict_set.
    destruct (decide (k = x)) as [->|Hne].
    + by rewrite lookup_insert_eq.
    + rewrite lookup_insert_ne by done. by apply H, list_elem_of_further.
Qed.

Lemma dict_ext {V : Type} (d d' : dict V) :
  keys d = keys d' → (∀ k, store d !! k = store d' !! k) → d = d'.
Proof.
  destruct d as [ks σ], d' as [ks' σ']. cbn. intros -> H. f_equal. by apply map_eq.
Qed.

Lemma dict_from_keys_store {V : Type} (v : V) (l : list string) k :
  store (dict_from_keys l v) !! k = if decide (k ∈ l) then Some v else None.
Proof. unfold dict_from_keys. by rewrite fold_set_const_store. Qed.

Lemma dict_from_keys_keys {V : Type} (v : V) (l : list string) :
  NoDup l → keys (dict_from_keys l v) = l.
Proof.
  intros Hnd. change (dict_from_keys l v) with (dict_of id (λ _, v) l).
  rewrite keys_dict_of by (by rewrite list_fmap_id). apply list_fmap_id.
Qed.

(** X12.  [clear] resets the matching: the cleared matching is the one
    [Matching(options, students)] builds from the options and the
    students of the matching, in their order; it has no pair, and
    clearing it again changes nothing. *)
Theorem clear_gives_the_fresh_matching m :
  dict_wf (AU.by_option m) → dict_wf (AU.by_student m) →
  AU.clear m = AU.Matching_init (keys (AU.by_option m)) (keys (AU.by_student m)) ∧
  AU.as_tuples (AU.clear m)
    = list_to_set ((λ s, (s, None)) <$> keys (AU.by_student m)) ∧
  AU.clear (AU.clear m) = AU.clear m.
Proof.
  intros [Hndo Hwfo] [Hnds Hwfs].
  assert (AU.clear m
          = AU.Matching_init (keys (AU.by_option m)) (keys (AU.by_student m)))
    as Hclear.
  { unfold AU.clear, AU.Matching_init. f_equal.
    - apply dict_ext.
      + rewrite fold_set_const_keys by (intros; by apply Hwfo).
        by rewrite dict_from_keys_keys.
      + intros k. rewrite fold_set_const_store, dict_from_keys_store.
        destruct (decide (k ∈ keys (AU.by_option m))) as [|Hk]; [done|].
        destruct (store (AU.by_option m) !! k) eqn:E; [|done].
        destruct Hk. apply Hwfo. by rewrite E.
    - apply dict_ext.
      + rewrite fold_set_const_keys by (intros; by apply Hwfs).
        by rewrite dict_from_keys_keys.
      + intros k. rewrite fold_set_const_store, dict_from_keys_store.
        destruct (decide (k ∈ keys (AU.by_student m))) as [|Hk]; [done|].
        destruct (store (AU.by_student m) !! k) eqn:E; [|done].
        destruct Hk. apply Hwfs. by rewrite E. }
  split; [done|]. split.
  - rewrite Hclear. unfold AU.as_tuples, AU.Matching_init. cbn [AU.by_student].
    f_equal. change (dict_from_keys (keys (AU.by_student m)) None)
      with (dict_of id (λ _ : string, None : option string) (keys (AU.by_student m))).
    rewrite dict_items_dict_of by (by rewrite list_fmap_id). done.
  - rewrite Hclear. unfold AU.clear, AU.Matching_init.
    cbn [AU.by_option AU.by_student].
    rewrite !dict_from_keys_keys by done. f_equal.
    + apply dict_ext.
      * rewrite fold_set_const_keys; [done|].
        intros k Hk. rewrite dict_from_keys_store. by rewrite decide_True.
      * intros k. rewrite fold_set_const_store, dict_from_keys_store.
        by destruct (decide _).
    + apply dict_ext.
      * rewrite fold_set_const_keys; [done|].
        intros k Hk. rewrite dict_from_keys_store. by rewrite decide_True.
      * intros k. rewrite fold_set_const_store, dict_from_keys_store.
        by destruct (decide _).
Qed.

Lemma underfilled_empty_iff limit m :
  AU.underfilled limit m = ∅ ↔
  ∀ xy, xy ∈ dict_items (AU.by_option m) → ¬ (Z.of_nat (size xy.2) < limit)%Z.
Proof.
  unfold AU.underfilled. split.
  - intros H xy Hxy Hlt.
    assert (xy.1 ∈ (∅ : gset string)) as Hin; [|by apply elem_of_empty in Hin].
    rewrite <- H. apply elem_of_list_to_set, list_elem_of_fmap.
    exists xy. split; [done|]. by apply list_elem_of_filter.
  - intros H. apply set_eq. intros x. split; [|by intros ?%elem_of_empty].
    intros (xy & -> & [Hlt Hxy]%list_elem_of_filter)%elem_of_list_to_set%list_elem_of_fmap.
    by destruct (H xy Hxy).
Qed.

(** X13.  The queries on the sizes of the options agree with each
    other: [empty_options()] is [underfilled()] with its default limit
    1; [obeys_min_per_option(limit)] without an option holds exactly
    when [underfilled(limit)] is empty, and exactly when it holds for
    every option of the matching one by one; and
    [obeys_max_per_option(limit)] without an option holds exactly when
    it holds for every option one by one. *)
Theorem size_queries_agree limit m :
  AU.empty_options m = AU.underfilled AU.underfilled_default_limit m ∧
  (AU.obeys_min_per_option_all limit m = true ↔ AU.underfilled limit m = ∅) ∧
  (dict_wf (AU.by_option m) →
   (AU.obeys_min_per_option_all limit m = true ↔
    ∀ o, o ∈ keys (AU.by_option m) →
         AU.obeys_min_per_option limit o m = Return true) ∧
   (AU.obeys_max_per_option_all limit m = true ↔
    ∀ o, o ∈ keys (AU.by_option m) →
         AU.obeys_max_per_option limit o m = Return true)).
Proof.
  split; [|split].
  - unfold AU.empty_options, AU.underfilled, AU.underfilled_default_limit.
    do 2 f_equal. apply list_filter_iff. intros xy. lia.
  - rewrite underfilled_empty_iff. unfold AU.obeys_min_per_option_all.
    rewrite forallb_forall. split.
    + intros H xy Hxy%list_elem_of_In. apply H in Hxy.
      by apply negb_true_iff, bool_decide_eq_false in Hxy.
    + intros H xy Hxy%list_elem_of_In.
      apply negb_true_iff, bool_decide_eq_false. by apply H.
  - intros [_ Hwf]. split.
    + unfold AU.obeys_min_per_option_all, AU.obeys_min_per_option.
      rewrite forallb_forall. split.
      * intros H o Ho. apply Hwf in Ho as Ho'. destruct Ho' as [members Hm].
        unfold dict_get. rewrite Hm. cbn. f_equal.
        assert (In (o, members) (dict_items (AU.by_option m))) as Hin
          by (by apply list_elem_of_In, elem_of_dict_items).
        apply H, negb_true_iff, bool_decide_eq_false in Hin. cbn in Hin.
        apply bool_decide_eq_true. lia.
      * intros H [o members] [Ho Hm]%list_elem_of_In%elem_of_dict_items.
        specialize (H o Ho). unfold dict_get in H. rewrite Hm in H.
        injection H as H. apply bool_decide_eq_true in H.
        apply negb_true_iff, bool_decide_eq_false. cbn. lia.
    + unfold AU.obeys_max_per_option_all, AU.obeys_max_per_option.
      rewrite forallb_forall. split.
      * intros H o Ho. apply Hwf in Ho as Ho'. destruct Ho' as [members Hm].
        unfold dict_get. rewrite Hm. cbn. f_equal.
        assert (In (o, members) (dict_items (AU.by_option m))) as Hin
          by (by apply list_elem_of_In, elem_of_dict_items).
        apply H, negb_true_iff, bool_decide_eq_false in Hin. cbn in Hin.
        apply bool_decide_eq_true. lia.
      * intros H [o members] [Ho Hm]%list_elem_of_In%elem_of_dict_items.
        specialize (H o Ho). unfold dict_get in H. rewrite Hm in H.
        injection H as H. apply bool_decide_eq_true in H.
        apply negb_true_iff, bool_decide_eq_false. cbn. lia.
Qed.

(** ** The driver of the older script, continued *)

Lemma combinations_too_many {A : Type} (pool : list A) r :
  length pool < r → combinations pool r = [].
Proof.
  revert r. induction pool as [|x pool IH]; intros [|r] H; cbn in *; try lia.
  - done.
  - rewrite !IH by lia. done.
Qed.

(** X14.  With more unhappy students asked for than there are students,
    [all_permitted_matchings] yields nothing; so once
    [n_unhappy_students] has passed the number of students without a
    round scoring a matching, no later round scores one and the
    [while True] loop does not end, however many rounds it is given. *)
Theorem too_many_unhappy_students_yield_nothing
    {Acc : Type} (consume : AU.Matching → Acc → result Acc)
    options choices scorer options_list :
  (∀ n_unhappy acc,
     length (keys choices) < n_unhappy →
     AU.all_permitted_matchings consume options choices n_unhappy acc
       = Return acc) ∧
  (∀ fuel n_unhappy_students,
     length (keys choices) < n_unhappy_students →
     AssignStudents.search_loop fuel scorer options_list choices
       n_unhappy_students = Return None).
Proof.
  assert (∀ {B : Type} (c : AU.Matching → B → result B) o n acc,
            length (keys choices) < n →
            AU.all_permitted_matchings c o choices n acc = Return acc) as H.
  { intros B c o n acc Hn. unfold AU.all_permitted_matchings.
    by rewrite combinations_too_many. }
  split; [apply H|].
  induction fuel as [|fuel IH]; intros u Hu; [done|].
  cbn [AssignStudents.search_loop]. rewrite H by done. cbn.
  apply IH. lia.
Qed.

(** X15.  The body of the driver's [for] loop keeps the best of the
    matchings it has been given: after any sequence of matchings the
    generator yields, [best_score] is the score of one of them and no
    score of any of them is greater, and [best_matches] holds the
    frozen pair sets of exactly the yielded matchings with that
    score. *)
Theorem loop_body_keeps_the_best scorer ms bm bs :
  foldM (λ b m, AssignStudents.consider scorer m b) None ms
    = Return (Some (bm, bs)) →
  (∀ m, m ∈ ms → ∃ s, AU.calculate_score scorer m = Return s ∧
                      tuple_ge bs s = true) ∧
  (∀ t, t ∈ bm ↔ ∃ m, m ∈ ms ∧ AU.as_tuples m = t ∧
                      AU.calculate_score scorer m = Return bs) ∧
  bm ≠ ∅.
Proof.
  pose (Inv := λ (done : list AU.Matching) (b : AssignStudents.best),
          match b with
          | None => done = []
          | Some (bm, bs) =>
              (∀ m, m ∈ done → ∃ s, AU.calculate_score scorer m = Return s ∧
                                    tuple_ge bs s = true) ∧
              (∀ t, t ∈ bm ↔ ∃ m, m ∈ done ∧ AU.as_tuples m = t ∧
                                  AU.calculate_score scorer m = Return bs) ∧
              bm ≠ ∅
          end).
  assert (∀ ms done b b',
            Inv done b →
            foldM (λ b m, AssignStudents.consider scorer m b) b ms = Return b' →
            Inv (done ++ ms) b') as Hfold.
  { clear ms bm bs. induction ms as [|m ms IH]; intros done b b' Hinv H.
    - injection H as <-. by rewrite app_nil_r.
    - cbn [foldM] in H. apply bind_Return in H as (b1 & Hb1 & H).
      replace (done ++ m :: ms) with ((done ++ [m]) ++ ms)
        by (by rewrite <- app_assoc).
      apply (IH _ b1); [|done]. clear IH H.
      unfold AssignStudents.consider in Hb1.
      apply bind_Return in Hb1 as (score & Hscore & Hb1).
      destruct b as [[bm bs]|].
      + destruct Hinv as (Hmax & Hset & Hne).
        destruct (tuple_gt score bs) eqn:Egt; [|case_bool_decide as Eeq].
        * injection Hb1 as <-. split; [|split].
          -- intros m' [Hm'| ->%list_elem_of_singleton]%elem_of_app.
             ++ destruct (Hmax m' Hm') as (s & Hs & Hge). exists s. split; [done|].
                by eapply tuple_ge_raise.
             ++ exists score. split; [done|]. apply tuple_ge_refl.
          -- intros t. rewrite elem_of_singleton. split.
             ++ intros ->. exists m. split; [|done]. apply elem_of_app. right.
                apply list_elem_of_here.
             ++ intros (m' & [Hm'| ->%list_elem_of_singleton]%elem_of_app & <- & Hs);
                  [|done].
                destruct (Hmax m' Hm') as (s & Hs' & Hge).
                assert (s = score) as -> by congruence.
                unfold tuple_ge in Hge. by rewrite Egt in Hge.
          -- apply non_empty_singleton_L.
        * injection Hb1 as <-. subst score. split; [|split].
          -- intros m' [Hm'| ->%list_elem_of_singleton]%elem_of_app; [by apply Hmax|].
             exists bs. split; [done|]. apply tuple_ge_refl.
          -- intros t. rewrite elem_of_union, elem_of_singleton, Hset. split.
             ++ intros [(m' & Hm' & <- & Hs)| ->].
                ** exists m'. split; [|done]. apply elem_of_app. by left.
                ** exists m. split; [|done]. apply elem_of_app. right.
                   apply list_elem_of_here.
             ++ intros (m' & [Hm'| ->%list_elem_of_singleton]%elem_of_app & <- & Hs);
                  [left; eauto|by right].
          -- set_solver.
        * injection Hb1 as <-. split; [|split; [|done]].
          -- intros m' [Hm'| ->%list_elem_of_singleton]%elem_of_app; [by apply Hmax|].
             exists score. split; [done|]. unfold tuple_ge. by rewrite Egt.
          -- intros t. rewrite Hset. split.
             ++ intros (m' & Hm' & <- & Hs). exists m'. split; [|done].
                apply elem_of_app. by left.
             ++ intros (m' & [Hm'| ->%list_elem_of_singleton]%elem_of_app & <- & Hs);
                  [eauto|congruence].
      + injection Hb1 as <-. rewrite Hinv. cbn. split; [|split].
        * intros m' ->%list_elem_of_singleton. exists score. split; [done|].
          apply tuple_ge_refl.
        * intros t. rewrite elem_of_singleton. split.
          -- intros ->. exists m. split; [apply list_elem_of_here|done].
          -- by intros (m' & ->%list_elem_of_singleton & <- & _).
        * apply non_empty_singleton_L. }
  intros H. exact (Hfold ms [] None _ eq_refl H).
Qed.

(** *** The tally of the choices *)

Lemma result_foldM_concat {A B : Type} (f : B → A → result B) acc (ls : list (list A)) :
  foldM (foldM f) acc ls = foldM f acc (concat ls).
Proof.
  revert acc. induction ls as [|l ls IH]; intros acc; [done|].
  cbn [foldM concat]. revert acc. induction l as [|x l IHl]; intros acc.
  - cbn. apply IH.
  - cbn [foldM app]. destruct (f acc x) as [acc'|e]; cbn; [apply IHl|done].
Qed.

Lemma occurrences_cons o x l :
  occurrences o (x :: l) = (if decide (o = x) then 1 else 0) + occurrences o l.
Proof.
  unfold occurrences. rewrite filter_cons. by destruct (decide (o = x)).
Qed.

Lemma tally_fold (picks : list string) (d : dict Z) :
  (∀ p, p ∈ picks → is_Some (store d !! p)) →
  ∃ d', foldM (λ tally my_choice,
                 n ← dict_get my_choice tally;
                 Return (dict_set my_choice (n + 1)%Z tally)) d picks = Return d' ∧
        keys d' = keys d ∧
        ∀ o, store d' !! o
             = (λ n, (n + Z.of_nat (occurrences o picks))%Z) <$> store d !! o.
Proof.
  revert d. induction picks as [|p picks IH]; intros d Hin.
  - exists d. split; [done|]. split; [done|]. intros o.
    destruct (store d !! o); cbn; [|done]. f_equal. unfold occurrences. cbn. lia.
  - destruct (Hin p) as [n Hn]; [apply list_elem_of_here|].
    cbn [foldM]. rewrite (proj2 (dict_get_Return p d n) Hn). cbn [mbind result_bind].
    destruct (IH (dict_set p (n + 1)%Z d)) as (d' & Hd' & Hk & Hs).
    { intros q Hq. rewrite store_dict_set.
      destruct (decide (q = p)) as [->|Hne].
      - by rewrite lookup_insert_eq.
      - rewrite lookup_insert_ne by done. by apply Hin, list_elem_of_further. }
    exists d'. split; [done|]. split.
    + rewrite Hk. apply keys_dict_set_present. by rewrite Hn.
    + intros o. rewrite Hs, store_dict_set, occurrences_cons.
      destruct (decide (o = p)) as [->|Hne].
      * rewrite lookup_insert_eq, Hn. cbn. f_equal. lia.
      * rewrite lookup_insert_ne by done.
        by destruct (store d !! o).
Qed.

Lemma tally_fold_raises (picks : list string) (d : dict Z) :
  (∃ p, p ∈ picks ∧ store d !! p = None) →
  foldM (λ tally my_choice,
           n ← dict_get my_choice tally;
           Return (dict_set my_choice (n + 1)%Z tally)) d picks = Raise KeyError.
Proof.
  revert d. induction picks as [|q picks IH]; intros d (p & Hp & Hnone).
  - by apply elem_of_nil in Hp.
  - cbn [foldM].
    destruct (store d !! q) as [n|] eqn:Hq.
    2:{ unfold dict_get. by rewrite Hq. }
    rewrite (proj2 (dict_get_Return q d n) Hq). cbn [mbind result_bind].
    apply IH. exists p. apply elem_of_cons in Hp as [->|Hp]; [congruence|].
    split; [done|]. rewrite store_dict_set.
    rewrite lookup_insert_ne; [done|]. congruence.
Qed.

Lemma occurrences_zero o l : occurrences o l = 0 ↔ o ∉ l.
Proof.
  induction l as [|x l IH]; [split; [intros _ H; by apply elem_of_nil in H|done]|].
  rewrite occurrences_cons, not_elem_of_cons. destruct (decide (o = x)); [|naive_solver].
  split; [lia|naive_solver].
Qed.

Lemma filter_ext_in {A : Type} (P Q : A → Prop)
    `{!∀ x, Decision (P x), !∀ x, Decision (Q x)} (l : list A) :
  (∀ x, x ∈ l → P x ↔ Q x) → filter P l = filter Q l.
Proof.
  induction l as [|x l IH]; intros Hl; [done|].
  rewrite !filter_cons. rewrite IH by (intros; by apply Hl, list_elem_of_further).
  destruct (decide (P x)) as [HP|HP].
  - rewrite decide_True; [done|]. by apply (Hl x), HP; apply list_elem_of_here.
  - rewrite decide_False; [done|]. intros HQ. apply HP.
    by apply (Hl x); [apply list_elem_of_here|].
Qed.

Lemma all_choices_counts options choices :
  NoDup options →
  ((∀ p, p ∈ concat (snd <$> dict_items choices) → p ∈ options) →
   ∃ tally,
     AssignStudents.all_choices options choices = Return tally ∧
     keys tally = options ∧
     (∀ o, o ∈ options →
           store tally !! o
           = Some (Z.of_nat (occurrences o (concat (snd <$> dict_items choices))))) ∧
     zero_vote_options options choices
     = length (filter (λ o, store tally !! o = Some 0%Z) options)) ∧
  ((∃ p, p ∈ concat (snd <$> dict_items choices) ∧ p ∉ options) →
   AssignStudents.all_choices options choices = Raise KeyError).
Proof.
  intros Hnd. unfold AssignStudents.all_choices. rewrite result_foldM_concat.
  split.
  - intros Hin.
    destruct (tally_fold (concat (snd <$> dict_items choices))
                         (dict_from_keys options 0%Z))
      as (tally & Ht & Hk & Hs).
    { intros p Hp. rewrite dict_from_keys_store.
      rewrite decide_True by (by apply Hin). done. }
    exists tally. split; [done|].
    rewrite dict_from_keys_keys in Hk by done. split; [done|].
    assert (∀ o, o ∈ options →
                 store tally !! o
                 = Some (Z.of_nat (occurrences o (concat (snd <$> dict_items choices)))))
      as Hcount.
    { intros o Ho. rewrite Hs, dict_from_keys_store. by rewrite decide_True. }
    split; [done|].
    unfold zero_vote_options. f_equal. apply filter_ext_in. intros o Ho.
    rewrite (Hcount o Ho).
    assert (occurrences o (concat (snd <$> dict_items choices)) = 0 ↔
            Forall (λ picks : string * list string, o ∉ picks.2) (dict_items choices))
      as <-.
    { rewrite occurrences_zero, Forall_forall. split.
      - intros Hnot kv Hkv Ho'. apply Hnot. eapply elem_of_concat; [done|].
        apply list_elem_of_fmap. by exists kv.
      - intros Hall Hc.
        assert (∃ l, o ∈ l ∧ l ∈ snd <$> dict_items choices) as (l & Hol & Hl).
        { clear -Hc. induction (snd <$> dict_items choices) as [|l ls IH];
            [by apply elem_of_nil in Hc|].
          cbn in Hc. apply elem_of_app in Hc as [Hc|Hc].
          - exists l. split; [done|apply list_elem_of_here].
          - destruct (IH Hc) as (l' & ? & ?). exists l'. split; [done|].
            by apply list_elem_of_further. }
        apply list_elem_of_fmap in Hl as (kv & -> & Hkv). by apply (Hall kv). }
    split; [intros ->; done|]. intros [= H]. lia.
  - intros (p & Hp & Hnot). apply tally_fold_raises. exists p. split; [done|].
    rewrite dict_from_keys_store. by rewrite decide_False.
Qed.

Lemma result_foldM_app {A B : Type} (f : B → A → result B) acc (l1 l2 : list A) :
  foldM f acc (l1 ++ l2) = (acc' ← foldM f acc l1; foldM f acc' l2).
Proof.
  revert acc. induction l1 as [|x l1 IH]; intros acc; [done|].
  cbn [foldM app]. destruct (f acc x) as [acc'|e]; cbn; [apply IH|done].
Qed.

Lemma result_foldM_cons {A B : Type} (f : B → A → result B) acc x (l : list A) :
  foldM f acc (x :: l) = (acc' ← f acc x; foldM f acc' l).
Proof. reflexivity. Qed.

(** The loop of the two tallies, from any two tallies that know the
    choices: the second tally is what the inner loop alone gives on all
    the choices in a row, the first counts the heads of the lists. *)
Lemma tallies_fold (ls : list (list string)) (first all : dict Z) :
  Forall (λ l, l ≠ []) ls →
  (∀ p, p ∈ concat ls → is_Some (store first !! p)) →
  (∀ p, p ∈ concat ls → is_Some (store all !! p)) →
  ∃ first' all',
    foldM (λ '(first_choices, all_choices) choice_list,
             first ← match choice_list with
                     | [] => Raise IndexError
                     | c :: _ => Return c
                     end;
             n ← dict_get first first_choices;
             let first_choices := dict_set first (n + 1)%Z first_choices in
             all_choices ← foldM (λ tally my_choice,
                                    n ← dict_get my_choice tally;
                                    Return (dict_set my_choice (n + 1)%Z tally))
                                 all_choices choice_list;
             Return (first_choices, all_choices))
          (first, all) ls = Return (first', all') ∧
    foldM (λ tally my_choice,
             n ← dict_get my_choice tally;
             Return (dict_set my_choice (n + 1)%Z tally)) all (concat ls)
      = Return all' ∧
    keys first' = keys first ∧
    ∀ o, store first' !! o
         = (λ n, (n + Z.of_nat (occurrences o (omap head ls)))%Z) <$> store first !! o.
Proof.
  revert first all. induction ls as [|l ls IH]; intros first all Hne Hf Ha.
  - exists first, all. split; [done|]. split; [done|]. split; [done|].
    intros o. destruct (store first !! o); cbn; [|done]. f_equal.
    unfold occurrences. cbn. lia.
  - apply Forall_cons in Hne as [Hl Hne]. destruct l as [|c l]; [done|]. clear Hl.
    destruct (Hf c) as [n Hn]; [cbn; apply list_elem_of_here|].
    destruct (tally_fold (c :: l) all) as (all1 & Hall1 & _ & Hs1).
    { intros p Hp. apply Ha. cbn [concat]. apply elem_of_app. by left. }
    destruct (IH (dict_set c (n + 1)%Z first) all1 Hne)
      as (first' & all' & Hrun & Hall' & Hk & Hs).
    { intros p Hp. rewrite store_dict_set.
      destruct (decide (p = c)) as [->|Hpc].
      - by rewrite lookup_insert_eq.
      - rewrite lookup_insert_ne by done. apply Hf. cbn [concat].
        apply elem_of_app. by right. }
    { intros p Hp. rewrite Hs1.
      destruct (Ha p) as [x ->]; [|done]. cbn [concat]. apply elem_of_app. by right. }
    exists first', all'. split; [|split; [|split]].
    + rewrite result_foldM_cons. cbv beta iota. cbn [mbind result_bind].
      rewrite (proj2 (dict_get_Return c first n) Hn). cbn [mbind result_bind].
      rewrite Hall1. cbn [mbind result_bind]. exact Hrun.
    + cbn [concat]. rewrite result_foldM_app, Hall1. exact Hall'.
    + rewrite Hk. apply keys_dict_set_present. by rewrite Hn.
    + intros o. rewrite Hs, store_dict_set.
      change (omap head ((c :: l) :: ls)) with (c :: omap head ls).
      rewrite occurrences_cons.
      destruct (decide (o = c)) as [->|Hoc].
      * rewrite lookup_insert_eq, Hn. cbn. f_equal. lia.
      * rewrite lookup_insert_ne by done. by destruct (store first !! o).
Qed.

(** X16.  The loop of the statistics section, on students who each
    have at least one choice and whose choices are all options, fills
    the two tallies without raising: [first_choices] holds for every
    option the number of students whose first choice it is, and
    [all_choices] the number of times the option occurs in the choice
    lists; the options [all_choices] holds at 0 are the options no
    student chose. *)
Theorem tally_counts_the_choices options choices :
  NoDup options →
  (∀ l, l ∈ snd <$> dict_items choices → l ≠ []) →
  (∀ p, p ∈ concat (snd <$> dict_items choices) → p ∈ options) →
  ∃ first all,
    AssignStudents.tallies options choices = Return (first, all) ∧
    AssignStudents.all_choices options choices = Return all ∧
    keys first = options ∧ keys all = options ∧
    (∀ o, o ∈ options →
          store first !! o
          = Some (Z.of_nat (occurrences o (omap head (snd <$> dict_items choices))))) ∧
    (∀ o, o ∈ options →
          store all !! o
          = Some (Z.of_nat (occurrences o (concat (snd <$> dict_items choices))))) ∧
    zero_vote_options options choices
    = length (filter (λ o, store all !! o = Some 0%Z) options).
Proof.
  intros Hnd Hne Hin.
  destruct (proj1 (all_choices_counts options choices Hnd) Hin)
    as (tally & Htally & Hk & Hs & Hzero).
  destruct (tallies_fold (snd <$> dict_items choices)
              (dict_from_keys options 0%Z) (dict_from_keys options 0%Z))
    as (first & all & Hrun & Hall & Hkf & Hsf).
  { apply Forall_forall. exact Hne. }
  { intros p Hp. rewrite dict_from_keys_store.
    rewrite decide_True by (by apply Hin). done. }
  { intros p Hp. rewrite dict_from_keys_store.
    rewrite decide_True by (by apply Hin). done. }
  unfold AssignStudents.all_choices in Htally.
  rewrite result_foldM_concat, Hall in Htally. injection Htally as ->.
  exists first, tally. split; [exact Hrun|].
  split; [unfold AssignStudents.all_choices; by rewrite result_foldM_concat|].
  split; [by rewrite Hkf, dict_from_keys_keys|].
  split; [done|]. split; [|done].
  intros o Ho. rewrite Hsf, dict_from_keys_store. by rewrite decide_True.
Qed.

(** ** The scorers, continued *)

Lemma elements_one (X : gset nat) n :
  elements X = [n] → ∀ k, k ∈ X ↔ k = n.
Proof.
  intros E k. rewrite <- elem_of_elements, E. apply list_elem_of_singleton.
Qed.

Lemma lengths_elem_of (items : list (string * list string)) k :
  k ∈ (list_to_set ((λ kv : string * list string, length kv.2) <$> items)
       : gset nat) ↔
  ∃ kv, kv ∈ items ∧ length kv.2 = k.
Proof.
  rewrite elem_of_list_to_set, list_elem_of_fmap. naive_solver.
Qed.

(** X17.  [ScoreCalculator(choices, high_priority)] returns exactly
    when the two dicts have the same keys, there is at least one
    student, and all the choice lists have one length, which becomes
    its [n_choices]; in every other case, and so for no students at
    all, it raises [TypeError]. *)
Theorem score_calculator_needs_one_length choices high_priority :
  (∀ sc, AU.ScoreCalculator_init choices high_priority = Return sc ↔
         AU.key_set choices = AU.key_set high_priority ∧
         dict_items choices ≠ [] ∧
         (∀ kv, kv ∈ dict_items choices → length kv.2 = AU.sc_n_choices sc) ∧
         AU.sc_choices sc = choices ∧
         AU.sc_high_priority sc = high_priority) ∧
  (∀ e, AU.ScoreCalculator_init choices high_priority = Raise e → e = TypeError).
Proof.
  unfold AU.ScoreCalculator_init. split.
  - intros sc. case_bool_decide as Hkeys.
    { split; [done|]. by intros [? _]. }
    destruct (elements _) as [|n [|n' l]] eqn:E.
    + split; [done|]. intros (_ & Hne & _). exfalso.
      apply elements_empty_iff in E.
      destruct (dict_items choices) as [|kv items]; [done|].
      assert (length kv.2 ∈ (∅ : gset nat)) as Hin; [|by apply elem_of_empty in Hin].
      apply E, lengths_elem_of. exists kv. split; [apply list_elem_of_here|done].
    + pose proof (elements_one _ _ E) as Hone. split.
      * intros [= <-]. cbn. split; [done|]. split; [|split; [|done]].
        -- assert (n ∈ (list_to_set ((λ kv : string * list string, length kv.2)
                                      <$> dict_items choices) : gset nat)) as Hn
             by by apply Hone.
           apply lengths_elem_of in Hn as (kv & Hkv & _).
           intros Hnil. rewrite Hnil in Hkv. by apply elem_of_nil in Hkv.
        -- intros kv Hkv. apply Hone, lengths_elem_of. eauto.
      * intros (_ & Hne & Hlen & Hc & Hhp).
        destruct (dict_items choices) as [|kv items] eqn:Hitems; [done|].
        assert (AU.sc_n_choices sc = n) as Hn.
        { apply Hone, lengths_elem_of. exists kv.
          split; [apply list_elem_of_here|]. apply Hlen, list_elem_of_here. }
        destruct sc. cbn in *. by subst.
    + split; [done|]. intros (_ & _ & Hlen & _). exfalso.
      assert (NoDup (n :: n' :: l)) as Hnd by (rewrite <- E; apply NoDup_elements).
      assert (n ≠ n') as Hne.
      { apply NoDup_cons in Hnd as [Hn _]. intros ->. apply Hn, list_elem_of_here. }
      assert (∀ k, k ∈ [n; n'] → k = AU.sc_n_choices sc) as Heq.
      { intros k Hk.
        assert (k ∈ (list_to_set ((λ kv : string * list string, length kv.2)
                                    <$> dict_items choices) : gset nat)) as Hin.
        { apply elem_of_elements. rewrite E.
          apply elem_of_cons in Hk as [->|Hk]; [apply list_elem_of_here|].
          apply list_elem_of_singleton in Hk as ->.
          apply list_elem_of_further, list_elem_of_here. }
        apply lengths_elem_of in Hin as (kv & Hkv & <-). by apply Hlen. }
      apply Hne. rewrite (Heq n), (Heq n'); [done| |].
      * apply list_elem_of_further, list_elem_of_here.
      * apply list_elem_of_here.
  - intros e. case_bool_decide; [congruence|].
    destruct (elements _) as [|n [|n' l]]; congruence.
Qed.

(** The total of the counts of the ranks. *)
Lemma sum_counts_add f g K :
  foldr Z.add 0%Z (counts (λ i, f i + g i) K)
  = (foldr Z.add 0%Z (counts f K) + foldr Z.add 0%Z (counts g K))%Z.
Proof.
  unfold counts. induction (seq 1 K) as [|i l IH]; [done|].
  cbn. rewrite IH. lia.
Qed.

Lemma foldr_add_init (z : Z) (l : list Z) :
  foldr Z.add z l = (foldr Z.add 0%Z l + z)%Z.
Proof. induction l as [|x l IH]; cbn; [done|]. rewrite IH. lia. Qed.

Lemma sum_counts_indicator (r K : nat) :
  foldr Z.add 0%Z (counts (λ i, if decide (r = i) then 1 else 0) K)
  = if bool_decide (1 ≤ r ≤ K) then 1%Z else 0%Z.
Proof.
  unfold counts. induction K as [|K IH]; [by rewrite bool_decide_eq_false_2 by lia|].
  rewrite seq_S, fmap_app, foldr_app, foldr_add_init, IH. cbn.
  destruct (decide (r = S K)) as [->|Hne]; repeat case_bool_decide; lia.
Qed.

Lemma sum_replicate_zero K : foldr Z.add 0%Z (replicate K 0%Z) = 0%Z.
Proof. induction K as [|K IH]; [done|]. cbn. by rewrite IH. Qed.

Lemma happy_is_sum_of_ranks assigned K students :
  Forall (λ st, length (choices st) = K) students →
  Z.of_nat (happy_count assigned students)
  = foldr Z.add 0%Z (counts (count_choice assigned students) K).
Proof.
  induction students as [|st students IH] using rev_ind; intros Hlen.
  - change (count_choice assigned []) with (λ _ : nat, 0).
    by rewrite counts_zero, sum_replicate_zero.
  - apply Forall_app in Hlen as [Hlen Hst]. apply (proj1 (Forall_singleton _ _)) in Hst. cbv beta in Hst.
    rewrite happy_count_snoc.
    rewrite (counts_ext (λ i, count_choice assigned students i
                              + (if decide (rank_of assigned st = Some i)
                                 then 1 else 0)))
      by (intros; apply count_choice_snoc).
    rewrite sum_counts_add, <- IH by done.
    destruct (rank_of assigned st) as [r|] eqn:Hr.
    + rewrite (counts_ext (λ i, if decide (r = i) then 1 else 0)).
      2:{ intros i _. destruct (decide (r = i)) as [->|Hne].
          - by rewrite decide_True.
          - rewrite decide_False; [done|]. congruence. }
      rewrite sum_counts_indicator.
      unfold rank_of in Hr. destruct (assigned (name st)) as [o|]; [|done].
      cbn in Hr. apply position_bound in Hr.
      rewrite bool_decide_eq_true_2 by lia. cbv beta iota. lia.
    + rewrite (counts_ext (λ _, 0)) by (intros; by rewrite decide_False).
      rewrite counts_zero, sum_replicate_zero. cbv beta iota. lia.
Qed.

Lemma hp_count_below assigned students i :
  hp_count_choice assigned students i ≤ count_choice assigned students i.
Proof.
  unfold hp_count_choice, count_choice.
  induction students as [|st students IHs]; [done|].
  rewrite !filter_cons.
  destruct (decide (rank_of assigned st = Some i)) as [Hr|Hr].
  - destruct (decide (rank_of assigned st = Some i ∧ high_priority st = true));
      cbn; lia.
  - rewrite decide_False by (by intros [? _]). done.
Qed.

Lemma hp_counts_below assigned K students :
  Forall2 (λ h r : Z, (0 ≤ h ≤ r)%Z)
          (counts (hp_count_choice assigned students) K)
          (counts (count_choice assigned students) K).
Proof.
  unfold counts. induction (seq 1 K) as [|i l IH]; [constructor|].
  rewrite !fmap_cons. constructor; [|done].
  pose proof (hp_count_below assigned students i). lia.
Qed.

(** X18.  For students that the matching knows and that have
    [n_choices] choices each, [score_assignment] returns a tuple of
    [1 + 2 * n_choices] counts: the first is the total of the next
    [n_choices], one for each rank, and is at most the number of
    students; and each of the last [n_choices], the counts of the
    high-priority students by rank, is at most the count of its
    rank. *)
Theorem score_assignment_counts_add_up m students K :
  Forall (λ st, length (choices st) = K) students →
  (∀ st, st ∈ students → is_Some (store (by_student m) !! name st)) →
  ∃ happy ranks hp_ranks,
    score_assignment m students K = Return (happy :: ranks ++ hp_ranks) ∧
    length ranks = K ∧ length hp_ranks = K ∧
    happy = foldr Z.add 0%Z ranks ∧
    (0 ≤ happy ≤ Z.of_nat (length students))%Z ∧
    Forall2 (λ h r : Z, (0 ≤ h ≤ r)%Z) hp_ranks ranks.
Proof.
  intros Hlen Hknown.
  pose (assigned := λ s, mjoin (store (by_student m) !! s)).
  rewrite (score_assignment_reference m students K assigned); [|done|].
  2:{ intros st Hst. destruct (Hknown st Hst) as [v Hv].
      unfold assigned. by rewrite Hv. }
  rewrite reference_score_eq.
  eexists _, _, _. split; [done|].
  rewrite !length_counts. split; [done|]. split; [done|].
  split; [by apply happy_is_sum_of_ranks|]. split.
  - split; [lia|]. apply inj_le. unfold happy_count. apply length_filter.
  - apply hp_counts_below.
Qed.

(** ** The loops of the newer matching *)

Lemma bind_raise_run {A B : Type} (c : M A) (k : A → M B) e (w w1 : World) :
  c w = (Raise e, w1) → (c ≫= k) w = (Raise e, w1).
Proof. intros H. unfold mbind, M_bind. by rewrite H. Qed.

Lemma forM__app_run {A : Type} (f : A → M unit) l1 l2 w w1 :
  forM_ f l1 w = (Return tt, w1) → forM_ f (l1 ++ l2) w = forM_ f l2 w1.
Proof.
  revert w. induction l1 as [|x l1 IH]; intros w H.
  - by apply mret_run in H as [_ ->].
  - cbn [forM_ app] in *. apply bind_run in H as ([] & v & Hx & H).
    unfold mbind, M_bind. rewrite Hx. by apply IH.
Qed.

(** *** [erase_all] *)

Lemma erase_locked_raises s m :
  is_Some (store (by_student m) !! s) →
  store (student_locked m) !! s = Some true →
  erase s m = Raise AssertionError.
Proof.
  intros [v Hv] Hl. unfold erase. rewrite (is_matched_store _ _ _ Hv). cbn.
  destruct (bool_decide (v ≠ None)); cbn; [|done].
  unfold is_locked, dict_get. by rewrite Hl.
Qed.

Lemma erase_loop l w :
  NoDup l →
  agree (by_student (w_match w)) (by_option (w_match w)) →
  (∀ s, s ∈ l → is_Some (store (by_student (w_match w)) !! s)) →
  (∀ s o, s ∈ l → store (by_student (w_match w)) !! s = Some (Some o) →
          store (student_locked (w_match w)) !! s = Some false) →
  ∃ w',
    forM_ (λ student,
             matched ← query (λ m, is_matched m student);
             if matched : bool then mutate (erase student) else mret tt) l w
      = (Return tt, w') ∧
    shape_kept (w_match w) (w_match w') ∧
    student_locked (w_match w') = student_locked (w_match w) ∧
    (∀ s, s ∈ l → store (by_student (w_match w')) !! s = Some None) ∧
    (∀ s, s ∉ l → store (by_student (w_match w')) !! s
                  = store (by_student (w_match w)) !! s).
Proof.
  revert w. induction l as [|x l IH]; intros w Hnd Hag Hknown Hunlocked.
  - exists w. split; [done|]. split; [apply shape_kept_refl|]. split; [done|].
    split; [by intros s ?%elem_of_nil|done].
  - apply NoDup_cons in Hnd as [Hx Hnd].
    destruct (Hknown x) as [v Hv]; [apply list_elem_of_here|].
    cbn [forM_]. destruct v as [o|].
    + assert (store (student_locked (w_match w)) !! x = Some false) as Hl
        by (eapply Hunlocked; [apply list_elem_of_here|done]).
      destruct (proj1 (Hag x o) Hv) as (members & Ho & Hin).
      pose (m1 := {| by_student := dict_set x None (by_student (w_match w));
                     by_option := dict_set o (members ∖ {[x]}) (by_option (w_match w));
                     student_locked := student_locked (w_match w) |}).
      assert (erase x (w_match w) = Return m1) as Herase.
      { apply erase_Return. by exists o, members. }
      destruct (IH (moved w m1)) as (w' & Hrun & Hshape & Hlk & Hin' & Hout').
      * done.
      * unfold moved, m1; cbn [w_match by_student by_option student_locked]. by apply agree_remove.
      * intros s Hs. unfold moved, m1; cbn [w_match by_student by_option student_locked]. rewrite store_dict_set.
        destruct (decide (s = x)) as [->|Hne];
          [by rewrite lookup_insert_eq|rewrite lookup_insert_ne by done].
        by apply Hknown, list_elem_of_further.
      * intros s o' Hs. unfold moved, m1; cbn [w_match by_student by_option student_locked]. rewrite store_dict_set.
        assert (s ≠ x) as Hne by (by intros ->).
        rewrite lookup_insert_ne by done.
        by apply Hunlocked, list_elem_of_further.
      * exists w'. split.
        { apply bind_run. exists tt, (moved w m1). split; [|done].
          apply bind_run. exists true, w. split.
          - apply query_run. split; [|done]. by rewrite (is_matched_store _ _ _ Hv).
          - apply mutate_run. by exists m1. }
        split; [eapply shape_kept_trans; [by eapply shape_kept_erase|done]|].
        split; [done|]. split.
        -- intros s [->|Hs]%elem_of_cons; [|by apply Hin'].
           rewrite Hout' by done. unfold moved, m1; cbn [w_match by_student by_option student_locked].
           by rewrite store_dict_set, lookup_insert_eq.
        -- intros s Hs. apply not_elem_of_cons in Hs as [Hne Hs].
           rewrite Hout' by done. unfold moved, m1; cbn [w_match by_student by_option student_locked].
           by rewrite store_dict_set, lookup_insert_ne.
    + destruct (IH w) as (w' & Hrun & Hshape & Hlk & Hin' & Hout').
      * done.
      * done.
      * intros s Hs. by apply Hknown, list_elem_of_further.
      * intros s o' Hs. by apply Hunlocked, list_elem_of_further.
      * exists w'. split.
        { apply bind_run. exists tt, w. split; [|done].
          apply bind_run. exists false, w. split; [|done].
          apply query_run. split; [|done]. by rewrite (is_matched_store _ _ _ Hv). }
        split; [done|]. split; [done|]. split.
        -- intros s [->|Hs]%elem_of_cons; [|by apply Hin'].
           by rewrite Hout'.
        -- intros s Hs. apply not_elem_of_cons in Hs as [Hne Hs]. by apply Hout'.
Qed.

Lemma all_unmatched_options_empty m o :
  agree (by_student m) (by_option m) →
  dict_wf (by_option m) →
  (∀ s v, store (by_student m) !! s = Some v → v = None) →
  o ∈ keys (by_option m) → store (by_option m) !! o = Some ∅.
Proof.
  intros Hag [_ Hwf] Hnone Ho. apply Hwf in Ho as [members Hm].
  rewrite Hm. f_equal. apply set_eq. intros s. split; [|by intros ?%elem_of_empty].
  intros Hs. assert (store (by_student m) !! s = Some (Some o)) as H
    by (apply Hag; eauto).
  by apply Hnone in H.
Qed.

(** X19.  [erase_all] unmatches everybody: in a consistent matching
    in which no matched student is locked it returns, and afterwards
    every student is unmatched and every option is empty, while the
    keys of the three dicts and the lock flags are as before.  If a
    matched student is locked (every matched student having a lock
    flag), it raises [AssertionError] instead. *)
Theorem erase_all_unmatches_everybody w :
  agree (by_student (w_match w)) (by_option (w_match w)) →
  dict_wf (by_student (w_match w)) →
  dict_wf (by_option (w_match w)) →
  ((∀ s o, store (by_student (w_match w)) !! s = Some (Some o) →
           store (student_locked (w_match w)) !! s = Some false) →
   ∃ w',
     erase_all w = (Return tt, w') ∧
     keys (by_student (w_match w')) = keys (by_student (w_match w)) ∧
     keys (by_option (w_match w')) = keys (by_option (w_match w)) ∧
     student_locked (w_match w') = student_locked (w_match w) ∧
     (∀ s, s ∈ keys (by_student (w_match w)) →
           store (by_student (w_match w')) !! s = Some None) ∧
     (∀ o, o ∈ keys (by_option (w_match w)) →
           store (by_option (w_match w')) !! o = Some ∅)) ∧
  ((∀ s o, store (by_student (w_match w)) !! s = Some (Some o) →
           is_Some (store (student_locked (w_match w)) !! s)) →
   (∃ s o, store (by_student (w_match w)) !! s = Some (Some o) ∧
           store (student_locked (w_match w)) !! s = Some true) →
   (erase_all w).1 = Raise AssertionError).
Proof.
  intros Hag [Hnd Hwfs] Hwfo. split.
  - intros Hunlocked.
    destruct (erase_loop (keys (by_student (w_match w))) w)
      as (w' & Hrun & Hshape & Hlk & Hin & Hout); [done|done| | |].
    { intros s Hs. by apply Hwfs. }
    { intros s o _. apply Hunlocked. }
    exists w'. split.
    { unfold erase_all. apply bind_run. exists (keys (by_student (w_match w))), w.
      split; [by apply query_run|done]. }
    pose proof Hshape as (Hks & Hko & _ & _ & Hds & Hag').
    split; [done|]. split; [done|]. split; [done|]. split; [done|].
    intros o Ho. apply all_unmatched_options_empty.
    + by apply Hag'.
    + by eapply dict_wf_shape_by_option.
    + intros s v Hv.
      assert (s ∈ keys (by_student (w_match w))) as Hs.
      { apply Hwfs, Hds. by rewrite Hv. }
      rewrite (Hin s Hs) in Hv. congruence.
    + by rewrite Hko.
  - intros Hflags Hex.
    destruct (first_such
                (λ s, is_matched (w_match w) s = Return true ∧
                      store (student_locked (w_match w)) !! s = Some true)
                (keys (by_student (w_match w))))
      as (l1 & x & l2 & Hkeys & (Hxm & Hxl) & Hl1).
    { destruct Hex as (s & o & Hs & Hl). exists s. split.
      - apply Hwfs. by rewrite Hs.
      - split; [|done]. by rewrite (is_matched_store _ _ _ Hs). }
    assert (∃ o, store (by_student (w_match w)) !! x = Some (Some o)) as [o Hxo].
    { apply is_matched_Return in Hxm as ([o|] & Hv & Hb); [eauto|].
      by rewrite bool_decide_eq_false_2 in Hb by (by intros H). }
    rewrite Hkeys in Hnd. apply NoDup_app in Hnd as (Hnd1 & Hdisj & _).
    destruct (erase_loop l1 w) as (w1 & Hrun & Hshape & Hlk & Hin & Hout);
      [done|done| | |].
    { intros s Hs. apply Hwfs. rewrite Hkeys. apply elem_of_app. by left. }
    { intros s o' Hs Hso. destruct (Hflags s o' Hso) as [[] Hb]; [|done].
      destruct (Hl1 s Hs). split; [|done]. by rewrite (is_matched_store _ _ _ Hso). }
    unfold erase_all. unfold mbind at 1, M_bind at 1, query at 1.
    rewrite Hkeys. cbn [fst snd].
    rewrite (forM__app_run _ l1 (x :: l2) w w1 Hrun). cbn [forM_].
    assert (x ∉ l1) as Hx.
    { intros Hx. apply (Hdisj x Hx), list_elem_of_here. }
    assert (store (by_student (w_match w1)) !! x = Some (Some o)) as Hxo1
      by (by rewrite Hout).
    unfold mbind at 1, M_bind at 1. unfold mbind at 1, M_bind at 1, query at 1.
    rewrite (is_matched_store _ _ _ Hxo1).
    rewrite bool_decide_eq_true_2 by done.
    unfold mutate. rewrite erase_locked_raises; [done|by rewrite Hxo1|by rewrite Hlk].
Qed.

(** *** [lock_all_matched] and [unlock_many] *)

Lemma lock_loop l w acc :
  NoDup l →
  (∀ s, s ∈ l → is_Some (store (by_student (w_match w)) !! s) ∧
                is_Some (store (student_locked (w_match w)) !! s)) →
  ∃ w',
    foldM (λ were_locked student,
             matched ← query (λ m, is_matched m student);
             if matched : bool then
               locked ← query (λ m, is_locked m student);
               if locked : bool then mret were_locked
               else mutate (lock student);; mret (were_locked ++ [student])
             else mret were_locked) acc l w
    = (Return (acc ++ filter (λ s, is_matched (w_match w) s = Return true ∧
                                   is_locked (w_match w) s = Return false) l),
       w') ∧
    by_student (w_match w') = by_student (w_match w) ∧
    by_option (w_match w') = by_option (w_match w) ∧
    keys (student_locked (w_match w')) = keys (student_locked (w_match w)) ∧
    ∀ s, store (student_locked (w_match w')) !! s
         = if decide (s ∈ filter (λ s, is_matched (w_match w) s = Return true ∧
                                       is_locked (w_match w) s = Return false) l)
           then Some true else store (student_locked (w_match w)) !! s.
Proof.
  revert w acc. induction l as [|x l IH]; intros w acc Hnd Hknown.
  - exists w. rewrite app_nil_r. split; [done|]. split; [done|]. split; [done|].
    split; [done|]. intros s. rewrite decide_False; [done|]. by intros ?%elem_of_nil.
  - apply NoDup_cons in Hnd as [Hx Hnd].
    destruct (Hknown x) as [[v Hv] [b Hb]]; [apply list_elem_of_here|].
    pose proof (is_matched_store _ _ _ Hv) as Hm.
    assert (is_locked (w_match w) x = Return b) as Hlx
      by (by apply is_locked_Return).
    cbn [foldM]. rewrite filter_cons.
    destruct (bool_decide (v ≠ None)) eqn:Ematched;
      [destruct b|].
    + (* matched and locked already *)
      destruct (IH w acc) as (w' & Hrun & Hbs & Hbo & Hk & Hlk); [done| |].
      { intros s Hs. by apply Hknown, list_elem_of_further. }
      rewrite decide_False by (rewrite Hlx; by intros [_ ?]).
      exists w'. split.
      { apply bind_run. exists acc, w. split; [|done].
        apply bind_run. exists true, w. split; [by apply query_run|].
        apply bind_run. exists true, w. split; [by apply query_run|done]. }
      done.
    + (* matched and unlocked: the student is locked *)
      pose (m1 := {| by_student := by_student (w_match w);
                     by_option := by_option (w_match w);
                     student_locked := dict_set x true (student_locked (w_match w)) |}).
      assert (lock x (w_match w) = Return m1) as Hlock by (by apply lock_Return).
      destruct (IH (moved w m1) (acc ++ [x])) as (w' & Hrun & Hbs & Hbo & Hk & Hlk);
        [done| |].
      { intros s Hs. unfold moved, m1; cbn [w_match by_student student_locked].
        rewrite store_dict_set. split; [by apply Hknown, list_elem_of_further|].
        assert (s ≠ x) as Hne by (by intros ->).
        rewrite lookup_insert_ne by done. by apply Hknown, list_elem_of_further. }
      assert (filter (λ s, is_matched (w_match (moved w m1)) s = Return true ∧
                           is_locked (w_match (moved w m1)) s = Return false) l
              = filter (λ s, is_matched (w_match w) s = Return true ∧
                             is_locked (w_match w) s = Return false) l) as Hfilter.
      { apply filter_ext_in. intros s Hs.
        assert (s ≠ x) as Hne by (by intros ->).
        unfold is_locked, is_matched, dict_get, moved, m1;
          cbn [w_match by_student student_locked].
        by rewrite store_dict_set, lookup_insert_ne. }
      rewrite Hfilter in Hrun, Hlk.
      rewrite decide_True by (by rewrite Hm, Hlx).
      exists w'. split.
      { apply bind_run. exists (acc ++ [x]), (moved w m1). split.
        - apply bind_run. exists true, w. split; [by apply query_run|].
          apply bind_run. exists false, w. split; [by apply query_run|].
          apply bind_run. exists tt, (moved w m1). split; [|done].
          apply mutate_run. by exists m1.
        - by rewrite Hrun, <- app_assoc. }
      split; [done|]. split; [done|]. split.
      { rewrite Hk. unfold moved, m1; cbn [w_match student_locked].
        apply keys_dict_set_present. by rewrite Hb. }
      intros s. rewrite Hlk. unfold moved, m1; cbn [w_match student_locked].
      rewrite store_dict_set.
      destruct (decide (s = x)) as [->|Hne].
      * rewrite lookup_insert_eq.
        rewrite (decide_True (P := x ∈ x :: _)) by apply list_elem_of_here.
        by destruct (decide _).
      * rewrite lookup_insert_ne by done.
        destruct (decide (s ∈ filter _ l)) as [Hin|Hin].
        -- by rewrite decide_True by (by apply list_elem_of_further).
        -- rewrite decide_False; [done|]. intros [?|?]%elem_of_cons; done.
    + (* unmatched *)
      destruct (IH w acc) as (w' & Hrun & Hbs & Hbo & Hk & Hlk); [done| |].
      { intros s Hs. by apply Hknown, list_elem_of_further. }
      rewrite decide_False by (rewrite Hm; by intros [[=] _]).
      exists w'. split.
      { apply bind_run. exists acc, w. split; [|done].
        apply bind_run. exists false, w. split; [by apply query_run|done]. }
      done.
Qed.

Lemma unlock_loop l w :
  NoDup l →
  (∀ s, s ∈ l → store (student_locked (w_match w)) !! s = Some true) →
  ∃ w',
    unlock_many l w = (Return tt, w') ∧
    by_student (w_match w') = by_student (w_match w) ∧
    by_option (w_match w') = by_option (w_match w) ∧
    keys (student_locked (w_match w')) = keys (student_locked (w_match w)) ∧
    ∀ s, store (student_locked (w_match w')) !! s
         = if decide (s ∈ l) then Some false
           else store (student_locked (w_match w)) !! s.
Proof.
  unfold unlock_many.
  revert w. induction l as [|x l IH]; intros w Hnd Hlocked.
  - exists w. split; [done|]. split; [done|]. split; [done|]. split; [done|].
    intros s. rewrite decide_False; [done|]. by intros ?%elem_of_nil.
  - apply NoDup_cons in Hnd as [Hx Hnd].
    pose (m1 := {| by_student := by_student (w_match w);
                   by_option := by_option (w_match w);
                   student_locked := dict_set x false (student_locked (w_match w)) |}).
    assert (unlock x (w_match w) = Return m1) as Hunlock.
    { apply unlock_Return. split; [|done]. apply Hlocked, list_elem_of_here. }
    destruct (IH (moved w m1)) as (w' & Hrun & Hbs & Hbo & Hk & Hlk); [done| |].
    { intros s Hs. unfold moved, m1; cbn [w_match student_locked].
      assert (s ≠ x) as Hne by (by intros ->).
      rewrite store_dict_set, lookup_insert_ne by done.
      by apply Hlocked, list_elem_of_further. }
    exists w'. split.
    { cbn [forM_]. apply bind_run. exists tt, (moved w m1). split; [|done].
      apply mutate_run. by exists m1. }
    split; [done|]. split; [done|]. split.
    { rewrite Hk. unfold moved, m1; cbn [w_match student_locked].
      apply keys_dict_set_present. rewrite (Hlocked x); [done|apply list_elem_of_here]. }
    intros s. rewrite Hlk. unfold moved, m1; cbn [w_match student_locked].
    rewrite store_dict_set.
    destruct (decide (s = x)) as [->|Hne].
    + rewrite lookup_insert_eq.
      rewrite (decide_True (P := x ∈ x :: l)) by apply list_elem_of_here.
      by destruct (decide _).
    + rewrite lookup_insert_ne by done.
      destruct (decide (s ∈ l)) as [Hin|Hin].
      * by rewrite decide_True by (by apply list_elem_of_further).
      * rewrite decide_False; [done|]. intros [?|?]%elem_of_cons; done.
Qed.

(** X20.  [lock_all_matched] locks exactly the students that are
    matched and not yet locked and returns them in the order of the
    dict; afterwards every matched student is locked, and nobody's
    match has changed.  [unlock_many] on the returned list then gives
    back the matching as it was before the two calls, which is how
    the search brackets its recursive call. *)
Theorem lock_all_matched_then_unlock_many w :
  dict_wf (by_student (w_match w)) →
  (∀ s, s ∈ keys (by_student (w_match w)) →
        is_Some (store (student_locked (w_match w)) !! s)) →
  ∃ w1 w2,
    lock_all_matched w
    = (Return (filter (λ s, is_matched (w_match w) s = Return true ∧
                            is_locked (w_match w) s = Return false)
                      (keys (by_student (w_match w)))), w1) ∧
    by_student (w_match w1) = by_student (w_match w) ∧
    by_option (w_match w1) = by_option (w_match w) ∧
    (∀ s o, store (by_student (w_match w)) !! s = Some (Some o) →
            store (student_locked (w_match w1)) !! s = Some true) ∧
    unlock_many (filter (λ s, is_matched (w_match w) s = Return true ∧
                              is_locked (w_match w) s = Return false)
                        (keys (by_student (w_match w)))) w1
    = (Return tt, w2) ∧
    w_match w2 = w_match w.
Proof.
  intros [Hnd Hwf] Hflags.
  destruct (lock_loop (keys (by_student (w_match w))) w [])
    as (w1 & Hrun & Hbs & Hbo & Hk & Hlk); [done| |].
  { intros s Hs. split; [by apply Hwf|by apply Hflags]. }
  cbn [app] in Hrun.
  destruct (unlock_loop (filter (λ s, is_matched (w_match w) s = Return true ∧
                                      is_locked (w_match w) s = Return false)
                                (keys (by_student (w_match w)))) w1)
    as (w2 & Hrun2 & Hbs2 & Hbo2 & Hk2 & Hlk2).
  { by apply NoDup_filter. }
  { intros s Hs. rewrite Hlk. by rewrite decide_True. }
  exists w1, w2. split.
  { unfold lock_all_matched. apply bind_run.
    exists (keys (by_student (w_match w))), w. split; [by apply query_run|done]. }
  split; [done|]. split; [done|]. split.
  { intros s o Hso. rewrite Hlk.
    destruct (decide _) as [|Hnot]; [done|].
    assert (s ∈ keys (by_student (w_match w))) as Hs by (apply Hwf; by rewrite Hso).
    destruct (Hflags s Hs) as [[] Hb]; [done|].
    destruct Hnot. apply list_elem_of_filter. split; [|done]. split.
    - by rewrite (is_matched_store _ _ _ Hso).
    - by apply is_locked_Return. }
  split; [done|].
  rewrite <- (Matching_eta (w_match w2)), <- (Matching_eta (w_match w)).
  rewrite Hbs2, Hbo2, Hbs, Hbo. f_equal.
  apply dict_ext; [congruence|].
  intros s. rewrite Hlk2, Hlk.
  destruct (decide _) as [Hin|]; [|done].
  apply list_elem_of_filter in Hin as [[_ Hl] _].
  by apply is_locked_Return in Hl.
Qed.

(** *** [reduce_to_pairs] and [assign_pairs] *)

Lemma assign_loop pairs w :
  NoDup pairs.*1 →
  agree (by_student (w_match w)) (by_option (w_match w)) →
  (∀ p, p ∈ pairs →
        store (by_student (w_match w)) !! p.1 = Some None ∧
        store (student_locked (w_match w)) !! p.1 = Some false ∧
        is_Some (store (by_option (w_match w)) !! p.2)) →
  ∃ w',
    assign_pairs pairs w = (Return tt, w') ∧
    shape_kept (w_match w) (w_match w') ∧
    student_locked (w_match w') = student_locked (w_match w) ∧
    (∀ p, p ∈ pairs → store (by_student (w_match w')) !! p.1 = Some (Some p.2)) ∧
    (∀ s, s ∉ pairs.*1 → store (by_student (w_match w')) !! s
                         = store (by_student (w_match w)) !! s).
Proof.
  unfold assign_pairs.
  revert w. induction pairs as [|[x o] pairs IH]; intros w Hnd Hag Hready.
  - exists w. split; [done|]. split; [apply shape_kept_refl|]. split; [done|].
    split; [by intros p ?%elem_of_nil|done].
  - rewrite fmap_cons in Hnd. apply NoDup_cons in Hnd as [Hx Hnd]. cbn [fst] in Hx.
    destruct (Hready (x, o)) as (Hs & Hl & [members Ho]); [apply list_elem_of_here|].
    cbn [fst snd] in Hs, Hl, Ho.
    pose (m1 := {| by_student := dict_set x (Some o) (by_student (w_match w));
                   by_option := dict_set o (members ∪ {[x]}) (by_option (w_match w));
                   student_locked := student_locked (w_match w) |}).
    assert (assign x o (w_match w) = Return m1) as Hassign.
    { apply assign_Return. by exists members. }
    destruct (IH (moved w m1)) as (w' & Hrun & Hshape & Hlk & Hin' & Hout').
    + done.
    + unfold moved, m1; cbn [w_match by_student by_option student_locked].
      by apply agree_add.
    + intros p Hp. unfold moved, m1; cbn [w_match by_student by_option student_locked].
      destruct (Hready p) as (Hps & Hpl & Hpo); [by apply list_elem_of_further|].
      assert (p.1 ≠ x) as Hne.
      { intros E. apply Hx. rewrite <- E. apply list_elem_of_fmap. by exists p. }
      rewrite !store_dict_set, lookup_insert_ne by done.
      split; [done|]. split; [done|].
      destruct (decide (p.2 = o)) as [->|Hno];
        [by rewrite lookup_insert_eq|by rewrite lookup_insert_ne].
    + exists w'. split.
      { cbn [forM_ fst snd]. apply bind_run. exists tt, (moved w m1). split; [|done].
        apply mutate_run. by exists m1. }
      split; [eapply shape_kept_trans; [by eapply shape_kept_assign|done]|].
      split; [done|]. split.
      * intros p [->|Hp]%elem_of_cons; [|by apply Hin'].
        cbn [fst snd]. rewrite Hout' by done.
        unfold moved, m1; cbn [w_match by_student].
        by rewrite store_dict_set, lookup_insert_eq.
      * intros s Hnot. rewrite fmap_cons in Hnot.
        apply not_elem_of_cons in Hnot as [Hne Hnot]. cbn [fst] in Hne.
        rewrite Hout' by done. unfold moved, m1; cbn [w_match by_student].
        by rewrite store_dict_set, lookup_insert_ne.
Qed.

(** X21.  A matching can be rebuilt from its pairs: for a consistent
    matching in which every student is matched and nobody is locked,
    [reduce_to_pairs] returns the pairs, [erase_all] then returns, and
    [assign_pairs] on the pairs returns and gives back the matching,
    dict for dict.  This is what [main] does with the best pairs. *)
Theorem matching_is_rebuilt_from_its_pairs w pairs :
  agree (by_student (w_match w)) (by_option (w_match w)) →
  dict_wf (by_student (w_match w)) →
  dict_wf (by_option (w_match w)) →
  (∀ s, s ∈ keys (by_student (w_match w)) →
        store (student_locked (w_match w)) !! s = Some false) →
  reduce_to_pairs (w_match w) = Return pairs →
  ∃ w1 w2,
    erase_all w = (Return tt, w1) ∧
    assign_pairs pairs w1 = (Return tt, w2) ∧
    w_match w2 = w_match w.
Proof.
  intros Hag Hwfs Hwfo Hunlocked Hpairs.
  pose proof Hwfs as [Hnd Hdom].
  destruct (erase_loop (keys (by_student (w_match w))) w)
    as (w1 & Hrun1 & Hshape1 & Hlk1 & Hin1 & Hout1); [done|done| | |].
  { intros s Hs. by apply Hdom. }
  { intros s o Hs _. by apply Hunlocked. }
  pose proof (reduce_to_pairs_Return _ _ Hpairs) as HF.
  pose proof (pairs_count _ _ _ "" HF) as [Hfst _].
  assert (∀ p, p ∈ pairs → p.1 ∈ keys (by_student (w_match w)) ∧
                           store (by_student (w_match w)) !! p.1 = Some (Some p.2))
    as Hp.
  { clear -HF. induction HF as [|s p ks ps [<- Hs] _ IH].
    - by intros p ?%elem_of_nil.
    - intros q [->|Hq]%elem_of_cons.
      + split; [apply list_elem_of_here|done].
      + destruct (IH q Hq). split; [by apply list_elem_of_further|done]. }
  pose proof Hshape1 as (_ & _ & _ & Hdo1 & _ & Hag1).
  destruct (assign_loop pairs w1) as (w2 & Hrun2 & Hshape2 & Hlk2 & Hin2 & Hout2).
  - by rewrite Hfst.
  - by apply Hag1.
  - intros p Hin. destruct (Hp p Hin) as [Hpk Hps].
    split; [by apply Hin1|]. split; [rewrite Hlk1; by apply Hunlocked|].
    apply Hdo1. destruct (proj1 (Hag _ _) Hps) as (members & -> & _). done.
  - exists w1, w2. split.
    { unfold erase_all. apply bind_run. exists (keys (by_student (w_match w))), w.
      split; [by apply query_run|done]. }
    split; [done|].
    apply matching_eq; [by eapply shape_kept_trans|done| |].
    + intros s. destruct (decide (s ∈ keys (by_student (w_match w)))) as [Hs|Hs].
      * assert (∃ p, p ∈ pairs ∧ p.1 = s) as (p & Hin & <-).
        { rewrite <- Hfst in Hs. apply list_elem_of_fmap in Hs as (p & -> & Hin). eauto. }
        rewrite (Hin2 p Hin). by destruct (Hp p Hin) as [_ ->].
      * rewrite Hout2 by (by rewrite Hfst). by rewrite Hout1.
    + intros s. by rewrite Hlk2, Hlk1.
Qed.

(** *** The base case *)

(** X22.  The base case returns only when it needs no eviction: a call
    that returns found at least as many unmatched students as
    [list_underfilled_options(min_per_option)] lists places to fill. *)
Theorem base_case_returns_without_eviction
    students options n_choices min_per_option max_per_option w r w' :
  assignment_algorithm_base_case students options n_choices
    min_per_option max_per_option w = (Return r, w') →
  ∃ n_unhappy underfilled,
    get_n_unmatched (w_match w) = Return n_unhappy ∧
    list_underfilled_options min_per_option (w_match w) = Return underfilled ∧
    length underfilled ≤ n_unhappy.
Proof.
  intros H. unfold assignment_algorithm_base_case in H.
  run_step H n_unhappy w1 Hn.
  run_step H underfilled w1 Hu.
  run_step H evicted w1 Hev.
  exists n_unhappy, underfilled. split; [done|]. split; [done|].
  case_bool_decide as Hcmp; [|lia].
  apply eviction_raises in Hev; [done|lia].
Qed.

(** ** The engine, continued *)

(** *** A first stage in which everybody fits *)

Lemma is_matched_None m s :
  store (by_student m) !! s = Some None → is_matched m s = Return false.
Proof.
  intros H. rewrite (is_matched_store _ _ _ H).
  by rewrite bool_decide_eq_false_2 by (by intros ?).
Qed.

(** From a matching in which the students are unmatched, the first
    loop of a stage does what [assign_pairs] does on the students with
    their choices of the stage. *)
Lemma stage_entry_assigns students stage pairs acc w w' :
  Forall2 (λ st p, p.1 = name st ∧ get_choice st stage = Return p.2)
          students pairs →
  NoDup (name <$> students) →
  (∀ st, st ∈ students →
         store (by_student (w_match w)) !! name st = Some None) →
  assign_pairs pairs w = (Return tt, w') →
  foldM (λ assigned_students st,
           matched ← query (λ m, is_matched m (get_name st));
           if matched : bool then mret assigned_students
           else
             choice ← lift (get_choice st stage);
             mutate (assign (get_name st) choice);;
             mret (assigned_students ++ [get_name st]))
        acc students w
  = (Return (acc ++ (name <$> students)), w').
Proof.
  unfold assign_pairs. intros HF. revert acc w.
  induction HF as [|st p students pairs [Hname Hchoice] _ IH];
    intros acc w Hnd Hunmatched Hrun.
  - apply mret_run in Hrun as [_ ->]. by rewrite app_nil_r.
  - rewrite fmap_cons in Hnd. apply NoDup_cons in Hnd as [Hst Hnd].
    cbn [forM_] in Hrun. apply bind_run in Hrun as ([] & w1 & Hassign & Hrun).
    pose proof Hassign as Hassign'.
    apply mutate_run in Hassign' as (m1 & Hm1 & ->).
    rewrite Hname in Hm1.
    apply assign_Return in Hm1 as (members & Hs & Hl & Ho & ->).
    cbn [foldM]. apply bind_run. exists (acc ++ [name st]), (moved w
      {| by_student := dict_set (name st) (Some p.2) (by_student (w_match w));
         by_option := dict_set p.2 (members ∪ {[name st]}) (by_option (w_match w));
         student_locked := student_locked (w_match w) |}).
    split.
    + apply bind_run. exists false, w. split.
      { apply query_run. split; [|done]. by apply is_matched_None. }
      apply bind_run. exists p.2, w. split; [by apply lift_run|].
      apply bind_run. eexists tt, _. split; [|done].
      unfold get_name. rewrite Hname in Hassign. exact Hassign.
    + rewrite fmap_cons, (IH (acc ++ [name st]) _ Hnd); [by rewrite <- app_assoc| |done].
      intros st' Hst'. unfold moved; cbn [w_match by_student].
      rewrite store_dict_set, lookup_insert_ne; [by apply Hunmatched, list_elem_of_further|].
      intros E. apply Hst. rewrite E. apply list_elem_of_fmap. by exists st'.
Qed.

(** X23.  When every student's first choice is an option and no option
    is the first choice of more than [max_per_option] students, so that
    everybody could simply get their first choice, the engine does not
    return: the first stage finds no overfilled option, builds its one
    empty trim with [it.repeat(tuple(), n=1)], and raises
    [TypeError]. *)
Theorem engine_raises_when_first_choices_fit
    students options n_choices min_per_option max_per_option draws m :
  Matching_init students options = Return m →
  0 < n_choices →
  (∀ st, st ∈ students → ∃ c, get_choice st 1 = Return c ∧ c ∈ options) →
  (∀ o, o ∈ options →
        (Z.of_nat (length (filter (λ st, get_choice st 1 = Return o) students))
         ≤ max_per_option)%Z) →
  (recursive_assignment_algorithm students options n_choices
     min_per_option max_per_option 1 (initial_world m draws)).1
  = Raise TypeError.
Proof.
  intros Hinit Hn Hchoices Hfit.
  pose proof (Matching_init_agree _ _ _ Hinit) as Hag.
  apply Matching_init_Return in Hinit as (Hnds & Hndo & Hbs & Hbo & Hlk).
  assert (NoDup (id <$> options)) as Hndo' by (by rewrite list_fmap_id).
  assert (NoDup (id <$> (name <$> students))) as Hnds' by (by rewrite list_fmap_id).
  (* the pairs the first stage assigns *)
  assert (∃ pairs, Forall2 (λ st p, p.1 = name st ∧ get_choice st 1 = Return p.2)
                           students pairs) as [pairs HF].
  { clear -Hchoices. induction students as [|st students IH]; [by exists []|].
    destruct (Hchoices st) as (c & Hc & _); [apply list_elem_of_here|].
    destruct IH as [pairs HF]; [intros; by apply Hchoices, list_elem_of_further|].
    exists ((name st, c) :: pairs). by constructor. }
  assert (pairs.*1 = name <$> students) as Hfst.
  { clear -HF. induction HF as [|st p ? ? [Hn _] _ IH]; [done|].
    by rewrite !fmap_cons, IH, Hn. }
  assert (∀ p, p ∈ pairs → ∃ st, st ∈ students ∧ p.1 = name st ∧
                                 get_choice st 1 = Return p.2) as Hp.
  { clear -HF. induction HF as [|st p ? ? [? ?] _ IH]; [by intros p ?%elem_of_nil|].
    intros q [->|Hq]%elem_of_cons.
    - exists st. split; [apply list_elem_of_here|done].
    - destruct (IH q Hq) as (st' & ? & ?). exists st'.
      split; [by apply list_elem_of_further|done]. }
  set (w := initial_world m draws).
  destruct (assign_loop pairs w) as (w1 & Hrun & Hshape & Hlk1 & Hin & Hout).
  { by rewrite Hfst. }
  { done. }
  { intros p Hin. destruct (Hp p Hin) as (st & Hst & Hname & Hc).
    destruct (Hchoices st Hst) as (c & Hc' & Hco).
    assert (c = p.2) as -> by congruence.
    unfold w, initial_world; cbn [w_match]. rewrite Hbs, Hlk, Hbo, Hname.
    rewrite (store_dict_of name (λ _, None)) by done.
    rewrite (store_dict_of id (λ _, false) (name <$> students) (name st))
      by (done || (apply list_elem_of_fmap; by exists st)).
    rewrite (store_dict_of id (λ _, ∅) options p.2) by done. eauto. }
  assert (stage_entry students 1 w = (Return (name <$> students), w1)) as Hentry.
  { unfold stage_entry.
    rewrite (stage_entry_assigns students 1 pairs [] w w1); [done|done|done| |done].
    intros st Hst. unfold w, initial_world; cbn [w_match]. rewrite Hbs.
    by rewrite (store_dict_of name (λ _, None)). }
  pose proof Hshape as (_ & Hko & _ & _ & _ & Hag1).
  specialize (Hag1 Hag).
  assert (dict_wf (by_option (w_match w1))) as Hwfo1.
  { eapply dict_wf_shape_by_option; [done|].
    unfold w, initial_world; cbn [w_match]. rewrite Hbo. apply dict_of_wf. }
  assert (list_overfilled_options max_per_option (w_match w1) = Return []) as Hover.
  { rewrite list_overfilled_options_eq by done. f_equal.
    destruct (filter _ (keys (by_option (w_match w1)))) as [|o rest] eqn:E; [done|].
    exfalso.
    assert (o ∈ filter (λ o, (max_per_option
                              < Z.of_nat (occupancy (by_option (w_match w1)) o))%Z)
                       (keys (by_option (w_match w1)))) as Hin'
      by (rewrite E; apply list_elem_of_here).
    apply list_elem_of_filter in Hin' as [Hbig Ho].
    rewrite Hko in Ho. unfold w, initial_world in Ho; cbn [w_match] in Ho.
    rewrite Hbo, keys_dict_of, list_fmap_id in Ho by done.
    specialize (Hfit o Ho).
    assert (occupancy (by_option (w_match w1)) o
            ≤ length (filter (λ st, get_choice st 1 = Return o) students));
      [|lia].
    unfold occupancy.
    destruct (store (by_option (w_match w1)) !! o) as [members|] eqn:Hm; [|lia].
    rewrite <- (length_fmap name).
    unfold size, set_size. cbn [mbind]. apply submseteq_length, NoDup_submseteq.
    { apply NoDup_elements. }
    intros s Hs%elem_of_elements.
    assert (store (by_student (w_match w1)) !! s = Some (Some o)) as Hso
      by (apply Hag1; eauto).
    destruct (decide (s ∈ pairs.*1)) as [Hsp|Hsp].
    - apply list_elem_of_fmap in Hsp as (p & -> & Hpin).
      rewrite (Hin p Hpin) in Hso. injection Hso as Hso.
      destruct (Hp p Hpin) as (st & Hst & Hname & Hc).
      apply list_elem_of_fmap. exists st. split; [done|].
      apply list_elem_of_filter. split; [congruence|done].
    - rewrite (Hout s Hsp) in Hso.
      unfold w, initial_world in Hso; cbn [w_match] in Hso. rewrite Hbs in Hso.
      by apply store_dict_of_const in Hso. }
  unfold recursive_assignment_algorithm.
  destruct n_choices as [|k]; [lia|].
  replace (S (S k) - 1) with (S k) by lia.
  by rewrite (stage_without_overfilled_option_raises _ _ _ _ _ _ _ _ _ _ Hentry Hover).
Qed.

(** *** The score that comes with the pairs *)

Lemma foldM_Return_each {A B : Type} (f : B → A → result B) l acc r x :
  foldM f acc l = Return r → x ∈ l → ∃ acc1 acc2, f acc1 x = Return acc2.
Proof.
  revert acc. induction l as [|y l IH]; intros acc H Hx; [by apply elem_of_nil in Hx|].
  cbn [foldM] in H. apply bind_Return in H as (acc' & Hy & H).
  apply elem_of_cons in Hx as [->|Hx]; eauto.
Qed.

Lemma score_assignment_ext m m' students K :
  (∀ st, st ∈ students →
         store (by_student m') !! name st = store (by_student m) !! name st) →
  score_assignment m' students K = score_assignment m students K.
Proof.
  unfold score_assignment. generalize (0%Z :: replicate (2 * K) 0%Z).
  induction students as [|st students IH]; intros score H; [done|].
  cbn [foldM]. unfold get_match, dict_get, get_name.
  rewrite (H st) by apply list_elem_of_here.
  destruct (store (by_student m) !! name st) as [v|]; [|done].
  cbn [mbind result_bind].
  destruct (score_ranks K st v (seq 1 K) score) as [score'|]; [|done].
  cbn [mbind result_bind]. apply IH. intros; by apply H, list_elem_of_further.
Qed.

Section scored_states.
Context (students : list Student) (options : list string) (n_choices : nat).
Context (min_per_option max_per_option : Z).

Lemma base_case_scores_its_pairs w r w' :
  dict_wf (by_student (w_match w)) →
  assignment_algorithm_base_case students options n_choices
    min_per_option max_per_option w = (Return r, w') →
  ∃ pairs score st,
    r = (Some pairs, Some score) ∧
    dict_wf (by_student st) ∧
    keys (by_student st) = keys (by_student (w_match w)) ∧
    reduce_to_pairs st = Return pairs ∧
    score_assignment st students n_choices = Return score.
Proof.
  intros Hwf H. unfold assignment_algorithm_base_case in H.
  run_step H n_unhappy w1 Hn.
  run_step H underfilled w1 Hu.
  run_step H evicted w1 Hev.
  assert (shape_kept (w_match w) (w_match w1)) as Hs1.
  { eapply (keeps_run (shape_from (w_match w)));
      [|apply shape_kept_refl|exact Hev]. keeps_shape. }
  run_step H unhappy0 w2 Hun.
  run_step H unhappy w2 Hsh.
  assert (shape_kept (w_match w1) (w_match w2)) as Hs2.
  { eapply (keeps_run (shape_from (w_match w1)));
      [|apply shape_kept_refl|exact Hsh]. keeps_shape. }
  run_step H u1 w3 Hfill.
  assert (shape_kept (w_match w2) (w_match w3)) as Hs3.
  { eapply (keeps_run (shape_from (w_match w2)));
      [|apply shape_kept_refl|exact Hfill]. keeps_shape. }
  run_step H u2 w4 Hrest.
  assert (shape_kept (w_match w3) (w_match w4)) as Hs4.
  { eapply (keeps_run (shape_from (w_match w3)));
      [|apply shape_kept_refl|exact Hrest]. keeps_shape. }
  run_step H score w5 Hscore.
  run_step H pairs w5 Hpairs.
  run_step H u3 w5 Herase.
  run_step H u4 w6 Hback.
  run_step H u5 w7 Hrec.
  apply mret_run in H as [-> ->].
  assert (shape_kept (w_match w) (w_match w4)) as Hshape.
  { exact (shape_kept_trans _ _ _
             (shape_kept_trans _ _ _ (shape_kept_trans _ _ _ Hs1 Hs2) Hs3) Hs4). }
  exists pairs, score, (w_match w4). split; [done|].
  split; [by eapply dict_wf_shape_by_student|].
  split; [by destruct Hshape as (-> & _)|done].
Qed.

Lemma stages_score_their_pairs remaining stage w r w' :
  dict_wf (by_student (w_match w)) →
  stages students options n_choices min_per_option max_per_option
         remaining stage w = (Return r, w') →
  ∃ added,
    w_scored w' = w_scored w ++ added ∧
    ∀ c, c ∈ added →
         ∃ st, dict_wf (by_student st) ∧
               keys (by_student st) = keys (by_student (w_match w)) ∧
               reduce_to_pairs st = Return c.1 ∧
               score_assignment st students n_choices = Return c.2.
Proof.
  revert stage w r w'. induction remaining as [|remaining IH];
    intros stage w r w' Hwf H.
  - cbn [stages] in H.
    destruct (base_case_scored _ _ _ _ _ _ _ _ H) as (pairs & score & -> & Hs).
    destruct (base_case_scores_its_pairs _ _ _ Hwf H)
      as (pairs' & score' & st & E & Hst).
    injection E as <- <-.
    exists [(pairs, score)]. split; [done|].
    intros c ->%list_elem_of_singleton. by exists st.
  - cbn [stages] in H.
    set (sc := w_scored w). assert (scored_is sc w) as Hw by reflexivity.
    run_step H assigned w1 Hentry.
    assert (shape_kept (w_match w) (w_match w1)) as Hsh1.
    { eapply (keeps_run (shape_from (w_match w)));
        [|apply shape_kept_refl|exact Hentry]. keeps_shape. }
    apply (keeps_run (scored_is sc)) in Hentry; [|keeps_scored|done].
    run_step H overfilled w2 Hover.
    run_step H trim_iterables w2 Htrims.
    apply forM_query_run in Htrims as [-> Hits].
    run_step H trim_product w3 Hprod.
    case_bool_decide; [|done].
    apply mret_run in Hprod as [-> ->].
    run_step H best w4 Hloop.
    run_step H u w5 Herase.
    apply mret_run in H as [-> ->].
    apply (foldM_run
             (λ _ _ v,
                shape_kept (w_match w) (w_match v) ∧
                ∃ added, w_scored v = sc ++ added ∧
                         ∀ c, c ∈ added →
                              ∃ st, dict_wf (by_student st) ∧
                                    keys (by_student st)
                                    = keys (by_student (w_match w)) ∧
                                    reduce_to_pairs st = Return c.1 ∧
                                    score_assignment st students n_choices
                                    = Return c.2))
      in Hloop.
    + destruct Hloop as (_ & added & Hs & Hgood). exists added. split; [|done].
      by apply (keeps_run (scored_is (sc ++ added))) in Herase; [|keeps_scored|].
    + split; [done|]. exists []. rewrite app_nil_r. split; [done|].
      intros c Hc. by apply elem_of_nil in Hc.
    + clear Hloop. intros done trim best0 v best1 v' _ (Hshv & added & Hs & Hgood) Htry.
      assert (shape_kept (w_match w) (w_match v')) as Hshv'.
      { eapply shape_kept_trans; [done|].
        eapply (keeps_run (shape_from (w_match v)));
          [|apply shape_kept_refl|exact Htry].
        unfold try_trim. pose proof keeps_shape_stages. keeps_shape. }
      unfold try_trim in Htry.
      run_step Htry saved v1 Hrem.
      assert (shape_kept (w_match v) (w_match v1)) as Hshv1.
      { eapply (keeps_run (shape_from (w_match v)));
          [|apply shape_kept_refl|exact Hrem]. keeps_shape. }
      apply (keeps_run (scored_is (sc ++ added))) in Hrem; [|keeps_scored|done].
      run_step Htry locked v2 Hlock.
      assert (shape_kept (w_match v1) (w_match v2)) as Hshv2.
      { eapply (keeps_run (shape_from (w_match v1)));
          [|apply shape_kept_refl|exact Hlock]. keeps_shape. }
      apply (keeps_run (scored_is (sc ++ added))) in Hlock; [|keeps_scored|done].
      assert (shape_kept (w_match w) (w_match v2)) as Hsh2.
      { exact (shape_kept_trans _ _ _ (shape_kept_trans _ _ _ Hshv Hshv1) Hshv2). }
      run_step Htry new v3 Hnext.
      apply IH in Hnext as (added' & Hs' & Hgood');
        [|by eapply dict_wf_shape_by_student].
      run_step Htry u1 v4 Hunlock.
      apply (keeps_run (scored_is (sc ++ added ++ added'))) in Hunlock;
        [|keeps_scored|by rewrite app_assoc, <- Hlock].
      run_step Htry better v4b Hbetter.
      run_step Htry u2 v5 Hassign.
      apply (keeps_run (scored_is (sc ++ added ++ added'))) in Hassign;
        [|keeps_scored|done].
      apply mret_run in Htry as [-> ->].
      split; [done|]. exists (added ++ added'). split; [done|].
      intros c [Hc|Hc]%elem_of_app; [by apply Hgood|].
      destruct (Hgood' c Hc) as (st & Hwfst & Hk & Hst). exists st.
      split; [done|]. split; [|done]. rewrite Hk. by destruct Hsh2 as (-> & _).
Qed.
End scored_states.

Lemma engine_score_of_pairs
    students options n_choices min_per_option max_per_option stage
    w pairs score w' :
  dict_wf (by_student (w_match w)) →
  recursive_assignment_algorithm students options n_choices
    min_per_option max_per_option stage w
    = (Return (Some pairs, Some score), w') →
  pairs.*1 = keys (by_student (w_match w)) ∧
  ∀ m, (∀ p, p ∈ pairs → store (by_student m) !! p.1 = Some (Some p.2)) →
       score_assignment m students n_choices = Return score.
Proof.
  intros Hwf H. unfold recursive_assignment_algorithm in H.
  destruct (stages_score_their_pairs _ _ _ _ _ _ _ _ _ _ Hwf H)
    as (added & Hs & Hgood).
  destruct (stages_best _ _ _ _ _ _ _ _ _ _ H) as (added' & Hs' & Hbest).
  rewrite Hs in Hs'. apply app_inv_head in Hs' as <-.
  destruct Hbest as (p & [= <-] & Hin & _).
  destruct (Hgood _ Hin) as (st & [_ Hdom] & Hk & Hpairs & Hscore).
  cbn [fst snd] in Hpairs, Hscore.
  pose proof (reduce_to_pairs_Return _ _ Hpairs) as HF.
  pose proof (pairs_count _ _ _ "" HF) as [Hfst _].
  split; [congruence|].
  intros m Hm. rewrite <- Hscore. apply score_assignment_ext.
  intros stu Hstu.
  destruct (foldM_Return_each _ _ _ _ stu Hscore Hstu) as (acc1 & acc2 & Hf).
  apply bind_Return in Hf as (v & Hv%dict_get_Return & _).
  unfold get_name in Hv.
  assert (name stu ∈ keys (by_student st)) as Hkey by (apply Hdom; by rewrite Hv).
  assert (∃ q, q ∈ pairs ∧ q.1 = name stu ∧
               store (by_student st) !! name stu = Some (Some q.2))
    as (q & Hq & Hq1 & Hq2).
  { clear -HF Hkey. induction HF as [|s q ks ps [Hq1 Hq2] _ IH];
      [by apply elem_of_nil in Hkey|].
    apply elem_of_cons in Hkey as [->|Hkey].
    - exists q. split; [apply list_elem_of_here|done].
    - destruct (IH Hkey) as (q' & ? & ?). exists q'.
      split; [by apply list_elem_of_further|done]. }
  rewrite Hq2, <- Hq1. by apply Hm.
Qed.

(** X24.  The score the engine returns is the score of the pairs it
    returns: the pairs name the students of the matching in the order
    of its dict, and [score_assignment] returns the returned score on
    every matching that holds these pairs. *)
Theorem returned_score_belongs_to_returned_pairs
    students options n_choices min_per_option max_per_option stage
    w pairs score w' :
  dict_wf (by_student (w_match w)) →
  recursive_assignment_algorithm students options n_choices
    min_per_option max_per_option stage w
    = (Return (Some pairs, Some score), w') →
  pairs.*1 = keys (by_student (w_match w)) ∧
  ∀ m, (∀ p, p ∈ pairs → store (by_student m) !! p.1 = Some (Some p.2)) →
       score_assignment m students n_choices = Return score.
Proof. apply engine_score_of_pairs. Qed.

(** ** [main] *)

Lemma main_bounds_valid (n_students n_options : nat) :
  0 < n_options →
  ((main_bounds n_students n_options).1 * Z.of_nat n_options
   ≤ Z.of_nat n_students
   ≤ (main_bounds n_students n_options).2 * Z.of_nat n_options)%Z ∧
  (0 ≤ (main_bounds n_students n_options).1)%Z ∧
  ((main_bounds n_students n_options).2
   ≤ (main_bounds n_students n_options).1 + 1)%Z.
Proof.
  intros Hk. unfold main_bounds. cbn [fst snd].
  set (n := Z.of_nat n_students). set (k := Z.of_nat n_options).
  assert (0 < k)%Z as Hk' by lia. assert (0 ≤ n)%Z as Hn by lia.
  pose proof (Z.div_mod n k ltac:(lia)) as E1.
  pose proof (Z.mod_pos_bound n k Hk') as B1.
  pose proof (Z.div_mod (- n) k ltac:(lia)) as E2.
  pose proof (Z.mod_pos_bound (- n) k Hk') as B2.
  pose proof (Z.div_pos n k Hn Hk') as P1.
  split; [nia|]. split; [lia|]. nia.
Qed.

Lemma reduce_to_pairs_total m pairs :
  Forall2 (λ s p, p.1 = s ∧ store (by_student m) !! s = Some (Some p.2))
          (keys (by_student m)) pairs →
  reduce_to_pairs m = Return pairs.
Proof.
  unfold reduce_to_pairs. induction 1 as [|s [s' o] ks ps [Hs Ho] _ IH]; [done|].
  cbn [fst snd] in Hs, Ho. subst s'.
  cbn [forM]. rewrite (is_matched_store _ _ _ Ho).
  rewrite bool_decide_eq_true_2 by done. cbn [mbind result_bind assert].
  rewrite (proj2 (dict_get_Return _ _ _) Ho). cbn [mbind result_bind].
  by rewrite IH.
Qed.

Lemma pairs_Forall2 (σ : gmap string (option string)) (pairs : list (string * string)) :
  (∀ p, p ∈ pairs → σ !! p.1 = Some (Some p.2)) →
  Forall2 (λ s p, p.1 = s ∧ σ !! s = Some (Some p.2)) pairs.*1 pairs.
Proof.
  induction pairs as [|p pairs IH]; intros H; [constructor|].
  rewrite fmap_cons. constructor.
  - split; [done|]. apply H, list_elem_of_here.
  - apply IH. intros; by apply H, list_elem_of_further.
Qed.

(** What the engine returns from the fresh matching, with bounds that
    pass the assertions of [main]. *)
Lemma engine_result_feasible
    students options n_choices min_per_option max_per_option stage draws m r w' :
  Matching_init students options = Return m →
  (min_per_option * Z.of_nat (length options) ≤ Z.of_nat (length students)
   ≤ max_per_option * Z.of_nat (length options))%Z →
  recursive_assignment_algorithm students options n_choices
    min_per_option max_per_option stage (initial_world m draws) = (Return r, w') →
  ∃ pairs s,
    r = (Some pairs, Some s) ∧
    pairs.*1 = name <$> students ∧
    ∀ o, o ∈ options →
         (min_per_option ≤ Z.of_nat (occurrences o pairs.*2) ≤ max_per_option)%Z.
Proof.
  intros Hinit Hbounds H. unfold recursive_assignment_algorithm in H.
  pose proof (Matching_init_within _ _ _ _ _ Hinit Hbounds) as Hwithin.
  destruct (stages_feasible students options n_choices min_per_option
              max_per_option _ _ (initial_world m draws) _ _ Hwithin H)
    as (added & Hs & Hne & Hgood).
  destruct (stages_best _ _ _ _ _ _ _ _ _ _ H) as (added' & Hs' & Hbest).
  rewrite Hs in Hs'. apply app_inv_head in Hs' as <-.
  apply Matching_init_Return in Hinit as (Hnds & Hndo & Hbs & Hbo & _).
  unfold best_among in Hbest. destruct r as [r1 [s|]]; cbn [fst snd] in Hbest.
  - destruct Hbest as (p & -> & Hin & _). exists p, s. split; [done|].
    apply Hgood in Hin as [Hnames Hocc]. cbn in Hnames, Hocc.
    rewrite Hbs, keys_dict_of in Hnames by done. split; [done|].
    intros o Ho. apply Hocc. rewrite Hbo, keys_dict_of by (by rewrite list_fmap_id).
    by rewrite list_fmap_id.
  - by destruct Hbest as [_ ->].
Qed.

(** X25.  When [main] gets through, the matching it prints is complete
    and within the bounds it computed: its pairs are the best pairs of
    the engine, one for each student in the order read; every option
    holds at least the floor and at most the ceiling of the number of
    students per option; and the score printed with it is the score
    [score_assignment] gives that matching.  The two bounds differ by
    at most one. *)
Theorem main_prints_a_complete_matching students options n_choices draws m score :
  main students options n_choices draws = Some (Return (m, score)) →
  ∃ pairs s,
    score = Some s ∧
    reduce_to_pairs m = Return pairs ∧
    pairs.*1 = name <$> students ∧
    NoDup (name <$> students) ∧
    score_assignment m students n_choices = Return s ∧
    keys (by_option m) = options ∧
    (∀ o, o ∈ options →
          ((main_bounds (length students) (length options)).1
           ≤ Z.of_nat (occupancy (by_option m) o)
           ≤ (main_bounds (length students) (length options)).2)%Z) ∧
    ((main_bounds (length students) (length options)).2
     ≤ (main_bounds (length students) (length options)).1 + 1)%Z.
Proof.
  unfold main. intros H. case_bool_decide as Hk; [done|].
  destruct (main_bounds (length students) (length options))
    as [min_per_option max_per_option] eqn:Hb.
  injection H as H.
  apply bind_Return in H as ([] & Hmin%assert_Return%bool_decide_eq_true & H).
  apply bind_Return in H as ([] & Hmax%assert_Return%bool_decide_eq_true & H).
  apply bind_Return in H as (m0 & Hinit & H).
  match type of H with
  | (let '(_, _) := ?c in _) = _ => destruct c as [r w] eqn:Hrun
  end.
  apply bind_Return in H as (best_score & -> & [= <- <-]).
  run_step Hrun best w1 Hrec.
  run_step Hrun u1 w2 Herase.
  run_step Hrun best_pairings w3 Hbp.
  run_step Hrun u2 w4 Hassign.
  apply mret_run in Hrun as [-> ->].
  destruct (engine_result_feasible _ _ _ _ _ _ _ _ _ _ Hinit (conj Hmin Hmax) Hrec)
    as (pairs & s & -> & Hfst & Hocc).
  cbn [fst snd] in *. apply mret_run in Hbp as [-> ->].
  pose proof (Matching_init_agree _ _ _ Hinit) as Hag0.
  pose proof (Matching_init_Return _ _ _ Hinit) as (Hnds & Hndo & Hbs0 & Hbo0 & Hlk0).
  assert (dict_wf (by_student m0)) as Hwfs0 by (rewrite Hbs0; apply dict_of_wf).
  assert (dict_wf (by_option m0)) as Hwfo0 by (rewrite Hbo0; apply dict_of_wf).
  (* the engine leaves the fresh matching *)
  assert (w_match w1 = m0) as Hm1.
  { unfold recursive_assignment_algorithm in Hrec.
    by apply stages_frame in Hrec. }
  (* the score of the pairs *)
  destruct (engine_score_of_pairs students options n_choices min_per_option
              max_per_option 1 (initial_world m0 draws) pairs s w1 Hwfs0 Hrec)
    as [_ Hscore].
  (* [erase_all] and [assign_pairs] *)
  assert (shape_kept (w_match w1) (w_match w2)) as Hsh2.
  { eapply (keeps_run (shape_from (w_match w1)));
      [|apply shape_kept_refl|exact Herase]. unfold erase_all. keeps_shape. }
  assert (shape_kept (w_match w2) (w_match w4)) as Hsh4.
  { eapply (keeps_run (shape_from (w_match w2)));
      [|apply shape_kept_refl|exact Hassign]. keeps_shape. }
  pose proof (shape_kept_trans _ _ _ Hsh2 Hsh4) as Hshape. rewrite Hm1 in Hshape.
  apply assign_pairs_run in Hassign as (_ & Hin & _).
  pose proof Hshape as (Hks & Hko & _ & Hdo & _ & Hag). specialize (Hag Hag0).
  assert (keys (by_student (w_match w4)) = name <$> students) as Hkeys.
  { rewrite Hks, Hbs0. by apply keys_dict_of. }
  assert (reduce_to_pairs (w_match w4) = Return pairs) as Hpairs.
  { apply reduce_to_pairs_total. rewrite Hkeys, <- Hfst. by apply pairs_Forall2. }
  exists pairs, s. split; [done|]. split; [done|]. split; [done|]. split; [done|].
  split; [by apply Hscore|]. split.
  { rewrite Hko, Hbo0, keys_dict_of by (by rewrite list_fmap_id). apply list_fmap_id. }
  split.
  - intros o Ho.
    assert (is_Some (store (by_option (w_match w4)) !! o)) as [members Hmem].
    { apply Hdo, Hwfo0. rewrite Hbo0, keys_dict_of by (by rewrite list_fmap_id).
      by rewrite list_fmap_id. }
    destruct (occurrences_pairs _ _ o members Hag
                (dict_wf_shape_by_student _ _ Hshape Hwfs0) Hpairs Hmem) as [_ Hcount].
    unfold occupancy. rewrite Hmem, <- Hcount. by apply Hocc.
  - assert (0 < length options) as Hpos by lia.
    pose proof (main_bounds_valid (length students) (length options) Hpos)
      as (_ & _ & Hclose).
    by rewrite Hb in Hclose.
Qed.

(** ** The further properties on ann and bob *)

Lemma NoDup_X_Y : NoDup ["X"; "Y"].
Proof.
  apply NoDup_cons. split; [|apply NoDup_singleton].
  intros H%list_elem_of_singleton. discriminate H.
Qed.

Lemma fresh_match_invariant : new_invariant fresh_match.
Proof.
  split; [|exact (Matching_init_agree _ _ _ fresh_match_init)].
  eapply agree_one_option. exact (Matching_init_agree _ _ _ fresh_match_init).
Qed.

Lemma half_match_invariant : new_invariant half_match.
Proof.
  exact (new_invariant_assign _ _ _ _ fresh_match_invariant half_match_by_assign).
Qed.

Lemma crowded_by_second_assign : assign "bob" "X" half_match = Return crowded_match.
Proof. vm_compute. reflexivity. Qed.

Lemma crowded_match_invariant : new_invariant crowded_match.
Proof.
  exact (new_invariant_assign _ _ _ _ half_match_invariant crowded_by_second_assign).
Qed.

Lemma known_student_of_ann_and_bob {V : Type} (f : Student → V) s :
  is_Some (store (dict_of name f [ann; bob]) !! s) → s = "ann" ∨ s = "bob".
Proof.
  intros H. apply (dict_of_wf name f [ann; bob]) in H.
  rewrite keys_dict_of in H by exact NoDup_ann_bob.
  apply elem_of_cons in H as [->|H]; [by left|].
  apply list_elem_of_singleton in H as ->. by right.
Qed.

Lemma old_fresh_match_agree :
  agree (AU.by_student old_fresh_match) (AU.by_option old_fresh_match).
Proof.
  intros s o. unfold old_fresh_match, AU.Matching_init.
  cbn [AU.by_student AU.by_option]. rewrite !dict_from_keys_store. split.
  - intros H. by destruct (decide _).
  - intros (members & H & Hs). destruct (decide _); [|done].
    injection H as <-. by apply elem_of_empty in Hs.
Qed.

Lemma add_pair_ann_X :
  AU.add_pair "ann" "X" old_fresh_match = Return old_half_match.
Proof. vm_compute. reflexivity. Qed.

Lemma base_case_run_on_half_match :
  (assignment_algorithm_base_case [ann; bob] ["X"; "Y"] 1 1%Z 1%Z
     (initial_world half_match [])).1
  = Return (Some [("ann", "X"); ("bob", "Y")], Some [1; 1; 0]%Z).
Proof. vm_compute. reflexivity. Qed.

Lemma base_case_run_equation :
  assignment_algorithm_base_case [ann; bob] ["X"; "Y"] 1 1%Z 1%Z
    (initial_world half_match [])
  = (Return (Some [("ann", "X"); ("bob", "Y")], Some [1; 1; 0]%Z),
     (assignment_algorithm_base_case [ann; bob] ["X"; "Y"] 1 1%Z 1%Z
        (initial_world half_match [])).2).
Proof.
  rewrite <- base_case_run_on_half_match. apply surjective_pairing.
Qed.

Lemma main_on_ann_and_bob :
  main [ann; bob] ["X"; "Y"] 1 []
  = Some (Return (settled_match, Some [1; 1; 1]%Z)).
Proof. vm_compute. reflexivity. Qed.

Lemma score_of_old_crowded_match :
  AU.calculate_score ann_bob_scorer old_crowded_match = Return [2; 2; 1]%Z.
Proof. vm_compute. reflexivity. Qed.

Lemma choice_lists_of_ann_and_bob :
  snd <$> dict_items (choices_dict [ann; bob]) = [["X"]; ["X"]].
Proof. vm_compute. reflexivity. Qed.

Lemma choices_of_ann_and_bob :
  concat (snd <$> dict_items (choices_dict [ann; bob])) = ["X"; "X"].
Proof. vm_compute. reflexivity. Qed.

Lemma assign_and_erase_are_inverse_witness :
  erase "ann" half_match = Return fresh_match.
Proof.
  apply (proj1 (assign_and_erase_are_inverse "ann" "X" fresh_match half_match
                  (proj2 fresh_match_invariant))).
  exact half_match_by_assign.
Defined.

Lemma locked_student_is_frozen_witness :
  (∀ o, assign "ann" o locked_match = Raise AssertionError) ∧
  erase "ann" locked_match = Raise AssertionError.
Proof.
  apply (locked_student_is_frozen "ann" locked_match).
  - exists (Some "X"). vm_compute. reflexivity.
  - vm_compute. reflexivity.
Defined.

Lemma overfilled_options_and_their_trims_witness :
  list_overfilled_options 1 crowded_match
  = Return (filter (λ o, (1 < Z.of_nat (occupancy (by_option crowded_match) o))%Z)
                   (keys (by_option crowded_match))).
Proof.
  apply (λ H, proj1 (overfilled_options_and_their_trims 1%Z crowded_match H)).
  apply dict_of_wf.
Defined.

Lemma trim_iterable_yields_the_removals_witness :
  ∃ members,
    store (by_option crowded_match) !! "X" = Some members ∧
    (1 < Z.of_nat (size members))%Z ∧
    (∀ g, g ∈ [["ann"]; ["bob"]] →
          NoDup g ∧
          Z.of_nat (length g) = (Z.of_nat (size members) - 1)%Z ∧
          ∀ s, s ∈ g → s ∈ members ∧
                       store (student_locked crowded_match) !! s = Some false) ∧
    (∀ G : gset string,
       G ⊆ members →
       (∀ s, s ∈ G → store (student_locked crowded_match) !! s = Some false) →
       Z.of_nat (size G) = (Z.of_nat (size members) - 1)%Z →
       ∃ g, g ∈ [["ann"]; ["bob"]] ∧ list_to_set g = G).
Proof.
  apply (trim_iterable_yields_the_removals "X" 1%Z crowded_match).
  vm_compute. reflexivity.
Defined.

Lemma empty_spots_by_headroom_witness :
  ∃ l, list_empty_spots 0 2 half_match = Return l ∧
       (∀ o, o ∈ keys (by_option half_match) →
             occurrences o l =
             if bool_decide (0 ≤ Z.of_nat (occupancy (by_option half_match) o)
                             < 2)%Z
             then Z.to_nat (2 - Z.of_nat (occupancy (by_option half_match) o))
             else 0) ∧
       (∀ o, o ∈ l → o ∈ keys (by_option half_match)) ∧
       ((0 ≤ 0)%Z → list_underfilled_options 2 half_match = Return l).
Proof.
  apply (empty_spots_by_headroom 0%Z 2%Z half_match). apply dict_of_wf.
Defined.

Lemma pair_arguments_in_either_order_witness :
  AU.add_pair "ann" "X" old_fresh_match = AU.add_pair "X" "ann" old_fresh_match ∧
  AU.delete_pair "ann" "X" old_fresh_match
  = AU.delete_pair "X" "ann" old_fresh_match.
Proof.
  apply (pair_arguments_in_either_order "ann" "X" old_fresh_match).
  intros ([x Hx] & _). unfold old_fresh_match, AU.Matching_init in Hx.
  cbn [AU.by_option] in Hx. rewrite dict_from_keys_store in Hx.
  destruct (decide _) as [Hin|]; [|discriminate Hx].
  apply elem_of_cons in Hin as [Hin|Hin]; [discriminate Hin|].
  apply list_elem_of_singleton in Hin. discriminate Hin.
Defined.

Lemma add_and_delete_pair_are_inverse_witness :
  AU.delete_pair "ann" "X" old_half_match = Return old_fresh_match ∧
  AU.add_pair "ann" "X" old_half_match = Raise ValueError ∧
  AU.delete_pair "ann" "X" old_fresh_match = Raise ValueError.
Proof.
  apply (add_and_delete_pair_are_inverse "ann" "X" old_fresh_match old_half_match).
  - exact old_fresh_match_agree.
  - exact add_pair_ann_X.
Defined.

Lemma lookup_after_add_pair_witness :
  (∃ o s, ((o = "ann" ∧ s = "X") ∨ (o = "X" ∧ s = "ann")) ∧
          AU.lookup s old_half_match = Return (AU.OfStudent (Some o)) ∧
          (store (AU.by_student old_fresh_match) !! o = None →
           ∃ members, AU.lookup o old_half_match = Return (AU.OfOption members) ∧
                      s ∈ members)) ∧
  (∀ x, store (AU.by_student old_half_match) !! x = None →
        store (AU.by_option old_half_match) !! x = None →
        AU.lookup x old_half_match = Raise KeyError).
Proof.
  apply (lookup_after_add_pair "ann" "X" old_fresh_match old_half_match).
  exact add_pair_ann_X.
Defined.

Lemma clear_gives_the_fresh_matching_witness :
  AU.clear old_crowded_match
  = AU.Matching_init (keys (AU.by_option old_crowded_match))
                     (keys (AU.by_student old_crowded_match)) ∧
  AU.as_tuples (AU.clear old_crowded_match)
  = list_to_set ((λ s, (s, None)) <$> keys (AU.by_student old_crowded_match)) ∧
  AU.clear (AU.clear old_crowded_match) = AU.clear old_crowded_match.
Proof.
  apply (clear_gives_the_fresh_matching old_crowded_match); apply dict_of_wf.
Defined.

Lemma loop_body_keeps_the_best_witness :
  (∀ m, m ∈ [old_crowded_match] →
        ∃ s, AU.calculate_score ann_bob_scorer m = Return s ∧
             tuple_ge [2; 2; 1]%Z s = true) ∧
  (∀ t, t ∈ ({[ AU.as_tuples old_crowded_match ]}
               : gset (gset (string * option string))) ↔
        ∃ m, m ∈ [old_crowded_match] ∧ AU.as_tuples m = t ∧
             AU.calculate_score ann_bob_scorer m = Return [2; 2; 1]%Z) ∧
  ({[ AU.as_tuples old_crowded_match ]}
     : gset (gset (string * option string))) ≠ ∅.
Proof.
  apply (loop_body_keeps_the_best ann_bob_scorer [old_crowded_match]
           {[ AU.as_tuples old_crowded_match ]} [2; 2; 1]%Z).
  cbn [foldM]. unfold AssignStudents.consider.
  rewrite score_of_old_crowded_match. reflexivity.
Defined.

Lemma tally_counts_the_choices_witness :
  ∃ first all,
    AssignStudents.tallies ["X"; "Y"] (choices_dict [ann; bob])
    = Return (first, all) ∧
    AssignStudents.all_choices ["X"; "Y"] (choices_dict [ann; bob]) = Return all ∧
    keys first = ["X"; "Y"] ∧ keys all = ["X"; "Y"] ∧
    (∀ o, o ∈ ["X"; "Y"] →
          store first !! o
          = Some (Z.of_nat (occurrences o
                    (omap head (snd <$> dict_items (choices_dict [ann; bob])))))) ∧
    (∀ o, o ∈ ["X"; "Y"] →
          store all !! o
          = Some (Z.of_nat (occurrences o
                    (concat (snd <$> dict_items (choices_dict [ann; bob])))))) ∧
    zero_vote_options ["X"; "Y"] (choices_dict [ann; bob])
    = length (filter (λ o, store all !! o = Some 0%Z) ["X"; "Y"]).
Proof.
  apply (tally_counts_the_choices ["X"; "Y"] (choices_dict [ann; bob])).
  - exact NoDup_X_Y.
  - intros l Hl. rewrite choice_lists_of_ann_and_bob in Hl.
    apply elem_of_cons in Hl as [->|Hl]; [discriminate|].
    apply list_elem_of_singleton in Hl as ->. discriminate.
  - intros p Hp. rewrite choices_of_ann_and_bob in Hp.
    apply elem_of_cons in Hp as [->|Hp]; [apply list_elem_of_here|].
    apply list_elem_of_singleton in Hp as ->. apply list_elem_of_here.
Defined.

Lemma score_assignment_counts_add_up_witness :
  ∃ happy ranks hp_ranks,
    score_assignment crowded_match [ann; bob] 1
    = Return (happy :: ranks ++ hp_ranks) ∧
    length ranks = 1 ∧ length hp_ranks = 1 ∧
    happy = foldr Z.add 0%Z ranks ∧
    (0 ≤ happy ≤ Z.of_nat (length [ann; bob]))%Z ∧
    Forall2 (λ h r : Z, (0 ≤ h ≤ r)%Z) hp_ranks ranks.
Proof.
  apply (score_assignment_counts_add_up crowded_match [ann; bob] 1).
  - repeat constructor.
  - intros st Hst. exists (Some "X").
    apply elem_of_cons in Hst as [->|Hst].
    + vm_compute. reflexivity.
    + apply list_elem_of_singleton in Hst as ->. vm_compute. reflexivity.
Defined.

Lemma erase_all_unmatches_everybody_witness :
  ∃ w',
    erase_all (initial_world crowded_match []) = (Return tt, w') ∧
    keys (by_student (w_match w')) = keys (by_student crowded_match) ∧
    keys (by_option (w_match w')) = keys (by_option crowded_match) ∧
    student_locked (w_match w') = student_locked crowded_match ∧
    (∀ s, s ∈ keys (by_student crowded_match) →
          store (by_student (w_match w')) !! s = Some None) ∧
    (∀ o, o ∈ keys (by_option crowded_match) →
          store (by_option (w_match w')) !! o = Some ∅).
Proof.
  apply (λ H1 H2 H3,
           proj1 (erase_all_unmatches_everybody
                    (initial_world crowded_match []) H1 H2 H3)).
  - exact (proj2 crowded_match_invariant).
  - apply dict_of_wf.
  - apply dict_of_wf.
  - intros s o Hs.
    destruct (known_student_of_ann_and_bob _ s (mk_is_Some _ _ Hs)) as [->| ->];
      vm_compute; reflexivity.
Defined.

Lemma lock_all_matched_then_unlock_many_witness :
  ∃ w1 w2,
    lock_all_matched (initial_world half_match [])
    = (Return (filter (λ s, is_matched half_match s = Return true ∧
                            is_locked half_match s = Return false)
                      (keys (by_student half_match))), w1) ∧
    by_student (w_match w1) = by_student half_match ∧
    by_option (w_match w1) = by_option half_match ∧
    (∀ s o, store (by_student half_match) !! s = Some (Some o) →
            store (student_locked (w_match w1)) !! s = Some true) ∧
    unlock_many (filter (λ s, is_matched half_match s = Return true ∧
                              is_locked half_match s = Return false)
                        (keys (by_student half_match))) w1
    = (Return tt, w2) ∧
    w_match w2 = half_match.
Proof.
  apply (lock_all_matched_then_unlock_many (initial_world half_match [])).
  - apply dict_of_wf.
  - intros s Hs. exists false.
    apply (dict_of_wf name _ [ann; bob]) in Hs.
    destruct (known_student_of_ann_and_bob _ s Hs) as [->| ->];
      vm_compute; reflexivity.
Defined.

Lemma matching_is_rebuilt_from_its_pairs_witness :
  ∃ w1 w2,
    erase_all (initial_world crowded_match []) = (Return tt, w1) ∧
    assign_pairs [("ann", "X"); ("bob", "X")] w1 = (Return tt, w2) ∧
    w_match w2 = crowded_match.
Proof.
  apply (matching_is_rebuilt_from_its_pairs (initial_world crowded_match [])
           [("ann", "X"); ("bob", "X")]).
  - exact (proj2 crowded_match_invariant).
  - apply dict_of_wf.
  - apply dict_of_wf.
  - intros s Hs. apply (dict_of_wf name _ [ann; bob]) in Hs.
    destruct (known_student_of_ann_and_bob _ s Hs) as [->| ->];
      vm_compute; reflexivity.
  - vm_compute. reflexivity.
Defined.

Lemma base_case_returns_without_eviction_witness :
  ∃ n_unhappy underfilled,
    get_n_unmatched half_match = Return n_unhappy ∧
    list_underfilled_options 1 half_match = Return underfilled ∧
    length underfilled ≤ n_unhappy.
Proof.
  apply (base_case_returns_without_eviction [ann; bob] ["X"; "Y"] 1 1%Z 1%Z
           (initial_world half_match [])
           (Some [("ann", "X"); ("bob", "Y")], Some [1; 1; 0]%Z)
           (assignment_algorithm_base_case [ann; bob] ["X"; "Y"] 1 1%Z 1%Z
              (initial_world half_match [])).2).
  exact base_case_run_equation.
Defined.

Lemma engine_raises_when_first_choices_fit_witness :
  (recursive_assignment_algorithm [ann; bob] ["X"; "Y"] 1 1%Z 2%Z 1
     (initial_world fresh_match [])).1
  = Raise TypeError.
Proof.
  apply (engine_raises_when_first_choices_fit [ann; bob] ["X"; "Y"] 1 1%Z 2%Z []
           fresh_match).
  - exact fresh_match_init.
  - lia.
  - intros st Hst. exists "X". split; [|apply list_elem_of_here].
    apply elem_of_cons in Hst as [->|Hst].
    + vm_compute. reflexivity.
    + apply list_elem_of_singleton in Hst as ->. vm_compute. reflexivity.
  - intros o _.
    pose proof (length_filter (λ st, get_choice st 1 = Return o) [ann; bob]) as H.
    cbn [length] in H. lia.
Defined.

Lemma returned_score_belongs_to_returned_pairs_witness :
  [("ann", "Y"); ("bob", "X")].*1 = keys (by_student fresh_match) ∧
  ∀ m, (∀ p, p ∈ [("ann", "Y"); ("bob", "X")] →
             store (by_student m) !! p.1 = Some (Some p.2)) →
       score_assignment m [ann; bob] 1 = Return [1; 1; 1]%Z.
Proof.
  apply (returned_score_belongs_to_returned_pairs [ann; bob] ["X"; "Y"]
           1 1%Z 1%Z 1 (initial_world fresh_match [])
           [("ann", "Y"); ("bob", "X")] [1; 1; 1]%Z
           (recursive_assignment_algorithm [ann; bob] ["X"; "Y"] 1 1%Z 1%Z 1
              (initial_world fresh_match [])).2).
  - apply dict_of_wf.
  - exact engine_run_equation.
Defined.

Lemma main_prints_a_complete_matching_witness :
  ∃ pairs s,
    Some [1; 1; 1]%Z = Some s ∧
    reduce_to_pairs settled_match = Return pairs ∧
    pairs.*1 = name <$> [ann; bob] ∧
    NoDup (name <$> [ann; bob]) ∧
    score_assignment settled_match [ann; bob] 1 = Return s ∧
    keys (by_option settled_match) = ["X"; "Y"] ∧
    (∀ o, o ∈ ["X"; "Y"] →
          ((main_bounds 2 2).1
           ≤ Z.of_nat (occupancy (by_option settled_match) o)
           ≤ (main_bounds 2 2).2)%Z) ∧
    ((main_bounds 2 2).2 ≤ (main_bounds 2 2).1 + 1)%Z.
Proof.
  apply (main_prints_a_complete_matching [ann; bob] ["X"; "Y"] 1 []
           settled_match (Some [1; 1; 1]%Z)).
  exact main_on_ann_and_bob.
Defined.

Lemma fresh_matching_needs_distinct_names_witness :
  ∃ m, Matching_init [ann; bob] ["X"; "Y"] = Return m ∧
       keys (by_student m) = name <$> [ann; bob] ∧
       keys (by_option m) = ["X"; "Y"] ∧
       keys (student_locked m) = name <$> [ann; bob] ∧
       (∀ s, s ∈ name <$> [ann; bob] →
             store (by_student m) !! s = Some None ∧
             store (student_locked m) !! s = Some false) ∧
       (∀ o, o ∈ ["X"; "Y"] → store (by_option m) !! o = Some ∅).
Proof.
  apply (proj1 (fresh_matching_needs_distinct_names [ann; bob] ["X"; "Y"])).
  split; [exact NoDup_ann_bob|exact NoDup_X_Y].
Defined.

Lemma lock_and_unlock_are_inverse_witness :
  unlock "ann" locked_match = Return half_match ∧
  lock "ann" locked_match = Raise AssertionError.
Proof.
  apply (proj1 (lock_and_unlock_are_inverse "ann" half_match locked_match)).
  vm_compute. reflexivity.
Defined.

Lemma number_of_unmatched_students_witness :
  list_unmatched_students half_match
  = Return (filter (λ s, store (by_student half_match) !! s = Some None)
                   (keys (by_student half_match))).
Proof.
  apply (proj2 (number_of_unmatched_students half_match)). apply dict_of_wf.
Defined.

Lemma size_queries_agree_witness :
  (AU.obeys_min_per_option_all 1 old_crowded_match = true ↔
   ∀ o, o ∈ keys (AU.by_option old_crowded_match) →
        AU.obeys_min_per_option 1 o old_crowded_match = Return true) ∧
  (AU.obeys_max_per_option_all 1 old_crowded_match = true ↔
   ∀ o, o ∈ keys (AU.by_option old_crowded_match) →
        AU.obeys_max_per_option 1 o old_crowded_match = Return true).
Proof.
  apply (proj2 (proj2 (size_queries_agree 1%Z old_crowded_match))).
  apply dict_of_wf.
Defined.

Lemma too_many_unhappy_students_yield_nothing_witness :
  AssignStudents.search_loop 5 ann_bob_scorer ["X"; "Y"]
    (choices_dict [ann; bob]) 3 = Return None.
Proof.
  apply (proj2 (too_many_unhappy_students_yield_nothing
                  (λ (_ : AU.Matching) (acc : unit), Return acc)
                  (list_to_set ["X"; "Y"]) (choices_dict [ann; bob])
                  ann_bob_scorer ["X"; "Y"])).
  vm_compute. lia.
Defined.

Lemma score_calculator_needs_one_length_witness :
  AU.key_set (choices_dict [ann; bob]) = AU.key_set (high_priority_dict [ann; bob]) ∧
  dict_items (choices_dict [ann; bob]) ≠ [] ∧
  (∀ kv, kv ∈ dict_items (choices_dict [ann; bob]) →
         length kv.2 = AU.sc_n_choices ann_bob_scorer) ∧
  AU.sc_choices ann_bob_scorer = choices_dict [ann; bob] ∧
  AU.sc_high_priority ann_bob_scorer = high_priority_dict [ann; bob].
Proof.
  apply (proj1 (score_calculator_needs_one_length (choices_dict [ann; bob])
                  (high_priority_dict [ann; bob]))).
  exact ann_bob_scorer_init.
Defined.
